(** * A contact directory with birthday reminders: model and properties

    Shallow embedding of [web.exercise2.py]: validated fields, the phone and
    birthday managers, records, the address book, the upcoming-birthday
    calculator, the command classes and the error-reporting decorator.

    Conventions of the embedding.
    - A Python [str] is a [string]; its characters are the code points
      U+0000..U+00FF, one [ascii] each, read through [N_of_ascii].
    - A raised exception is the left summand of [result]; the exception class
      and its message are kept, because the decorator [input_error] selects on
      the class and prints the message.
    - Methods that mutate [self] are state transformers in the monad [M]:
      they return the outcome together with the object as it is when the
      method returns or raises.
    - The calendar functions follow the [datetime] module of the standard
      library ([_ymd2ord], [_ord2ymd], [_check_date_fields]), and [strptime]
      follows the regular expression that [_strptime] builds for the format
      ["%d.%m.%Y"]. *)

From Stdlib Require Import ZArith List String Ascii Bool Lia DecimalString.
Import ListNotations.

Local Open Scope string_scope.
Local Open Scope Z_scope.

(** ** Exceptions and the state-and-exception monad *)

Inductive exn : Type :=
| ValueError (msg : string)
| OverflowError (msg : string).

Definition exn_str (e : exn) : string :=
  match e with
  | ValueError msg => msg
  | OverflowError msg => msg
  end.

Definition result (A : Type) : Type := (exn + A)%type.

Definition rbind {A B : Type} (r : result A) (k : A -> result B) : result B :=
  match r with
  | inl e => inl e
  | inr a => k a
  end.

Definition M (S A : Type) : Type := S -> result A * S.

Definition mret {S A : Type} (a : A) : M S A := fun s => (inr a, s).

Definition mraise {S A : Type} (e : exn) : M S A := fun s => (inl e, s).

Definition mbind {S A B : Type} (m : M S A) (k : A -> M S B) : M S B :=
  fun s =>
    match m s with
    | (inl e, s') => (inl e, s')
    | (inr a, s') => k a s'
    end.

Definition mget {S : Type} : M S S := fun s => (inr s, s).

Definition mput {S : Type} (s : S) : M S unit := fun _ => (inr tt, s).

Definition mlift {S A : Type} (r : result A) : M S A := fun s => (r, s).

Declare Scope py_scope.
Delimit Scope py_scope with py.
Notation "x <- m ;; k" := (mbind m (fun x => k))
  (at level 61, m at next level, right associativity) : py_scope.
Notation "m ;;; k" := (mbind m (fun _ => k))
  (at level 61, right associativity) : py_scope.
Notation "'try!' x <- r ;; k" := (rbind r (fun x => k))
  (at level 61, x name, r at next level, right associativity) : py_scope.
Local Open Scope py_scope.

(** ** Strings *)

Definition newline : string := String (ascii_of_N 10) "".

Fixpoint str_all (p : ascii -> bool) (s : string) : bool :=
  match s with
  | EmptyString => true
  | String c r => p c && str_all p r
  end.

(** [str.isdigit] character by character: the characters whose Unicode
    numeric type is Digit or Decimal.  Up to U+00FF these are the ten ASCII
    digits and the superscripts U+00B2, U+00B3 and U+00B9. *)
Definition char_isdigit (c : ascii) : bool :=
  let n := N_of_ascii c in
  ((48 <=? n) && (n <=? 57) || (n =? 178) || (n =? 179) || (n =? 185))%N.

(** [str.isdigit]: every character is a digit and there is at least one. *)
Definition str_isdigit (s : string) : bool :=
  match s with
  | EmptyString => false
  | String _ _ => str_all char_isdigit s
  end.

(** [str(n)] for an integer. *)
Definition int_str (n : Z) : string := NilZero.string_of_int (Z.to_int n).

(** [sep.join(items)] *)
Fixpoint str_join (sep : string) (items : list string) : string :=
  match items with
  | [] => ""
  | [x] => x
  | x :: rest => x ++ sep ++ str_join sep rest
  end.

(** ** Fields *)

Record Field : Type := mkField { value : string }.

Definition Field_str (f : Field) : string := value f.

Definition Name : Type := Field.
Definition Phone : Type := Field.
Definition Birthday : Type := Field.

Definition invalid_phone_msg : string :=
  "Phone number must be a string of 10 digits".

(** [Phone.__init__]; the argument is a [str], so [isinstance(value, str)]
    holds. *)
Definition Phone_init (v : string) : result Phone :=
  if negb (str_isdigit v && (String.length v =? 10)%nat)
  then inl (ValueError invalid_phone_msg)
  else inr (mkField v).

(** ** PhoneManager *)

Record PhoneManager : Type := mkPhoneManager { phones : list Phone }.

Definition PhoneManager_init : PhoneManager := mkPhoneManager [].

Definition add_phone (phone : string) : M PhoneManager unit :=
  new_phone <- mlift (Phone_init phone) ;;
  self <- mget ;;
  mput (mkPhoneManager (phones self ++ [new_phone])).

Definition remove_phone (phone : string) : M PhoneManager unit :=
  self <- mget ;;
  mput (mkPhoneManager
          (filter (fun p => negb (value p =? phone)%string) (phones self))).

(** [p.value = v] for the cell at position [i] of [self.phones]. *)
Fixpoint set_value_at (i : nat) (v : string) (ps : list Phone) : list Phone :=
  match ps, i with
  | [], _ => []
  | _ :: rest, O => mkField v :: rest
  | p :: rest, S j => p :: set_value_at j v rest
  end.

(** The [for p in self.phones] loop of [edit_phone], entered at position [i]
    with [todo] the cells not yet visited.  The returned flag tells whether the
    loop left through [break]. *)
Fixpoint edit_phone_loop (todo : list Phone) (i : nat)
    (old_phone new_phone : string) : M PhoneManager bool :=
  match todo with
  | [] => mret false
  | p :: rest =>
      if (value p =? old_phone)%string
      then (self <- mget ;;
            mput (mkPhoneManager (set_value_at i new_phone (phones self))) ;;;
            mret true)
      else edit_phone_loop rest (S i) old_phone new_phone
  end.

Definition phone_not_found_msg (old_phone : string) : string :=
  "Phone " ++ old_phone ++ " not found".

Definition edit_phone (old_phone new_phone : string) : M PhoneManager unit :=
  mlift (Phone_init new_phone) ;;;
  self <- mget ;;
  broke <- edit_phone_loop (phones self) 0 old_phone new_phone ;;
  if broke then mret tt
  else mraise (ValueError (phone_not_found_msg old_phone)).

Fixpoint find_phone (ps : list Phone) (phone : string) : option Phone :=
  match ps with
  | [] => None
  | p :: rest => if (value p =? phone)%string then Some p else find_phone rest phone
  end.

Definition get_phones_str (self : PhoneManager) : string :=
  match phones self with
  | [] => "No phones"
  | _ :: _ => str_join ", " (map value (phones self))
  end.

(** ** The proleptic Gregorian calendar of [datetime] *)

Definition MINYEAR : Z := 1.
Definition MAXYEAR : Z := 9999.

Definition b2z (b : bool) : Z := if b then 1 else 0.

(** [table[i]] for an index inside the table. *)
Definition zindex (table : list Z) (i : Z) : Z := nth (Z.to_nat i) table 0.

Definition _DAYS_IN_MONTH : list Z :=
  [-1; 31; 28; 31; 30; 31; 30; 31; 31; 30; 31; 30; 31].

(** Built by the running sum [dbm += dim] over [_DAYS_IN_MONTH[1:]]. *)
Definition _DAYS_BEFORE_MONTH : list Z :=
  fst (fold_left (fun acc dim => (fst acc ++ [snd acc], snd acc + dim)%list)
                 (tl _DAYS_IN_MONTH) ([-1], 0)).

Definition _is_leap (year : Z) : bool :=
  (year mod 4 =? 0) && (negb (year mod 100 =? 0) || (year mod 400 =? 0)).

Definition _days_before_year (year : Z) : Z :=
  let y := year - 1 in
  y * 365 + y / 4 - y / 100 + y / 400.

Definition _days_in_month (year month : Z) : Z :=
  if (month =? 2) && _is_leap year then 29 else zindex _DAYS_IN_MONTH month.

Definition _days_before_month (year month : Z) : Z :=
  zindex _DAYS_BEFORE_MONTH month + b2z ((2 <? month) && _is_leap year).

Definition _ymd2ord (year month day : Z) : Z :=
  _days_before_year year + _days_before_month year month + day.

Definition _DI400Y : Z := _days_before_year 401.
Definition _DI100Y : Z := _days_before_year 101.
Definition _DI4Y : Z := _days_before_year 5.

Definition _MAXORDINAL : Z := 3652059.

(** The tail of [_ord2ymd]: month and day from the offset [n] inside the
    year. *)
Definition month_day_of_offset (leapyear : bool) (n : Z) : Z * Z :=
  let month := Z.shiftr (n + 50) 5 in
  let preceding := zindex _DAYS_BEFORE_MONTH month + b2z ((2 <? month) && leapyear) in
  if n <? preceding
  then let month' := month - 1 in
       let preceding' :=
         preceding - (zindex _DAYS_IN_MONTH month' + b2z ((month' =? 2) && leapyear)) in
       (month', n - preceding' + 1)
  else (month, n - preceding + 1).

Definition _ord2ymd (ordinal : Z) : Z * Z * Z :=
  let n := ordinal - 1 in
  let n400 := n / _DI400Y in
  let n := n mod _DI400Y in
  let year := n400 * 400 + 1 in
  let n100 := n / _DI100Y in
  let n := n mod _DI100Y in
  let n4 := n / _DI4Y in
  let n := n mod _DI4Y in
  let n1 := n / 365 in
  let n := n mod 365 in
  let year := year + (n100 * 100 + n4 * 4 + n1) in
  if (n1 =? 4) || (n100 =? 4)
  then (year - 1, 12, 31)
  else
    let leapyear := (n1 =? 3) && (negb (n4 =? 24) || (n100 =? 3)) in
    let md := month_day_of_offset leapyear n in
    (year, fst md, snd md).

(** The checks that every construction of a date runs; messages as the
    interpreter's [datetime] prints them. *)
Definition _check_date_fields (year month day : Z) : result unit :=
  if negb ((MINYEAR <=? year) && (year <=? MAXYEAR))
  then inl (ValueError ("year " ++ int_str year ++ " is out of range"))
  else if negb ((1 <=? month) && (month <=? 12))
  then inl (ValueError "month must be in 1..12")
  else if negb ((1 <=? day) && (day <=? _days_in_month year month))
  then inl (ValueError "day is out of range for month")
  else inr tt.

(** ** datetime *)

Record datetime : Type := mkDatetime {
  year : Z;
  month : Z;
  day : Z;
  hour : Z;
  minute : Z;
  second : Z;
  microsecond : Z
}.

(** [datetime(year, month, day, hour, minute, second, microsecond)] with time
    fields taken from an existing object. *)
Definition datetime_new (y m d hh mm ss us : Z) : result datetime :=
  try! _ <- _check_date_fields y m d ;;
  inr (mkDatetime y m d hh mm ss us).

(** [self.replace(year=y)] *)
Definition replace_year (self : datetime) (y : Z) : result datetime :=
  datetime_new y (month self) (day self)
               (hour self) (minute self) (second self) (microsecond self).

Definition toordinal (self : datetime) : Z :=
  _ymd2ord (year self) (month self) (day self).

Definition weekday (self : datetime) : Z := (toordinal self + 6) mod 7.

(** Lexicographic order of two tuples of integers, as [_cmp] on tuples. *)
Fixpoint tuple_ltb (a b : list Z) : bool :=
  match a, b with
  | x :: a', y :: b' => (x <? y) || ((x =? y) && tuple_ltb a' b')
  | [], _ :: _ => true
  | _, [] => false
  end.

Definition datetime_fields (d : datetime) : list Z :=
  [year d; month d; day d; hour d; minute d; second d; microsecond d].

(** [self < other] *)
Definition datetime_ltb (self other : datetime) : bool :=
  tuple_ltb (datetime_fields self) (datetime_fields other).

(** [(self - other).days]: the difference is the normalised
    [timedelta(days1 - days2, secs1 - secs2, us1 - us2)]. *)
Definition sub_days (self other : datetime) : Z :=
  let days1 := toordinal self in
  let days2 := toordinal other in
  let secs1 := second self + minute self * 60 + hour self * 3600 in
  let secs2 := second other + minute other * 60 + hour other * 3600 in
  let us := microsecond self - microsecond other in
  (days1 - days2) + ((secs1 - secs2) + us / 1000000) / 86400.

(** [self + timedelta(days=n)] *)
Definition add_days (self : datetime) (n : Z) : result datetime :=
  let days := toordinal self + n in
  if (0 <? days) && (days <=? _MAXORDINAL)
  then let '(y, m, d) := _ord2ymd days in
       inr (mkDatetime y m d (hour self) (minute self) (second self) (microsecond self))
  else inl (OverflowError "date value out of range").

(** Decimal digits. *)
Definition digit_char (n : Z) : ascii := ascii_of_N (48 + Z.to_N (n mod 10)).

Fixpoint zero_padded (width : nat) (n : Z) : string :=
  match width with
  | O => ""
  | S w => zero_padded w (n / 10) ++ String (digit_char n) ""
  end.

(** [self.strftime("%d.%m.%Y")]: [%d] and [%m] are padded to two digits;
    [%Y] is the year as the C library prints it, a decimal number without
    padding, so a year below 1000 has fewer than four digits. *)
Definition strftime (self : datetime) : string :=
  zero_padded 2 (day self) ++ "." ++ zero_padded 2 (month self) ++ "."
    ++ int_str (year self).

(** ** strptime with the format ["%d.%m.%Y"]

    [_strptime] turns the format into the regular expression
    [(?P<d>3[0-1]|[1-2]\d|0[1-9]|[1-9]| [1-9])\.(?P<m>1[0-2]|0[1-9]|[1-9])\.(?P<Y>\d\d\d\d)]
    and matches it at the start of the input.  A pattern is modelled by the
    list of ways it can match a prefix, in the order in which the backtracking
    matcher tries them: each way is the matched text and the remaining
    input. *)

Definition rx : Type := string -> list (string * string).

Definition rx_class (p : ascii -> bool) : rx :=
  fun s =>
    match s with
    | EmptyString => []
    | String c r => if p c then [(String c "", r)] else []
    end.

Definition rx_seq (a b : rx) : rx :=
  fun s =>
    flat_map (fun x => map (fun y => (fst x ++ fst y, snd y)) (b (snd x))) (a s).

Definition rx_alt (a b : rx) : rx := fun s => (a s ++ b s)%list.

Definition code (c : ascii) : Z := Z.of_N (N_of_ascii c).

(** [[lo-hi]] *)
Definition in_range (lo hi : ascii) (c : ascii) : bool :=
  (code lo <=? code c) && (code c <=? code hi).

(** A literal character. *)
Definition is_char (x : ascii) (c : ascii) : bool := (code c =? code x).

(** The class [\d] of a [str] pattern: the decimal digits of Unicode
    (category Nd), which up to U+00FF are [0-9]. *)
Definition char_isdecimal (c : ascii) : bool := in_range "0" "9" c.

Definition re_digit : rx := rx_class char_isdecimal.

Definition re_d : rx :=
  rx_alt (rx_seq (rx_class (is_char "3")) (rx_class (in_range "0" "1")))
 (rx_alt (rx_seq (rx_class (in_range "1" "2")) re_digit)
 (rx_alt (rx_seq (rx_class (is_char "0")) (rx_class (in_range "1" "9")))
 (rx_alt (rx_class (in_range "1" "9"))
         (rx_seq (rx_class (is_char " ")) (rx_class (in_range "1" "9")))))).

Definition re_m : rx :=
  rx_alt (rx_seq (rx_class (is_char "1")) (rx_class (in_range "0" "2")))
 (rx_alt (rx_seq (rx_class (is_char "0")) (rx_class (in_range "1" "9")))
         (rx_class (in_range "1" "9"))).

Definition re_Y : rx := rx_seq re_digit (rx_seq re_digit (rx_seq re_digit re_digit)).

Definition re_dot : rx := rx_class (is_char ".").

(** All matches of the whole expression: the three groups and the input left
    after the match. *)
Definition format_regex_matches (s : string) : list (string * string * string * string) :=
  flat_map (fun d =>
  flat_map (fun dot1 =>
  flat_map (fun m =>
  flat_map (fun dot2 =>
  map (fun y => (fst d, fst m, fst y, snd y))
      (re_Y (snd dot2)))
      (re_dot (snd m)))
      (re_m (snd dot1)))
      (re_dot (snd d)))
      (re_d s).

(** [format_regex.match(data_string)]: the first match found. *)
Definition format_regex_match (s : string) : option (string * string * string * string) :=
  hd_error (format_regex_matches s).

(** [int(text)] on the text of a group: decimal digits, after blanks that
    [int] skips. *)
Fixpoint int_digits (acc : Z) (s : string) : Z :=
  match s with
  | EmptyString => acc
  | String c r =>
      if is_char " " c then int_digits acc r
      else int_digits (acc * 10 + (code c - 48)) r
  end.

Definition py_int (s : string) : Z := int_digits 0 s.

(** [repr(s)] for a string without quotes, backslashes or control
    characters. *)
Definition py_repr (s : string) : string := "'" ++ s ++ "'".

Definition strptime (data_string : string) : result datetime :=
  match format_regex_match data_string with
  | None =>
      inl (ValueError ("time data " ++ py_repr data_string
                         ++ " does not match format '%d.%m.%Y'"))
  | Some (d, m, y, rest) =>
      if negb (rest =? "")%string
      then inl (ValueError ("unconverted data remains: " ++ rest))
      else datetime_new (py_int y) (py_int m) (py_int d) 0 0 0 0
  end.

Definition invalid_date_msg : string := "Invalid date format. Use DD.MM.YYYY".

(** [Birthday.__init__]: any [ValueError] of [strptime] is replaced. *)
Definition Birthday_init (v : string) : result Birthday :=
  match strptime v with
  | inr _ => inr (mkField v)
  | inl (ValueError _) => inl (ValueError invalid_date_msg)
  | inl e => inl e
  end.

(** ** BirthdayManager and Record *)

Record BirthdayManager : Type := mkBirthdayManager { birthday : option Birthday }.

Definition BirthdayManager_init : BirthdayManager := mkBirthdayManager None.

Definition add_birthday (b : string) : M BirthdayManager unit :=
  new_birthday <- mlift (Birthday_init b) ;;
  mput (mkBirthdayManager (Some new_birthday)).

Definition get_birthday_str (self : BirthdayManager) : string :=
  match birthday self with
  | Some b => ", birthday: " ++ Field_str b
  | None => ""
  end.

(** The class [Record] of the source. *)
Record ContactRecord : Type := mkRecord {
  name : Name;
  phone_manager : PhoneManager;
  birthday_manager : BirthdayManager
}.

Definition Record_init (n : string) : ContactRecord :=
  mkRecord (mkField n) PhoneManager_init BirthdayManager_init.

Definition Record_str (self : ContactRecord) : string :=
  "Contact name: " ++ Field_str (name self) ++ ", phones: "
    ++ get_phones_str (phone_manager self)
    ++ get_birthday_str (birthday_manager self).

(** ** BirthdayCalculator *)

(** The dictionary [{"name": ..., "congratulation_date": ...}]. *)
Record Entry : Type := mkEntry {
  entry_name : string;
  entry_congratulation_date : string
}.

(** The body of the loop over [records]: [upcoming] is the list built so
    far. *)
Definition upcoming_body (today : datetime) (upcoming : list Entry)
    (record : ContactRecord) : result (list Entry) :=
  match birthday (birthday_manager record) with
  | None => inr upcoming
  | Some b =>
      try! bday <- strptime (value b) ;;
      try! bday_this_year <- replace_year bday (year today) ;;
      try! bday_this_year <-
        (if datetime_ltb bday_this_year today
         then replace_year bday_this_year (year today + 1)
         else inr bday_this_year) ;;
      let delta := sub_days bday_this_year today in
      if (0 <=? delta) && (delta <=? 7)
      then
        let congratulation_date := bday_this_year in
        let wd := weekday congratulation_date in
        try! congratulation_date <-
          (if wd =? 5 then add_days congratulation_date 2
           else if wd =? 6 then add_days congratulation_date 1
           else inr congratulation_date) ;;
        inr (upcoming ++ [mkEntry (value (name record))
                                  (strftime congratulation_date)])%list
      else inr upcoming
  end.

Fixpoint upcoming_loop (today : datetime) (upcoming : list Entry)
    (records : list ContactRecord) : result (list Entry) :=
  match records with
  | [] => inr upcoming
  | record :: rest =>
      try! upcoming' <- upcoming_body today upcoming record ;;
      upcoming_loop today upcoming' rest
  end.

(** [BirthdayCalculator.get_upcoming_birthdays(records, today)] with [today]
    given. *)
Definition get_upcoming_birthdays (records : list ContactRecord)
    (today : datetime) : result (list Entry) :=
  upcoming_loop today [] records.

(** ** AddressBook

    [self.data] is a dictionary: keys are unique and iteration follows the
    order of first insertion. *)

Definition dict : Type := list (string * ContactRecord).

Fixpoint dict_get (k : string) (d : dict) : option ContactRecord :=
  match d with
  | [] => None
  | (k', v) :: rest => if (k' =? k)%string then Some v else dict_get k rest
  end.

(** [d[k] = v]: an existing key keeps its place. *)
Fixpoint dict_set (k : string) (v : ContactRecord) (d : dict) : dict :=
  match d with
  | [] => [(k, v)]
  | (k', v') :: rest =>
      if (k' =? k)%string then (k, v) :: rest else (k', v') :: dict_set k v rest
  end.

(** The dictionary after an object it may hold under the key [k] has been
    mutated into [v]: the value under [k] is the object as it now is; a
    dictionary without the key holds no reference to the object and is as
    it was. *)
Fixpoint dict_replace (k : string) (v : ContactRecord) (d : dict) : dict :=
  match d with
  | [] => []
  | (k', v') :: rest =>
      if (k' =? k)%string then (k', v) :: rest else (k', v') :: dict_replace k v rest
  end.

Fixpoint dict_del (k : string) (d : dict) : dict :=
  match d with
  | [] => []
  | (k', v') :: rest =>
      if (k' =? k)%string then rest else (k', v') :: dict_del k rest
  end.

Record AddressBook : Type := mkAddressBook { data : dict }.

Definition add_record (record : ContactRecord) : M AddressBook unit :=
  self <- mget ;;
  mput (mkAddressBook (dict_set (value (name record)) record (data self))).

Definition delete (n : string) : M AddressBook unit :=
  self <- mget ;;
  match dict_get n (data self) with
  | Some _ => mput (mkAddressBook (dict_del n (data self)))
  | None => mret tt
  end.

Definition find (n : string) : M AddressBook (option ContactRecord) :=
  self <- mget ;;
  mret (dict_get n (data self)).

Definition get_all_records (self : AddressBook) : list ContactRecord :=
  map snd (data self).

(** A method call on a manager owned by a record. *)
Definition in_phone_manager {A : Type} (m : M PhoneManager A) : M ContactRecord A :=
  fun record =>
    let '(r, pm) := m (phone_manager record) in
    (r, mkRecord (name record) pm (birthday_manager record)).

Definition in_birthday_manager {A : Type} (m : M BirthdayManager A) : M ContactRecord A :=
  fun record =>
    let '(r, bm) := m (birthday_manager record) in
    (r, mkRecord (name record) (phone_manager record) bm).

(** A method call on [record], the object that [find] returned for the key
    [n] or that [add_record] has just stored under it.  The record is one
    shared object: a book that holds it under [n] sees it as the call leaves
    it, also when the call raises.  The call itself stores nothing: a record
    that was never put into the book is not in it afterwards. *)
Definition in_record {A : Type} (n : string) (record : ContactRecord)
    (m : M ContactRecord A) : M AddressBook A :=
  fun book =>
    let '(r, record') := m record in
    (r, mkAddressBook (dict_replace n record' (data book))).

(** ** Commands *)

Inductive Command : Type :=
| AddContactCommand
| ChangeContactCommand
| ShowPhoneCommand
| ShowAllCommand
| AddBirthdayCommand
| ShowBirthdayCommand
| BirthdaysCommand.

Definition len (args : list string) : Z := Z.of_nat (List.length args).

(** [name, phone = args] and the like follow a test of [len(args)], so the
    unpacking never meets a list of another length; for such a list Python
    would raise this [ValueError]. *)
Definition unpack_error : exn := ValueError "wrong number of values to unpack".

Definition add_arity_msg : string :=
  "Command 'add' requires 2 arguments: name and phone".
Definition change_arity_msg : string :=
  "Command 'change' requires 3 arguments: name, old_phone, new_phone".
Definition phone_arity_msg : string :=
  "Command 'phone' requires 1 argument: name".
Definition add_birthday_arity_msg : string :=
  "Command 'add-birthday' requires 2 arguments: name and birthday".
Definition show_birthday_arity_msg : string :=
  "Command 'show-birthday' requires 1 argument: name".

Definition AddContactCommand_execute (args : list string) : M AddressBook string :=
  if negb (len args =? 2) then mraise (ValueError add_arity_msg)
  else match args with
  | [n; phone] =>
      found <- find n ;;
      let message := "Contact added." in
      record <- match found with
                | None => let record := Record_init n in
                          add_record record ;;; mret record
                | Some record => mret record
                end ;;
      in_record n record (in_phone_manager (add_phone phone)) ;;;
      mret message
  | _ => mraise unpack_error
  end.

Definition ChangeContactCommand_execute (args : list string) : M AddressBook string :=
  if negb (len args =? 3) then mraise (ValueError change_arity_msg)
  else match args with
  | [n; old_phone; new_phone] =>
      found <- find n ;;
      match found with
      | None => mret "Contact not found."
      | Some record =>
          in_record n record (in_phone_manager (edit_phone old_phone new_phone)) ;;;
          mret "Phone number updated."
      end
  | _ => mraise unpack_error
  end.

Definition ShowPhoneCommand_execute (args : list string) : M AddressBook string :=
  if negb (len args =? 1) then mraise (ValueError phone_arity_msg)
  else match args with
  | [n] =>
      found <- find n ;;
      match found with
      | None => mret "Contact not found."
      | Some record => mret (Record_str record)
      end
  | _ => mraise unpack_error
  end.

Definition ShowAllCommand_execute (args : list string) : M AddressBook string :=
  book <- mget ;;
  match data book with
  | [] => mret "No contacts found."
  | _ :: _ => mret (str_join newline (map (fun kv => Record_str (snd kv)) (data book)))
  end.

Definition AddBirthdayCommand_execute (args : list string) : M AddressBook string :=
  if negb (len args =? 2) then mraise (ValueError add_birthday_arity_msg)
  else match args with
  | [n; b] =>
      found <- find n ;;
      match found with
      | None => mret "Contact not found."
      | Some record =>
          in_record n record (in_birthday_manager (add_birthday b)) ;;;
          mret "Birthday added."
      end
  | _ => mraise unpack_error
  end.

Definition ShowBirthdayCommand_execute (args : list string) : M AddressBook string :=
  if negb (len args =? 1) then mraise (ValueError show_birthday_arity_msg)
  else match args with
  | [n] =>
      found <- find n ;;
      match found with
      | None => mret "Contact not found."
      | Some record =>
          match birthday (birthday_manager record) with
          | None => mret "Birthday not set."
          | Some b => mret (Field_str (name record) ++ "'s birthday: " ++ Field_str b)
          end
      end
  | _ => mraise unpack_error
  end.

(** [now] is the value that [datetime.today()] returns during the call. *)
Definition BirthdaysCommand_execute (now : datetime) (args : list string)
    : M AddressBook string :=
  book <- mget ;;
  upcoming <- mlift (get_upcoming_birthdays (get_all_records book) now) ;;
  match upcoming with
  | [] => mret "No upcoming birthdays in the next 7 days."
  | _ :: _ =>
      mret (str_join newline
              (map (fun entry => entry_name entry ++ ": "
                                   ++ entry_congratulation_date entry) upcoming))
  end.

Definition execute (now : datetime) (cmd : Command) (args : list string)
    : M AddressBook string :=
  match cmd with
  | AddContactCommand => AddContactCommand_execute args
  | ChangeContactCommand => ChangeContactCommand_execute args
  | ShowPhoneCommand => ShowPhoneCommand_execute args
  | ShowAllCommand => ShowAllCommand_execute args
  | AddBirthdayCommand => AddBirthdayCommand_execute args
  | ShowBirthdayCommand => ShowBirthdayCommand_execute args
  | BirthdaysCommand => BirthdaysCommand_execute now args
  end.

(** ** Decorators and the dispatch table *)

(** [input_error]: of the exceptions the commands raise, [ValueError] is the
    one the decorator catches. *)
Definition input_error {S : Type} (func : M S string) : M S string :=
  fun s =>
    match func s with
    | (inl (ValueError msg), s') => (inr ("Error: " ++ msg), s')
    | other => other
    end.

(** The pickled file: the book last saved, if any. *)
Definition Storage : Type := option AddressBook.

(** [save_on_change(storage)]: after the call returns, the book is saved. *)
Definition save_on_change (func : M AddressBook string)
    : M (AddressBook * Storage) string :=
  fun st =>
    match func (fst st) with
    | (inr r, book') => (inr r, (book', Some book'))
    | (inl e, book') => (inl e, (book', snd st))
    end.

Definition command_map (command : string) : option Command :=
  if (command =? "add")%string then Some AddContactCommand
  else if (command =? "change")%string then Some ChangeContactCommand
  else if (command =? "phone")%string then Some ShowPhoneCommand
  else if (command =? "all")%string then Some ShowAllCommand
  else if (command =? "add-birthday")%string then Some AddBirthdayCommand
  else if (command =? "show-birthday")%string then Some ShowBirthdayCommand
  else if (command =? "birthdays")%string then Some BirthdaysCommand
  else None.

(** [decorated_cmd(args, book)] in [main]. *)
Definition decorated_cmd (now : datetime) (cmd : Command) (args : list string)
    : M (AddressBook * Storage) string :=
  save_on_change (input_error (execute now cmd args)).

(** One turn of the loop of [main] after [parse_input]: the text printed
    and whether the loop goes on. *)
Definition main_turn (now : datetime) (command : string) (args : list string)
    : M (AddressBook * Storage) (string * bool) :=
  if (command =? "close")%string || (command =? "exit")%string
  then (st <- mget ;;
        mput (fst st, Some (fst st)) ;;;
        mret ("Good bye!", false))
  else if (command =? "")%string then mret ("Please enter a command.", true)
  else if (command =? "hello")%string then mret ("How can I help you?", true)
  else match command_map command with
       | Some cmd =>
           printed <- decorated_cmd now cmd args ;;
           mret (printed, true)
       | None => mret ("Invalid command.", true)
       end.

(** ** The specification's vocabulary

    The error kinds of the specification are [ValueError]s told apart by
    their message. *)

Definition InvalidPhone : exn := ValueError invalid_phone_msg.
Definition InvalidDate : exn := ValueError invalid_date_msg.
Definition PhoneNotFound (old_phone : string) : exn :=
  ValueError (phone_not_found_msg old_phone).

(** The arity of each command in the specification's list of variants. *)
Definition required_arity (cmd : Command) : Z :=
  match cmd with
  | AddContactCommand => 2
  | ChangeContactCommand => 3
  | ShowPhoneCommand => 1
  | ShowAllCommand => 0
  | AddBirthdayCommand => 2
  | ShowBirthdayCommand => 1
  | BirthdaysCommand => 0
  end.

(** The commands whose [execute] starts with a test of [len(args)], and the
    message each raises. *)
Definition checks_arity (cmd : Command) : bool :=
  match cmd with
  | ShowAllCommand | BirthdaysCommand => false
  | _ => true
  end.

Definition arity_msg (cmd : Command) : string :=
  match cmd with
  | AddContactCommand => add_arity_msg
  | ChangeContactCommand => change_arity_msg
  | ShowPhoneCommand => phone_arity_msg
  | AddBirthdayCommand => add_birthday_arity_msg
  | ShowBirthdayCommand => show_birthday_arity_msg
  | ShowAllCommand | BirthdaysCommand => ""
  end.

Definition WrongArity (cmd : Command) : exn := ValueError (arity_msg cmd).

(** The four error kinds of the specification. *)
Definition core_error (e : exn) : Prop :=
  e = InvalidPhone \/ e = InvalidDate
  \/ (exists old_phone, e = PhoneNotFound old_phone)
  \/ (exists cmd, checks_arity cmd = true /\ e = WrongArity cmd).

(** The specification's phone rule: exactly ten characters, each one of
    [0-9]. *)
Definition ten_decimal_digits (raw : string) : bool :=
  (String.length raw =? 10)%nat && str_all (in_range "0" "9") raw.

(** Ten times the superscript two, U+00B2. *)
Definition superscript_twos : string :=
  string_of_list_ascii (repeat (ascii_of_N 178) 10).

(** A date that [_check_date_fields] accepts. *)
Definition valid_date (y m d : Z) : Prop :=
  MINYEAR <= y <= MAXYEAR /\ 1 <= m <= 12 /\ 1 <= d <= _days_in_month y m.

Definition valid_datetime (t : datetime) : Prop :=
  valid_date (year t) (month t) (day t).

(** [today] has no time of day. *)
Definition date_only (t : datetime) : Prop :=
  hour t = 0 /\ minute t = 0 /\ second t = 0 /\ microsecond t = 0.

(** ** The calculator without its error paths

    What each step of [get_upcoming_birthdays] yields when no date
    construction fails. *)

Definition with_year (self : datetime) (y : Z) : datetime :=
  mkDatetime y (month self) (day self)
             (hour self) (minute self) (second self) (microsecond self).

(** The birthday has passed: its date in the year of [today] is before
    [today]. *)
Definition passed (today bday : datetime) : bool :=
  datetime_ltb (with_year bday (year today)) today.

Definition this_year (today bday : datetime) : datetime :=
  if passed today bday then with_year bday (year today + 1)
  else with_year bday (year today).

Definition in_window (today bday : datetime) : bool :=
  let delta := sub_days (this_year today bday) today in
  (0 <=? delta) && (delta <=? 7).

Definition plus_days (self : datetime) (n : Z) : datetime :=
  let ymd := _ord2ymd (toordinal self + n) in
  mkDatetime (fst (fst ymd)) (snd (fst ymd)) (snd ymd)
             (hour self) (minute self) (second self) (microsecond self).

(** Saturday moves two days on, Sunday one day. *)
Definition move_off_weekend (d : datetime) : datetime :=
  if weekday d =? 5 then plus_days d 2
  else if weekday d =? 6 then plus_days d 1
  else d.

(** The date a record's birthday string stands for. *)
Definition bday_of (record : ContactRecord) : option datetime :=
  match birthday (birthday_manager record) with
  | None => None
  | Some b => match strptime (value b) with
              | inr bday => Some bday
              | inl _ => None
              end
  end.

Definition included (today : datetime) (record : ContactRecord) : bool :=
  match bday_of record with
  | Some bday => in_window today bday
  | None => false
  end.

Definition entry_for (today : datetime) (record : ContactRecord) : Entry :=
  mkEntry (value (name record))
          (match bday_of record with
           | Some bday => strftime (move_off_weekend (this_year today bday))
           | None => ""
           end).

(** The records for which both replacements of the year are defined: the
    birthday string is a validated one, its day exists in that month of the
    year of [today], and, when the birthday has passed, the next year is not
    after [MAXYEAR] and has that day too. *)
Definition year_replaceable (today : datetime) (record : ContactRecord) : Prop :=
  match birthday (birthday_manager record) with
  | None => True
  | Some b =>
      exists bday,
        strptime (value b) = inr bday
        /\ day bday <= _days_in_month (year today) (month bday)
        /\ (passed today bday = true ->
            year today + 1 <= MAXYEAR
            /\ day bday <= _days_in_month (year today + 1) (month bday))
  end.

(** ** The calculator in the words of the specification, for a date-only
    [today] *)

Definition date_ltb (a b : Z * Z * Z) : bool :=
  let '(y, m, d) := a in
  let '(y', m', d') := b in
  (y <? y') || ((y =? y') && ((m <? m') || ((m =? m') && (d <? d')))).

Definition days_between (a b : Z * Z * Z) : Z :=
  let '(y, m, d) := a in
  let '(y', m', d') := b in
  _ymd2ord y m d - _ymd2ord y' m' d'.

Definition date_of (t : datetime) : Z * Z * Z := (year t, month t, day t).

(** The birthday with the year of [today], or with the next year when that
    date is strictly before [today]. *)
Definition spec_bday_this_year (today bday : datetime) : Z * Z * Z :=
  let this := (year today, month bday, day bday) in
  if date_ltb this (date_of today) then (year today + 1, month bday, day bday)
  else this.

Definition spec_delta (today bday : datetime) : Z :=
  days_between (spec_bday_this_year today bday) (date_of today).

(** The record has a set birthday and [0 <= delta <= 7]. *)
Definition spec_included (today : datetime) (record : ContactRecord) : bool :=
  match bday_of record with
  | Some bday => (0 <=? spec_delta today bday) && (spec_delta today bday <=? 7)
  | None => false
  end.

(** A record with the given name and birthday string and no phone. *)
Definition record_with_birthday (n b : string) : ContactRecord :=
  mkRecord (mkField n) PhoneManager_init (mkBirthdayManager (Some (mkField b))).

(** ** Birthday strings

    The value of a decimal digit, and of two of them. *)

Definition digit_value (c : ascii) : Z := code c - 48.

Definition two_digits (a b : ascii) : Z := 10 * digit_value a + digit_value b.

(** One of the ten digits [0-9]. *)
Definition is_dec (c : ascii) : bool := in_range "0" "9" c.

(** The day group read as a number, for strings of the code points up to
    U+00FF: two digits from 01 to 31, or one digit from 1 to 9, alone or
    after a blank. *)
Definition day_token (t : string) : bool :=
  match t with
  | String a EmptyString => in_range "1" "9" a
  | String a (String b EmptyString) =>
      (is_dec a && is_dec b && (1 <=? two_digits a b) && (two_digits a b <=? 31))
      || (is_char " " a && in_range "1" "9" b)
  | _ => false
  end.

(** The month group read as a number: two digits from 01 to 12, or one
    digit from 1 to 9. *)
Definition month_token (t : string) : bool :=
  match t with
  | String a EmptyString => in_range "1" "9" a
  | String a (String b EmptyString) =>
      is_dec a && is_dec b && (1 <=? two_digits a b) && (two_digits a b <=? 12)
  | _ => false
  end.

(** The year: exactly four digits. *)
Definition year_token (t : string) : bool :=
  match t with
  | String a (String b (String c (String d EmptyString))) =>
      is_dec a && is_dec b && is_dec c && is_dec d
  | _ => false
  end.

(** The three groups as the format's expression spells them, alternative by
    alternative.  The day: [3[0-1]], [[1-2]\d], [0[1-9]], [[1-9]] or a blank
    and [[1-9]]. *)
Definition day_group (t : string) : bool :=
  match t with
  | String a EmptyString => in_range "1" "9" a
  | String a (String b EmptyString) =>
      (is_char "3" a && in_range "0" "1" b)
      || (in_range "1" "2" a && char_isdecimal b)
      || (is_char "0" a && in_range "1" "9" b)
      || (is_char " " a && in_range "1" "9" b)
  | _ => false
  end.

(** The month: [1[0-2]], [0[1-9]] or [[1-9]]. *)
Definition month_group (t : string) : bool :=
  match t with
  | String a EmptyString => in_range "1" "9" a
  | String a (String b EmptyString) =>
      (is_char "1" a && in_range "0" "2" b)
      || (is_char "0" a && in_range "1" "9" b)
  | _ => false
  end.

(** The year: [\d\d\d\d]. *)
Definition year_group (t : string) : bool :=
  match t with
  | String a (String b (String c (String d EmptyString))) =>
      char_isdecimal a && char_isdecimal b && char_isdecimal c && char_isdecimal d
  | _ => false
  end.

Definition valid_dateb (y m d : Z) : bool :=
  (MINYEAR <=? y) && (y <=? MAXYEAR) && (1 <=? m) && (m <=? 12)
  && (1 <=? d) && (d <=? _days_in_month y m).

(** The specification's birthday rule: a two-digit day, a dot, a two-digit
    month, a dot and a four-digit year, written with the digits [0-9], that
    name a real calendar date. *)
Definition strict_DDMMYYYY (raw : string) : bool :=
  match list_ascii_of_string raw with
  | [d1; d2; p1; m1; m2; p2; y1; y2; y3; y4] =>
      is_dec d1 && is_dec d2 && is_char "." p1
      && is_dec m1 && is_dec m2 && is_char "." p2
      && is_dec y1 && is_dec y2 && is_dec y3 && is_dec y4
      && valid_dateb (two_digits y1 y2 * 100 + two_digits y3 y4)
                     (two_digits m1 m2) (two_digits d1 d2)
  | _ => false
  end.

(** A token of one character, or of two characters the second of which is a
    digit. *)
Definition short_token (t : string) : Prop :=
  (exists a, t = String a "")
  \/ (exists a b, t = String a (String b "") /\ is_dec b = true).

(** ** Checks run by computation in the proofs *)

Definition month_day_ok (leapyear : bool) (n : Z) : bool :=
  let md := month_day_of_offset leapyear n in
  (1 <=? fst md) && (fst md <=? 12)
  && (zindex _DAYS_BEFORE_MONTH (fst md) + b2z ((2 <? fst md) && leapyear) + snd md
      =? n + 1)
  && (1 <=? snd md)
  && (snd md <=? (if (fst md =? 2) && leapyear then 29
                  else zindex _DAYS_IN_MONTH (fst md))).

Definition month_tables_ok (leapyear : bool) (m : Z) : bool :=
  (m =? 0)
  || ((0 <=? zindex _DAYS_BEFORE_MONTH m + b2z ((2 <? m) && leapyear))
      && (zindex _DAYS_BEFORE_MONTH m + b2z ((2 <? m) && leapyear)
          + (if (m =? 2) && leapyear then 29 else zindex _DAYS_IN_MONTH m)
          <=? 365 + b2z leapyear)).


(** From 1000 on the year printed without padding has four digits. *)
Definition year_digits_ok (y : Z) : bool :=
  (y <? 1000) || (int_str y =? zero_padded 4 y)%string.

(** ** PickleStorage

    The pickled bytes are not modelled: the file holds the book last saved.
    [load] answers a missing file with an empty book. *)

Definition PickleStorage_save (book : AddressBook) : Storage := Some book.

Definition PickleStorage_load (disk : Storage) : AddressBook :=
  match disk with
  | Some book => book
  | None => mkAddressBook []
  end.

(** ** parse_input *)

(** [str.isspace] character by character: up to U+00FF the white space is
    U+0009..U+000D, U+001C..U+0020, U+0085 and U+00A0. *)
Definition char_isspace (c : ascii) : bool :=
  let n := code c in
  ((9 <=? n) && (n <=? 13)) || ((28 <=? n) && (n <=? 32)) || (n =? 133) || (n =? 160).

(** [str.lower] character by character: up to U+00FF the letters with a lower
    case are A..Z and U+00C0..U+00DE without U+00D7; the lower case is 32
    code points on. *)
Definition char_lower (c : ascii) : ascii :=
  let n := code c in
  if ((65 <=? n) && (n <=? 90)) || ((192 <=? n) && (n <=? 222) && negb (n =? 215))
  then ascii_of_N (Z.to_N (n + 32))
  else c.

Fixpoint str_lower (s : string) : string :=
  match s with
  | EmptyString => EmptyString
  | String c r => String (char_lower c) (str_lower r)
  end.

Fixpoint str_lstrip (s : string) : string :=
  match s with
  | EmptyString => EmptyString
  | String c r => if char_isspace c then str_lstrip r else s
  end.

Fixpoint str_rstrip (s : string) : string :=
  match s with
  | EmptyString => EmptyString
  | String c r =>
      match str_rstrip r with
      | EmptyString => if char_isspace c then EmptyString else String c EmptyString
      | r' => String c r'
      end
  end.

(** [s.strip()] *)
Definition str_strip (s : string) : string := str_rstrip (str_lstrip s).

(** [s.split()]: [word] is the word being read, empty between words. *)
Fixpoint split_from (word : string) (s : string) : list string :=
  match s with
  | EmptyString =>
      match word with
      | EmptyString => []
      | _ => [word]
      end
  | String c r =>
      if char_isspace c
      then match word with
           | EmptyString => split_from EmptyString r
           | _ => word :: split_from EmptyString r
           end
      else split_from (word ++ String c EmptyString) r
  end.

Definition str_split (s : string) : list string := split_from EmptyString s.

(** [parse_input(user_input)]; the starred unpacking needs at least one
    word. *)
Definition parse_input (user_input : string) : result (string * list string) :=
  match str_strip user_input with
  | EmptyString => inr (EmptyString, [])
  | _ =>
      match str_split (str_lower (str_strip user_input)) with
      | cmd :: args => inr (cmd, args)
      | [] => inl unpack_error
      end
  end.

(** The text made of gaps and words in turn: [gap1 word1 gap2 word2 ...]. *)
Fixpoint spaced (pieces : list (string * string)) : string :=
  match pieces with
  | [] => EmptyString
  | (gap, word) :: rest => gap ++ word ++ spaced rest
  end.

(** ** main

    The loop of [main] over the lines that [input] returns, each with the
    clock reading of its turn.  The outcome is the list of texts printed, the
    book and the file, and the way the loop ended. *)

Inductive ending : Type :=
| Closed                  (* [close] or [exit] *)
| EndOfInput              (* [input] has no more lines *)
| Uncaught (e : exn).     (* an exception left the loop *)

Fixpoint main_loop (inputs : list (datetime * string)) (st : AddressBook * Storage)
    (printed : list string) : list string * (AddressBook * Storage) * ending :=
  match inputs with
  | [] => (printed, st, EndOfInput)
  | (now, user_input) :: rest =>
      match parse_input user_input with
      | inl e => (printed, st, Uncaught e)
      | inr (command, args) =>
          match main_turn now command args st with
          | (inl e, st') => (printed, st', Uncaught e)
          | (inr (text, true), st') => main_loop rest st' (printed ++ [text])%list
          | (inr (text, false), st') => ((printed ++ [text])%list, st', Closed)
          end
      end
  end.

Definition main (inputs : list (datetime * string)) (disk : Storage)
    : list string * (AddressBook * Storage) * ending :=
  main_loop inputs (PickleStorage_load disk, disk) ["Welcome to the assistant bot!"].

(** ** Well-formed books

    A phone or a birthday is well formed when its constructor accepts its
    value; a book is well formed when its keys are distinct, each key is the
    name of its record, and the fields of every record are well formed. *)

Definition phone_ok (p : Phone) : Prop := Phone_init (value p) = inr p.

Definition birthday_ok (b : Birthday) : Prop := Birthday_init (value b) = inr b.

Definition record_ok (r : ContactRecord) : Prop :=
  Forall phone_ok (phones (phone_manager r))
  /\ match birthday (birthday_manager r) with
     | Some b => birthday_ok b
     | None => True
     end.

Definition book_ok (book : AddressBook) : Prop :=
  NoDup (map fst (data book))
  /\ Forall (fun kv => value (name (snd kv)) = fst kv /\ record_ok (snd kv)) (data book).

(** The time of day of a [datetime] is in range. *)
Definition valid_time (t : datetime) : Prop :=
  0 <= hour t < 24 /\ 0 <= minute t < 60 /\ 0 <= second t < 60
  /\ 0 <= microsecond t < 1000000.

(** No character of the string is white space. *)
Definition no_space (s : string) : bool := str_all (fun c => negb (char_isspace c)) s.

(** [str.lower] leaves the string as it is. *)
Definition is_lower (s : string) : Prop := str_lower s = s.

(** A month ends before a later month starts: a check run by computation. *)
Definition months_ordered (leapyear : bool) (m : Z) : bool :=
  forallb (fun m' =>
             (m =? 0) || (m' <=? m)
             || (zindex _DAYS_BEFORE_MONTH m + b2z ((2 <? m) && leapyear)
                 + (if (m =? 2) && leapyear then 29 else zindex _DAYS_IN_MONTH m)
                 <=? zindex _DAYS_BEFORE_MONTH m' + b2z ((2 <? m') && leapyear)))
          (map Z.of_nat (seq 0 13)).

(** The time of day is midnight. *)
Definition midnight (t : datetime) : bool :=
  (hour t =? 0) && (minute t =? 0) && (second t =? 0) && (microsecond t =? 0).

(** A gap and the word after it, as [split] sees them: the gap is white
    space, the word is not empty and holds no white space. *)
Definition piece_ok (p : string * string) : Prop :=
  str_all char_isspace (fst p) = true /\ snd p <> EmptyString /\ no_space (snd p) = true.

(** A word as [parse_input] produces them: not empty, without white space,
    in lower case. *)
Definition lower_word (w : string) : Prop :=
  w <> EmptyString /\ no_space w = true /\ is_lower w.

(** * Properties *)

(** ** Phone *)

Lemma Phone_init_inr (raw : string) (p : Phone) :
  Phone_init raw = inr p ->
  p = mkField raw /\ String.length raw = 10%nat /\ str_all char_isdigit raw = true.
Proof.
  unfold Phone_init.
  destruct (str_isdigit raw) eqn:Hd; simpl; [|discriminate].
  destruct (Nat.eqb_spec (String.length raw) 10) as [Hl|Hl]; simpl; [|discriminate].
  intros H; inversion H; subst; repeat split; auto.
  destruct raw; [discriminate Hl | exact Hd].
Qed.

Lemma Phone_init_valid (raw : string) :
  String.length raw = 10%nat -> str_all char_isdigit raw = true ->
  Phone_init raw = inr (mkField raw).
Proof.
  intros Hl Hd. unfold Phone_init.
  assert (str_isdigit raw = true) as -> by (destruct raw; [discriminate Hl | exact Hd]).
  rewrite Hl. reflexivity.
Qed.

Lemma Phone_init_inl (raw : string) (e : exn) :
  Phone_init raw = inl e -> e = InvalidPhone.
Proof.
  unfold Phone_init.
  destruct (negb _); intros H; inversion H; reflexivity.
Qed.

Lemma str_all_impl (p q : ascii -> bool) (s : string) :
  (forall c, p c = true -> q c = true) -> str_all p s = true -> str_all q s = true.
Proof.
  intros Hpq. induction s as [|c s IH]; simpl; auto.
  intros H. apply andb_true_iff in H as [Hc Hs].
  rewrite (Hpq _ Hc), (IH Hs). reflexivity.
Qed.

Lemma decimal_digit_isdigit (c : ascii) :
  in_range "0" "9" c = true -> char_isdigit c = true.
Proof.
  unfold in_range, char_isdigit, code. simpl.
  intros H. apply andb_true_iff in H as [H1 H2].
  apply Z.leb_le in H1, H2.
  assert ((48 <=? N_of_ascii c)%N = true) as -> by (apply N.leb_le; lia).
  assert ((N_of_ascii c <=? 57)%N = true) as -> by (apply N.leb_le; lia).
  reflexivity.
Qed.

(** C5, as the code has it.  [Phone.__init__] accepts exactly the strings of
    ten characters that [str.isdigit] takes for digits: the decimal digits
    [0-9] and also the superscript digits; every other string fails with
    [InvalidPhone].  Ten decimal digits are always accepted. *)
Theorem Phone_init_accepts_iff (raw : string) :
  ((exists p, Phone_init raw = inr p) <->
     String.length raw = 10%nat /\ str_all char_isdigit raw = true)
  /\ (Phone_init raw = inr (mkField raw) \/ Phone_init raw = inl InvalidPhone)
  /\ (ten_decimal_digits raw = true -> Phone_init raw = inr (mkField raw)).
Proof.
  split; [split | split].
  - intros [p Hp]. apply Phone_init_inr in Hp. tauto.
  - intros [Hl Hd]. eexists. apply Phone_init_valid; assumption.
  - destruct (Phone_init raw) as [e|p] eqn:H.
    + right. apply Phone_init_inl in H. congruence.
    + left. apply Phone_init_inr in H. destruct H as [-> _]. reflexivity.
  - unfold ten_decimal_digits. intros H.
    apply andb_true_iff in H as [Hl Hd]. apply Nat.eqb_eq in Hl.
    apply Phone_init_valid; [exact Hl|].
    eapply str_all_impl; [apply decimal_digit_isdigit | exact Hd].
Qed.

Lemma Phone_init_accepts_iff_witness :
  ten_decimal_digits "1234567890" = true
  /\ Phone_init "1234567890" = inr (mkField "1234567890").
Proof.
  split; [reflexivity|].
  apply (Phone_init_accepts_iff "1234567890"). reflexivity.
Defined.

(** C5, as stated, fails: ten superscript twos are not decimal digits, and
    [Phone.__init__] accepts them. *)
Lemma Phone_init_superscript_counterexample :
  ten_decimal_digits superscript_twos = false
  /\ Phone_init superscript_twos = inr (mkField superscript_twos).
Proof. split; reflexivity. Qed.

(** ** PhoneManager.edit_phone *)

Lemma set_value_at_app (pre : list Phone) (p : Phone) (rest : list Phone) (v : string) :
  set_value_at (List.length pre) v (pre ++ p :: rest) = (pre ++ mkField v :: rest)%list.
Proof.
  induction pre as [|x pre IH]; simpl; [reflexivity|].
  rewrite IH. reflexivity.
Qed.

Lemma edit_phone_loop_miss (todo : list Phone) (i : nat) (old_phone new_phone : string)
    (self : PhoneManager) :
  (forall q, In q todo -> value q <> old_phone) ->
  edit_phone_loop todo i old_phone new_phone self = (inr false, self).
Proof.
  revert i. induction todo as [|p todo IH]; intros i Hno; simpl; [reflexivity|].
  destruct (String.eqb_spec (value p) old_phone) as [E|E].
  - exfalso. apply (Hno p); [left; reflexivity | exact E].
  - apply IH. intros q Hq. apply Hno. right. exact Hq.
Qed.

Lemma edit_phone_loop_hit (pre before : list Phone) (q : Phone) (after : list Phone)
    (old_phone new_phone : string) :
  value q = old_phone ->
  (forall x, In x before -> value x <> old_phone) ->
  edit_phone_loop (before ++ q :: after) (List.length pre) old_phone new_phone
                  (mkPhoneManager (pre ++ before ++ q :: after))
  = (inr true, mkPhoneManager (pre ++ before ++ mkField new_phone :: after)).
Proof.
  intros Hq. revert pre. induction before as [|x before IH]; intros pre Hno; simpl.
  - rewrite Hq, String.eqb_refl. unfold mbind, mget, mput, mret. simpl.
    rewrite set_value_at_app. reflexivity.
  - destruct (String.eqb_spec (value x) old_phone) as [E|E].
    + exfalso. apply (Hno x); [left; reflexivity | exact E].
    + specialize (IH (pre ++ [x])%list).
      rewrite length_app in IH. simpl in IH. rewrite Nat.add_1_r in IH.
      rewrite <- !app_assoc in IH. simpl in IH.
      apply IH. intros y Hy. apply Hno. right. exact Hy.
Qed.

(** C3.  [edit_phone] validates the new phone first and fails with
    [InvalidPhone] leaving the phones as they were; with a valid new phone and
    no entry equal to the old one it fails with [PhoneNotFound] and the phones
    are unchanged; with a match, the first entry equal to the old phone, and
    only that one, takes the new value, and every entry keeps its place. *)
Theorem edit_phone_spec (self : PhoneManager) (old_phone new_phone : string) :
  (forall e, Phone_init new_phone = inl e ->
     edit_phone old_phone new_phone self = (inl InvalidPhone, self))
  /\ (forall p, Phone_init new_phone = inr p ->
        (forall q, In q (phones self) -> value q <> old_phone) ->
        edit_phone old_phone new_phone self = (inl (PhoneNotFound old_phone), self))
  /\ (forall p before q after, Phone_init new_phone = inr p ->
        phones self = (before ++ q :: after)%list ->
        value q = old_phone ->
        (forall x, In x before -> value x <> old_phone) ->
        edit_phone old_phone new_phone self
        = (inr tt, mkPhoneManager (before ++ mkField new_phone :: after))).
Proof.
  destruct self as [ps]. unfold edit_phone. split; [|split].
  - intros e He. unfold mbind, mlift. rewrite He.
    apply Phone_init_inl in He. subst e. reflexivity.
  - intros p Hp Hno. unfold mbind, mlift, mget. rewrite Hp. simpl.
    rewrite edit_phone_loop_miss by exact Hno. reflexivity.
  - intros p before q after Hp Hps Hq Hno. simpl in Hps. subst ps.
    unfold mbind, mlift, mget. rewrite Hp. simpl.
    pose proof (edit_phone_loop_hit [] before q after old_phone new_phone Hq Hno) as H.
    simpl in H. rewrite H. reflexivity.
Qed.

Lemma edit_phone_spec_witness :
  edit_phone "1111111111" "2222222222"
    (mkPhoneManager [mkField "3333333333"; mkField "1111111111"; mkField "1111111111"])
  = (inr tt,
     mkPhoneManager [mkField "3333333333"; mkField "2222222222"; mkField "1111111111"]).
Proof.
  refine (proj2 (proj2 (edit_phone_spec
    (mkPhoneManager [mkField "3333333333"; mkField "1111111111"; mkField "1111111111"])
    "1111111111" "2222222222"))
    (mkField "2222222222") [mkField "3333333333"] (mkField "1111111111")
    [mkField "1111111111"] _ _ _ _).
  - reflexivity.
  - reflexivity.
  - reflexivity.
  - intros x [Hx|[]]. subst x. simpl. discriminate.
Defined.

(** ** AddressBook *)

Lemma dict_set_absent (k : string) (v : ContactRecord) (d : dict) :
  dict_get k d = None -> dict_set k v d = (d ++ [(k, v)])%list.
Proof.
  induction d as [|[k' v'] d IH]; simpl; [reflexivity|].
  destruct (k' =? k)%string; [discriminate|].
  intros H. rewrite (IH H). reflexivity.
Qed.

Lemma dict_get_set_same (k : string) (v : ContactRecord) (d : dict) :
  dict_get k (dict_set k v d) = Some v.
Proof.
  induction d as [|[k' v'] d IH]; simpl.
  - rewrite String.eqb_refl. reflexivity.
  - destruct (k' =? k)%string eqn:E; simpl.
    + rewrite String.eqb_refl. reflexivity.
    + rewrite E. exact IH.
Qed.

Lemma dict_set_twice (k : string) (v w : ContactRecord) (d : dict) :
  dict_set k w (dict_set k v d) = dict_set k w d.
Proof.
  induction d as [|[k' v'] d IH]; simpl.
  - rewrite String.eqb_refl. reflexivity.
  - destruct (k' =? k)%string eqn:E; simpl.
    + rewrite String.eqb_refl. reflexivity.
    + rewrite E, IH. reflexivity.
Qed.

(** A record that the book holds under its key is replaced in place; a
    record that the book does not hold leaves the book as it is. *)
Lemma dict_replace_present (k : string) (v r : ContactRecord) (d : dict) :
  dict_get k d = Some r -> dict_replace k v d = dict_set k v d.
Proof.
  induction d as [|[k' v'] d IH]; simpl; [discriminate|].
  destruct (String.eqb_spec k' k) as [->|_]; [reflexivity|].
  intros H. rewrite (IH H). reflexivity.
Qed.

Lemma dict_replace_absent (k : string) (v : ContactRecord) (d : dict) :
  dict_get k d = None -> dict_replace k v d = d.
Proof.
  induction d as [|[k' v'] d IH]; simpl; [reflexivity|].
  destruct (k' =? k)%string; [discriminate|].
  intros H. rewrite (IH H). reflexivity.
Qed.

Lemma dict_replace_cases (k : string) (v : ContactRecord) (d : dict) :
  dict_replace k v d
  = match dict_get k d with
    | Some _ => dict_set k v d
    | None => d
    end.
Proof.
  destruct (dict_get k d) as [r|] eqn:E.
  - exact (dict_replace_present k v r d E).
  - exact (dict_replace_absent k v d E).
Qed.

Lemma dict_replace_after_set (k : string) (v w : ContactRecord) (d : dict) :
  dict_replace k w (dict_set k v d) = dict_set k w d.
Proof.
  rewrite (dict_replace_present k w v) by apply dict_get_set_same.
  apply dict_set_twice.
Qed.

Lemma app_one_neq {A : Type} (l : list A) (x : A) : (l ++ [x])%list <> l.
Proof.
  intros H. apply (f_equal (@List.length A)) in H.
  rewrite length_app in H. simpl in H. lia.
Qed.

(** ** Commands *)

(** The failing [add_phone] on a record: the exception, and the record as it
    was. *)
Lemma add_phone_invalid (phone : string) (record : ContactRecord) :
  Phone_init phone = inl InvalidPhone ->
  in_phone_manager (add_phone phone) record = (inl InvalidPhone, record).
Proof.
  intros Hp. unfold in_phone_manager, add_phone, mbind, mlift. rewrite Hp.
  destruct record. reflexivity.
Qed.

(** C9.  [add] for an unknown name with an invalid phone fails with
    [InvalidPhone], and the book is not as it was: it has gained a record for
    the name, with no phone and no birthday.  The record is the one that
    [add_record] stored before [add_phone] validated: the book in which the
    command leaves off is the book right after [add_record]. *)
Theorem add_invalid_phone_keeps_new_record (now : datetime) (book : AddressBook)
    (n phone : string) :
  dict_get n (data book) = None ->
  (forall p, Phone_init phone <> inr p) ->
  exists book',
    execute now AddContactCommand [n; phone] book = (inl InvalidPhone, book')
    /\ add_record (Record_init n) book = (inr tt, book')
    /\ data book' = (data book ++ [(n, Record_init n)])%list
    /\ dict_get n (data book') = Some (Record_init n)
    /\ phones (phone_manager (Record_init n)) = []
    /\ birthday (birthday_manager (Record_init n)) = None
    /\ book' <> book.
Proof.
  intros Habs Hbad.
  exists (snd (add_record (Record_init n) book)).
  assert (Phone_init phone = inl InvalidPhone) as Hp.
  { destruct (Phone_init phone) as [e|p] eqn:E.
    - apply Phone_init_inl in E. congruence.
    - exfalso. exact (Hbad p eq_refl). }
  assert (data (snd (add_record (Record_init n) book))
          = (data book ++ [(n, Record_init n)])%list) as Hdata.
  { unfold add_record, mbind, mget, mput. simpl.
    apply dict_set_absent. exact Habs. }
  assert (dict_get n (data (snd (add_record (Record_init n) book)))
          = Some (Record_init n)) as Hget.
  { unfold add_record, mbind, mget, mput. simpl. apply dict_get_set_same. }
  split; [|split; [reflexivity|split; [exact Hdata|split; [exact Hget|]]]].
  - (* the lookup misses, [add_record] stores the fresh record, [add_phone]
       raises and leaves the stored record as it is *)
    simpl. unfold AddContactCommand_execute. simpl.
    unfold mbind at 1. unfold find at 1, mbind at 1, mget at 1, mret at 1.
    rewrite Habs.
    unfold mbind at 1. unfold mbind at 1.
    destruct (add_record (Record_init n) book) as [[e|[]] book1] eqn:Hadd;
      [unfold add_record, mbind, mget, mput in Hadd; discriminate Hadd|].
    simpl in Hget, Hdata |- *.
    unfold in_record. rewrite (add_phone_invalid phone _ Hp).
    unfold mbind. cbn beta iota.
    rewrite (dict_replace_present _ _ _ _ Hget).
    unfold add_record, mbind, mget, mput in Hadd. inversion Hadd as [Hbook1].
    simpl. rewrite dict_set_twice. reflexivity.
  - split; [reflexivity|]. split; [reflexivity|].
    destruct book as [d]. intros H.
    apply (f_equal data) in H. rewrite Hdata in H. simpl in H.
    exact (app_one_neq _ _ H).
Qed.

Lemma add_invalid_phone_keeps_new_record_witness :
  exists book',
    execute (mkDatetime 2024 6 10 0 0 0 0) AddContactCommand ["john"; "12"]
            (mkAddressBook [])
    = (inl InvalidPhone, book')
    /\ data book' = [("john", Record_init "john")].
Proof.
  destruct (add_invalid_phone_keeps_new_record (mkDatetime 2024 6 10 0 0 0 0)
              (mkAddressBook []) "john" "12") as [book' [H1 [_ [H2 _]]]].
  - reflexivity.
  - intros p. discriminate.
  - exists book'. split; [exact H1 | exact H2].
Defined.

(** C8.  [change], [phone] and [show-birthday] for a name that has no record
    return the text ["Contact not found."] as an ordinary result; the
    decorator passes it on unchanged, and the book is as it was. *)
Theorem missing_contact_is_a_result (now : datetime) (cmd : Command)
    (n : string) (rest : list string) (book : AddressBook) :
  cmd = ChangeContactCommand \/ cmd = ShowPhoneCommand \/ cmd = ShowBirthdayCommand ->
  len (n :: rest) = required_arity cmd ->
  dict_get n (data book) = None ->
  execute now cmd (n :: rest) book = (inr "Contact not found.", book)
  /\ input_error (execute now cmd (n :: rest)) book = (inr "Contact not found.", book)
  /\ forall disk, decorated_cmd now cmd (n :: rest) (book, disk)
                  = (inr "Contact not found.", (book, Some book)).
Proof.
  intros Hcmd Hlen Habs.
  assert (execute now cmd (n :: rest) book = (inr "Contact not found.", book)) as Hex.
  { destruct Hcmd as [-> | [-> | ->]]; simpl in *; unfold len in Hlen; simpl in Hlen.
    - destruct rest as [|a [|b [|c rest]]]; simpl in Hlen; try lia.
      unfold ChangeContactCommand_execute, mbind, find, mget, mret. simpl.
      rewrite Habs. reflexivity.
    - destruct rest as [|a rest]; simpl in Hlen; try lia.
      unfold ShowPhoneCommand_execute, mbind, find, mget, mret. simpl.
      rewrite Habs. reflexivity.
    - destruct rest as [|a rest]; simpl in Hlen; try lia.
      unfold ShowBirthdayCommand_execute, mbind, find, mget, mret. simpl.
      rewrite Habs. reflexivity. }
  split; [exact Hex|]. split.
  - unfold input_error. rewrite Hex. reflexivity.
  - intros disk. unfold decorated_cmd, save_on_change, input_error. simpl.
    rewrite Hex. reflexivity.
Qed.

Lemma missing_contact_is_a_result_witness :
  execute (mkDatetime 2024 6 10 0 0 0 0) ChangeContactCommand
          ["ann"; "1111111111"; "2222222222"] (mkAddressBook [])
  = (inr "Contact not found.", mkAddressBook []).
Proof.
  refine (proj1 (missing_contact_is_a_result (mkDatetime 2024 6 10 0 0 0 0)
           ChangeContactCommand "ann" ["1111111111"; "2222222222"] (mkAddressBook [])
           _ _ _)).
  - left. reflexivity.
  - reflexivity.
  - reflexivity.
Defined.

Lemma command_map_not_reserved (token : string) (cmd : Command) :
  command_map token = Some cmd ->
  ((token =? "close") || (token =? "exit"))%string = false
  /\ (token =? "")%string = false /\ (token =? "hello")%string = false.
Proof.
  intros H.
  destruct (String.eqb_spec token "close") as [->|_]; [discriminate H|].
  destruct (String.eqb_spec token "exit") as [->|_]; [discriminate H|].
  destruct (String.eqb_spec token "") as [->|_]; [discriminate H|].
  destruct (String.eqb_spec token "hello") as [->|_]; [discriminate H|].
  repeat split.
Qed.

(** C7.  For a token of the dispatch table, when [execute] raises one of the
    four error kinds the turn prints ["Error: "] followed by the message, and
    when [execute] returns a string the turn prints that string. *)
Theorem dispatcher_reports_errors (now : datetime) (token : string) (cmd : Command)
    (args : list string) (book : AddressBook) (disk : Storage) :
  command_map token = Some cmd ->
  (forall e book', core_error e ->
     execute now cmd args book = (inl e, book') ->
     input_error (execute now cmd args) book = (inr ("Error: " ++ exn_str e), book')
     /\ main_turn now token args (book, disk)
        = (inr ("Error: " ++ exn_str e, true), (book', Some book')))
  /\ (forall s book',
        execute now cmd args book = (inr s, book') ->
        input_error (execute now cmd args) book = (inr s, book')
        /\ main_turn now token args (book, disk) = (inr (s, true), (book', Some book'))).
Proof.
  intros Hmap.
  destruct (command_map_not_reserved _ _ Hmap) as [H1 [H2 H3]].
  unfold main_turn. rewrite H1, H2, H3, Hmap.
  unfold decorated_cmd, save_on_change, input_error, mbind, mret. simpl.
  split.
  - intros e book' He Hex. rewrite Hex.
    assert (exists msg, e = ValueError msg) as [msg ->].
    { destruct He as [-> | [-> | [[o ->] | [c [_ ->]]]]]; eexists; reflexivity. }
    simpl. split; reflexivity.
  - intros s book' Hex. rewrite Hex. split; reflexivity.
Qed.

Lemma dispatcher_reports_errors_witness :
  main_turn (mkDatetime 2024 6 10 0 0 0 0) "add" ["john"; "12"] (mkAddressBook [], None)
  = (inr ("Error: Phone number must be a string of 10 digits", true),
     (mkAddressBook [("john", Record_init "john")],
      Some (mkAddressBook [("john", Record_init "john")]))).
Proof.
  refine (proj2 (proj1 (dispatcher_reports_errors (mkDatetime 2024 6 10 0 0 0 0)
            "add" AddContactCommand ["john"; "12"] (mkAddressBook []) None _)
            InvalidPhone (mkAddressBook [("john", Record_init "john")]) _ _)).
  - reflexivity.
  - left. reflexivity.
  - reflexivity.
Defined.

(** C4, as the code has it.  The five commands that take arguments test
    [len(args)] first: with any other number of arguments they fail with
    [WrongArity], whatever the book holds, and leave it untouched.  [all] and
    [birthdays] make no such test: they ignore their arguments. *)
Theorem arity_checked_before_directory (now : datetime) (cmd : Command)
    (args : list string) (book : AddressBook) :
  (checks_arity cmd = true -> len args <> required_arity cmd ->
     execute now cmd args book = (inl (WrongArity cmd), book))
  /\ (checks_arity cmd = false ->
        execute now cmd args book = execute now cmd [] book).
Proof.
  split.
  - intros Hc Hlen.
    destruct cmd; try discriminate Hc; simpl in *;
      apply Z.eqb_neq in Hlen;
      [ unfold AddContactCommand_execute
      | unfold ChangeContactCommand_execute
      | unfold ShowPhoneCommand_execute
      | unfold AddBirthdayCommand_execute
      | unfold ShowBirthdayCommand_execute ];
      rewrite Hlen; reflexivity.
  - intros Hc. destruct cmd; simpl in Hc; try discriminate Hc; reflexivity.
Qed.

Lemma arity_checked_before_directory_witness :
  execute (mkDatetime 2024 6 10 0 0 0 0) AddContactCommand ["john"]
          (mkAddressBook [("john", Record_init "john")])
  = (inl (WrongArity AddContactCommand), mkAddressBook [("john", Record_init "john")]).
Proof.
  apply (proj1 (arity_checked_before_directory (mkDatetime 2024 6 10 0 0 0 0)
           AddContactCommand ["john"] (mkAddressBook [("john", Record_init "john")]))).
  - reflexivity.
  - unfold len. simpl. lia.
Defined.

(** C4, as stated, fails: [all] takes no argument, and with one argument it
    still lists the book instead of failing. *)
Lemma show_all_arity_counterexample :
  len ["x"] <> required_arity ShowAllCommand
  /\ execute (mkDatetime 2024 6 10 0 0 0 0) ShowAllCommand ["x"] (mkAddressBook [])
     = (inr "No contacts found.", mkAddressBook []).
Proof. split; [unfold len; simpl; lia | reflexivity]. Qed.

(** ** The calendar *)

Lemma forallb_below (P : Z -> bool) (k : nat) :
  forallb P (map Z.of_nat (seq 0 k)) = true ->
  forall n, 0 <= n < Z.of_nat k -> P n = true.
Proof.
  intros H n Hn. rewrite forallb_forall in H. apply H.
  apply in_map_iff. exists (Z.to_nat n). split; [lia|].
  apply in_seq. lia.
Qed.

Lemma month_day_of_offset_ok (leapyear : bool) (n : Z) :
  0 <= n < 365 -> month_day_ok leapyear n = true.
Proof.
  intros Hn. apply (forallb_below (month_day_ok leapyear) 365); [|lia].
  destruct leapyear; vm_compute; reflexivity.
Qed.

Lemma DI_values : _DI400Y = 146097 /\ _DI100Y = 36524 /\ _DI4Y = 1461.
Proof. repeat split. Qed.

(** The year arithmetic of [_ord2ymd], on the digits [a], [b], [c], [d] of
    the year in the mixed base 400, 100, 4, 1. *)
Lemma days_before_year_digits (a b c d : Z) :
  0 <= a -> 0 <= b <= 3 -> 0 <= c <= 24 -> 0 <= d <= 3 ->
  _days_before_year (a * 400 + 1 + (b * 100 + c * 4 + d))
  = a * 146097 + b * 36524 + c * 1461 + d * 365.
Proof.
  intros Ha Hb Hc Hd. unfold _days_before_year.
  Z.to_euclidean_division_equations. lia.
Qed.

Lemma is_leap_digits (a b c d : Z) :
  0 <= a -> 0 <= b <= 3 -> 0 <= c <= 24 -> 0 <= d <= 3 ->
  _is_leap (a * 400 + 1 + (b * 100 + c * 4 + d))
  = (d =? 3) && (negb (c =? 24) || (b =? 3)).
Proof.
  intros Ha Hb Hc Hd. unfold _is_leap.
  destruct (Z.eqb_spec d 3) as [Ed|Ed];
  destruct (Z.eqb_spec c 24) as [Ec|Ec];
  destruct (Z.eqb_spec b 3) as [Eb|Eb]; simpl;
  repeat match goal with
         | |- context [?x mod ?k =? 0] =>
             destruct (Z.eqb_spec (x mod k) 0)
         end; simpl; try reflexivity;
  exfalso; Z.to_euclidean_division_equations; lia.
Qed.

Lemma is_leap_end_of_cycle (y : Z) :
  (exists a, 0 <= a /\ y = (a + 1) * 400)
  \/ (exists a b c, 0 <= a /\ 0 <= b <= 3 /\ 0 <= c <= 23
                    /\ y = a * 400 + b * 100 + (c + 1) * 4) ->
  _is_leap y = true.
Proof.
  unfold _is_leap.
  intros [[a [Ha ->]]|[a [b [c [Ha [Hb [Hc ->]]]]]]];
  repeat match goal with
         | |- context [?x mod ?k =? 0] =>
             destruct (Z.eqb_spec (x mod k) 0)
         end; simpl; try reflexivity;
  exfalso; Z.to_euclidean_division_equations; lia.
Qed.

(** [date.fromordinal(n).toordinal() == n]. *)
Lemma ymd2ord_ord2ymd (n : Z) :
  1 <= n ->
  _ymd2ord (fst (fst (_ord2ymd n))) (snd (fst (_ord2ymd n))) (snd (_ord2ymd n)) = n.
Proof.
  intros Hn. unfold _ord2ymd.
  destruct DI_values as [-> [-> ->]].
  set (n0 := n - 1).
  set (a := n0 / 146097). set (r := n0 mod 146097).
  set (b := r / 36524). set (r2 := r mod 36524).
  set (c := r2 / 1461). set (r3 := r2 mod 1461).
  set (d := r3 / 365). set (r4 := r3 mod 365).
  assert (0 <= a /\ 0 <= b <= 4 /\ 0 <= c <= 24 /\ 0 <= d <= 4 /\ 0 <= r4 < 365
          /\ n0 = a * 146097 + b * 36524 + c * 1461 + d * 365 + r4
          /\ (b = 4 -> c = 0 /\ d = 0 /\ r4 = 0)
          /\ (d = 4 -> c <= 23 /\ r4 = 0)) as H.
  { subst a r b r2 c r3 d r4. subst n0.
    Z.to_euclidean_division_equations. lia. }
  destruct H as [Ha [Hb [Hc [Hd [Hr [Hn0 [Hb4 Hd4]]]]]]].
  clearbody a b c d r4. clear r r2 r3.
  destruct (Z.eqb_spec d 4) as [Ed|Ed]; [|destruct (Z.eqb_spec b 4) as [Eb|Eb]]; simpl.
  - (* the last day of a four-year cycle *)
    destruct (Hd4 Ed) as [Hc' Hr']. subst d r4.
    assert (b <> 4) as Hb' by (intros E; destruct (Hb4 E); lia).
    unfold _ymd2ord, _days_before_month.
    rewrite (is_leap_end_of_cycle (a * 400 + 1 + (b * 100 + c * 4 + 4) - 1))
      by (right; exists a, b, c; lia).
    replace (a * 400 + 1 + (b * 100 + c * 4 + 4) - 1)
      with (a * 400 + 1 + (b * 100 + c * 4 + 3)) by lia.
    rewrite days_before_year_digits by lia.
    change (zindex _DAYS_BEFORE_MONTH 12) with 334. simpl. lia.
  - (* the last day of a 400-year cycle *)
    destruct (Hb4 Eb) as [Hc' [Hd' Hr']]. subst b c d r4.
    unfold _ymd2ord, _days_before_month.
    rewrite (is_leap_end_of_cycle (a * 400 + 1 + (4 * 100 + 0 * 4 + 0) - 1))
      by (left; exists a; lia).
    replace (a * 400 + 1 + (4 * 100 + 0 * 4 + 0) - 1)
      with (a * 400 + 1 + (3 * 100 + 24 * 4 + 3)) by lia.
    rewrite days_before_year_digits by lia.
    change (zindex _DAYS_BEFORE_MONTH 12) with 334. simpl. lia.
  - set (leapyear := (d =? 3) && (negb (c =? 24) || (b =? 3))).
    pose proof (month_day_of_offset_ok leapyear r4 Hr) as Hmd.
    unfold month_day_ok in Hmd.
    destruct (month_day_of_offset leapyear r4) as [m dd]. simpl in *.
    repeat (apply andb_true_iff in Hmd; destruct Hmd as [Hmd ?]).
    unfold _ymd2ord, _days_before_month.
    rewrite is_leap_digits by lia. fold leapyear.
    rewrite days_before_year_digits by lia.
    match goal with H : (_ =? r4 + 1) = true |- _ => apply Z.eqb_eq in H end.
    lia.
Qed.

Lemma check_date_fields_ok (y m d : Z) :
  valid_date y m d -> _check_date_fields y m d = inr tt.
Proof.
  intros [[Hy1 Hy2] [[Hm1 Hm2] [Hd1 Hd2]]]. unfold _check_date_fields.
  apply Z.leb_le in Hy1, Hy2, Hm1, Hm2, Hd1, Hd2.
  rewrite Hy1, Hy2, Hm1, Hm2, Hd1, Hd2. reflexivity.
Qed.

Lemma check_date_fields_inr (y m d : Z) :
  _check_date_fields y m d = inr tt -> valid_date y m d.
Proof.
  unfold _check_date_fields, valid_date.
  destruct (Z.leb_spec MINYEAR y); destruct (Z.leb_spec y MAXYEAR); simpl;
    try discriminate.
  destruct (Z.leb_spec 1 m); destruct (Z.leb_spec m 12); simpl; try discriminate.
  destruct (Z.leb_spec 1 d); destruct (Z.leb_spec d (_days_in_month y m)); simpl;
    try discriminate.
  intros _. lia.
Qed.

Lemma days_before_year_step (y : Z) :
  _days_before_year (y + 1) = _days_before_year y + 365 + b2z (_is_leap y).
Proof.
  unfold _days_before_year, _is_leap.
  replace (y + 1 - 1) with (y - 1 + 1) by lia.
  repeat match goal with
         | |- context [?x mod ?k =? 0] =>
             destruct (Z.eqb_spec (x mod k) 0)
         end; simpl;
  Z.to_euclidean_division_equations; lia.
Qed.

Lemma days_before_year_mono (y : Z) (k : nat) :
  _days_before_year y <= _days_before_year (y + Z.of_nat k).
Proof.
  induction k as [|k IH].
  - replace (y + Z.of_nat 0) with y by lia. lia.
  - replace (y + Z.of_nat (S k)) with (y + Z.of_nat k + 1) by lia.
    rewrite days_before_year_step. destruct (_is_leap _); simpl; lia.
Qed.

Lemma day_of_year_bounds (y m d : Z) :
  1 <= m <= 12 -> 1 <= d <= _days_in_month y m ->
  1 <= _days_before_month y m + d <= 365 + b2z (_is_leap y).
Proof.
  intros Hm Hd. unfold _days_before_month, _days_in_month in *.
  assert (month_tables_ok (_is_leap y) m = true) as H.
  { apply (forallb_below (month_tables_ok (_is_leap y)) 13); [|lia].
    destruct (_is_leap y); vm_compute; reflexivity. }
  unfold month_tables_ok in H.
  set (dim := if (m =? 2) && _is_leap y then 29 else zindex _DAYS_IN_MONTH m) in *.
  set (dbm := zindex _DAYS_BEFORE_MONTH m + b2z ((2 <? m) && _is_leap y)) in *.
  destruct (Z.eqb_spec m 0) as [E|_]; [lia|]. cbn [orb] in H.
  apply andb_true_iff in H. destruct H as [H1 H2].
  apply Z.leb_le in H1, H2. lia.
Qed.

Lemma ymd2ord_bounds (y m d : Z) :
  valid_date y m d -> 1 <= _ymd2ord y m d <= _MAXORDINAL.
Proof.
  intros [[Hy1 Hy2] [Hm Hd]]. unfold MINYEAR, MAXYEAR in *.
  pose proof (day_of_year_bounds y m d Hm Hd) as Hday.
  pose proof (days_before_year_step y) as Hstep.
  pose proof (days_before_year_mono 1 (Z.to_nat (y - 1))) as Hlow.
  pose proof (days_before_year_mono (y + 1) (Z.to_nat (9999 - y))) as Hhigh.
  replace (1 + Z.of_nat (Z.to_nat (y - 1))) with y in Hlow by lia.
  replace (y + 1 + Z.of_nat (Z.to_nat (9999 - y))) with 10000 in Hhigh by lia.
  change (_days_before_year 1) with 0 in Hlow.
  change (_days_before_year 10000) with 3652059 in Hhigh.
  unfold _ymd2ord, _MAXORDINAL. lia.
Qed.

Lemma month_end_before_later_month (y m m' : Z) :
  1 <= m -> m < m' <= 12 ->
  _days_before_month y m + _days_in_month y m <= _days_before_month y m'.
Proof.
  intros Hm Hm'. unfold _days_before_month, _days_in_month.
  assert (months_ordered (_is_leap y) m = true) as H.
  { apply (forallb_below (months_ordered (_is_leap y)) 13); [|lia].
    destruct (_is_leap y); vm_compute; reflexivity. }
  unfold months_ordered in H. rewrite forallb_forall in H.
  specialize (H m'). 
  assert (In m' (map Z.of_nat (seq 0 13))) as Hin.
  { apply in_map_iff. exists (Z.to_nat m'). split; [lia|]. apply in_seq. lia. }
  specialize (H Hin).
  destruct (Z.eqb_spec m 0) as [E|_]; [lia|].
  destruct (Z.leb_spec m' m) as [E|_]; [lia|].
  cbn [orb] in H. apply Z.leb_le in H. lia.
Qed.

Lemma ymd2ord_lt (y m d y' m' d' : Z) :
  1 <= m <= 12 -> 1 <= d <= _days_in_month y m ->
  1 <= m' <= 12 -> 1 <= d' <= _days_in_month y' m' ->
  date_ltb (y, m, d) (y', m', d') = true ->
  _ymd2ord y m d < _ymd2ord y' m' d'.
Proof.
  intros Hm Hd Hm' Hd' H. unfold date_ltb in H.
  pose proof (day_of_year_bounds y m d Hm Hd) as B.
  pose proof (day_of_year_bounds y' m' d' Hm' Hd') as B'.
  unfold _ymd2ord.
  apply orb_true_iff in H. destruct H as [H|H].
  - apply Z.ltb_lt in H.
    pose proof (days_before_year_step y) as Hs.
    pose proof (days_before_year_mono (y + 1) (Z.to_nat (y' - y - 1))) as Hmono.
    replace (y + 1 + Z.of_nat (Z.to_nat (y' - y - 1))) with y' in Hmono by lia.
    lia.
  - apply andb_true_iff in H. destruct H as [Hy H]. apply Z.eqb_eq in Hy. subst y'.
    apply orb_true_iff in H. destruct H as [H|H].
    + apply Z.ltb_lt in H.
      pose proof (month_end_before_later_month y m m' ltac:(lia) ltac:(lia)). lia.
    + apply andb_true_iff in H. destruct H as [Hmm H].
      apply Z.eqb_eq in Hmm. apply Z.ltb_lt in H. subst m'. lia.
Qed.

Lemma date_ltb_total (a b : Z * Z * Z) :
  date_ltb a b = true \/ a = b \/ date_ltb b a = true.
Proof.
  destruct a as [[y m] d], b as [[y' m'] d']. unfold date_ltb.
  repeat first [ rewrite orb_true_iff | rewrite andb_true_iff
               | rewrite Z.ltb_lt | rewrite Z.eqb_eq ].
  assert ((y = y' /\ m = m' /\ d = d') \/ ~ (y = y' /\ m = m' /\ d = d')) as [E|E]
    by lia.
  - right. left. destruct E as [-> [-> ->]]. reflexivity.
  - lia.
Qed.

(** Two dates of the calendar with the same ordinal are the same date. *)
Lemma toordinal_inj (a b : datetime) :
  valid_datetime a -> valid_datetime b ->
  toordinal a = toordinal b -> date_of a = date_of b.
Proof.
  intros [_ [Hma Hda]] [_ [Hmb Hdb]] H. unfold toordinal in H.
  destruct (date_ltb_total (date_of a) (date_of b)) as [Hlt|[Heq|Hlt]];
    [|exact Heq|].
  - pose proof (ymd2ord_lt _ _ _ _ _ _ Hma Hda Hmb Hdb Hlt). lia.
  - pose proof (ymd2ord_lt _ _ _ _ _ _ Hmb Hdb Hma Hda Hlt). lia.
Qed.

(** A later ordinal is not in an earlier year. *)
Lemma toordinal_year_mono (a b : datetime) :
  valid_datetime a -> valid_datetime b ->
  toordinal a <= toordinal b -> year a <= year b.
Proof.
  intros [_ [Hma Hda]] [_ [Hmb Hdb]] H. unfold toordinal in H.
  destruct (Z.le_gt_cases (year a) (year b)) as [Hle|Hgt]; [exact Hle|].
  assert (date_ltb (date_of b) (date_of a) = true) as Hlt.
  { unfold date_ltb, date_of. apply orb_true_iff. left. apply Z.ltb_lt. lia. }
  pose proof (ymd2ord_lt _ _ _ _ _ _ Hmb Hdb Hma Hda Hlt). lia.
Qed.

(** [date.fromordinal(n)] is a date of the calendar. *)
Lemma ord2ymd_valid (n : Z) :
  1 <= n <= _MAXORDINAL ->
  valid_date (fst (fst (_ord2ymd n))) (snd (fst (_ord2ymd n))) (snd (_ord2ymd n)).
Proof.
  intros Hn. unfold _MAXORDINAL in Hn. unfold _ord2ymd.
  destruct DI_values as [-> [-> ->]].
  set (n0 := n - 1).
  set (a := n0 / 146097). set (r := n0 mod 146097).
  set (b := r / 36524). set (r2 := r mod 36524).
  set (c := r2 / 1461). set (r3 := r2 mod 1461).
  set (d := r3 / 365). set (r4 := r3 mod 365).
  assert (0 <= a <= 24 /\ 0 <= b <= 4 /\ 0 <= c <= 24 /\ 0 <= d <= 4 /\ 0 <= r4 < 365
          /\ n0 = a * 146097 + b * 36524 + c * 1461 + d * 365 + r4
          /\ (b = 4 -> c = 0 /\ d = 0 /\ r4 = 0)
          /\ (d = 4 -> c <= 23 /\ r4 = 0)) as H.
  { subst a r b r2 c r3 d r4. subst n0.
    Z.to_euclidean_division_equations. lia. }
  destruct H as [Ha [Hb [Hc [Hd [Hr [Hn0 [Hb4 Hd4]]]]]]].
  assert (n0 <= 3652058) as Hmax by (subst n0; lia).
  clearbody a b c d r4 n0. clear r r2 r3.
  assert (a * 400 + b * 100 + c * 4 + d <= 9998) as Hyear by lia.
  unfold valid_date, MINYEAR, MAXYEAR.
  destruct (Z.eqb_spec d 4) as [Ed|Ed]; [|destruct (Z.eqb_spec b 4) as [Eb|Eb]];
    cbn [orb fst snd].
  - destruct (Hd4 Ed) as [Hc' Hr'].
    assert (b <> 4) as Hb' by (intros E; destruct (Hb4 E); lia).
    unfold _days_in_month. change (12 =? 2) with false. cbn [andb].
    change (zindex _DAYS_IN_MONTH 12) with 31. lia.
  - destruct (Hb4 Eb) as [Hc' [Hd' Hr']].
    unfold _days_in_month. change (12 =? 2) with false. cbn [andb].
    change (zindex _DAYS_IN_MONTH 12) with 31. lia.
  - set (leapyear := (d =? 3) && (negb (c =? 24) || (b =? 3))).
    pose proof (month_day_of_offset_ok leapyear r4 Hr) as Hmd.
    unfold month_day_ok in Hmd.
    destruct (month_day_of_offset leapyear r4) as [m dd]. cbn [fst snd] in *.
    rewrite !andb_true_iff in Hmd.
    destruct Hmd as [[[[Hm1 Hm2] _] Hd1] Hd2].
    apply Z.leb_le in Hm1, Hm2, Hd1, Hd2.
    unfold _days_in_month.
    rewrite is_leap_digits by lia. fold leapyear.
    lia.
Qed.

(** ** strptime yields valid dates at midnight *)

Lemma datetime_new_inr (y m d hh mm ss us : Z) (t : datetime) :
  datetime_new y m d hh mm ss us = inr t ->
  t = mkDatetime y m d hh mm ss us /\ valid_date y m d.
Proof.
  unfold datetime_new, rbind.
  destruct (_check_date_fields y m d) as [e|[]] eqn:E; [discriminate|].
  intros H. inversion H. split; [reflexivity|].
  apply check_date_fields_inr. exact E.
Qed.

Lemma datetime_new_valid (y m d hh mm ss us : Z) :
  valid_date y m d ->
  datetime_new y m d hh mm ss us = inr (mkDatetime y m d hh mm ss us).
Proof.
  intros H. unfold datetime_new. rewrite (check_date_fields_ok _ _ _ H). reflexivity.
Qed.

Lemma strptime_inr (s : string) (bday : datetime) :
  strptime s = inr bday -> valid_datetime bday /\ date_only bday.
Proof.
  unfold strptime.
  destruct (format_regex_match s) as [[[[d m] y] rest]|]; [|discriminate].
  destruct (negb _); [discriminate|].
  intros H. apply datetime_new_inr in H. destruct H as [-> Hv].
  split; [exact Hv | repeat split].
Qed.

Lemma replace_year_valid (self : datetime) (y : Z) :
  valid_date y (month self) (day self) ->
  replace_year self y = inr (with_year self y).
Proof. intros H. unfold replace_year. apply datetime_new_valid. exact H. Qed.

(** ** Weekend shifts stay inside the calendar *)

Lemma toordinal_plus_days (d : datetime) (n : Z) :
  1 <= toordinal d + n -> toordinal (plus_days d n) = toordinal d + n.
Proof.
  intros H. unfold plus_days, toordinal at 1. simpl.
  apply ymd2ord_ord2ymd. exact H.
Qed.

Lemma add_days_weekend (d : datetime) (n : Z) :
  valid_datetime d ->
  (n = 2 /\ weekday d = 5) \/ (n = 1 /\ weekday d = 6) ->
  add_days d n = inr (plus_days d n).
Proof.
  intros Hv Hn. unfold add_days, plus_days.
  pose proof (ymd2ord_bounds _ _ _ Hv) as Hb. fold (toordinal d) in Hb.
  unfold weekday, _MAXORDINAL in *.
  assert (0 < toordinal d + n <= 3652059) as [H1 H2].
  { destruct Hn as [[-> Hw]|[-> Hw]]; Z.to_euclidean_division_equations; lia. }
  apply Z.ltb_lt in H1. apply Z.leb_le in H2. rewrite H1, H2. simpl.
  destruct (_ord2ymd (toordinal d + n)) as [[y m] dd]. reflexivity.
Qed.

(** ** The loop of the calculator *)

Lemma replace_year_inr (self : datetime) (y : Z) (t : datetime) :
  replace_year self y = inr t ->
  t = with_year self y /\ valid_date y (month self) (day self).
Proof. unfold replace_year. intros H. apply datetime_new_inr in H. exact H. Qed.

Section Calculator.

Variable today : datetime.
Hypothesis today_valid : valid_datetime today.

Lemma this_year_valid (bday : datetime) :
  valid_datetime bday ->
  day bday <= _days_in_month (year today) (month bday) ->
  (passed today bday = true ->
     year today + 1 <= MAXYEAR
     /\ day bday <= _days_in_month (year today + 1) (month bday)) ->
  valid_date (year today) (month bday) (day bday)
  /\ valid_datetime (this_year today bday).
Proof.
  destruct today_valid as [Hy _].
  intros [_ [Hm [Hd _]]] Hthis Hnext.
  assert (valid_date (year today) (month bday) (day bday)) as Hv
    by (repeat split; lia).
  split; [exact Hv|].
  unfold this_year. destruct (passed today bday).
  - destruct (Hnext eq_refl) as [Hy' Hd'].
    unfold valid_datetime, valid_date, MINYEAR, MAXYEAR in *. simpl. lia.
  - exact Hv.
Qed.

(** The tail of the loop body once the date [D] of the birthday is known
    to be a valid date. *)
Lemma weekend_shift_ok (D : datetime) (upcoming : list Entry) (n : string) :
  valid_datetime D ->
  rbind (if weekday D =? 5 then add_days D 2
         else if weekday D =? 6 then add_days D 1
         else inr D)
        (fun congratulation_date =>
           inr (upcoming ++ [mkEntry n (strftime congratulation_date)])%list)
  = inr (upcoming ++ [mkEntry n (strftime (move_off_weekend D))])%list.
Proof.
  intros Hv. unfold move_off_weekend.
  destruct (Z.eqb_spec (weekday D) 5) as [E5|E5].
  - rewrite (add_days_weekend D 2 Hv) by (left; split; [reflexivity | exact E5]).
    reflexivity.
  - destruct (Z.eqb_spec (weekday D) 6) as [E6|E6]; [|reflexivity].
    rewrite (add_days_weekend D 1 Hv) by (right; split; [reflexivity | exact E6]).
    reflexivity.
Qed.

Lemma upcoming_body_ok (upcoming : list Entry) (record : ContactRecord) :
  year_replaceable today record ->
  upcoming_body today upcoming record
  = inr (if included today record
         then (upcoming ++ [entry_for today record])%list
         else upcoming).
Proof.
  intros Hr.
  unfold upcoming_body, year_replaceable, included, entry_for, bday_of in *.
  destruct (birthday (birthday_manager record)) as [b|]; [|reflexivity].
  destruct Hr as [bday [Hs [Hthis Hnext]]]. rewrite Hs. cbn [rbind].
  destruct (strptime_inr _ _ Hs) as [Hb _].
  destruct (this_year_valid bday Hb Hthis Hnext) as [Hv Hv'].
  rewrite (replace_year_valid bday (year today) Hv). cbn [rbind].
  unfold in_window, this_year in *. fold (passed today bday).
  destruct (passed today bday) eqn:Hp.
  - rewrite (replace_year_valid (with_year bday (year today)) (year today + 1) Hv').
    cbn [rbind].
    change (with_year (with_year bday (year today)) (year today + 1))
      with (with_year bday (year today + 1)).
    set (D := with_year bday (year today + 1)) in *.
    destruct ((0 <=? sub_days D today) && (sub_days D today <=? 7)); [|reflexivity].
    apply weekend_shift_ok. exact Hv'.
  - cbn [rbind]. set (D := with_year bday (year today)) in *.
    destruct ((0 <=? sub_days D today) && (sub_days D today <=? 7)); [|reflexivity].
    apply weekend_shift_ok. exact Hv'.
Qed.

Lemma upcoming_loop_ok (records : list ContactRecord) :
  Forall (year_replaceable today) records ->
  forall upcoming,
    upcoming_loop today upcoming records
    = inr (upcoming ++ map (entry_for today) (filter (included today) records))%list.
Proof.
  intros Hall. induction Hall as [|r records Hr _ IH]; intros upcoming; simpl.
  - rewrite app_nil_r. reflexivity.
  - rewrite (upcoming_body_ok upcoming r Hr). simpl.
    destruct (included today r); simpl.
    + rewrite IH, <- app_assoc. reflexivity.
    + apply IH.
Qed.

Lemma get_upcoming_birthdays_ok (records : list ContactRecord) :
  Forall (year_replaceable today) records ->
  get_upcoming_birthdays records today
  = inr (map (entry_for today) (filter (included today) records)).
Proof.
  intros Hall. unfold get_upcoming_birthdays.
  rewrite (upcoming_loop_ok records Hall). reflexivity.
Qed.

Lemma upcoming_body_inr (upcoming upcoming' : list Entry) (record : ContactRecord) :
  upcoming_body today upcoming record = inr upcoming' ->
  year_replaceable today record.
Proof.
  unfold upcoming_body, year_replaceable.
  destruct (birthday (birthday_manager record)) as [b|]; [|trivial].
  destruct (strptime (value b)) as [e|bday] eqn:Hs; [discriminate|]. cbn [rbind].
  destruct (replace_year bday (year today)) as [e|t] eqn:E1; [discriminate|].
  apply replace_year_inr in E1. destruct E1 as [-> [_ [_ [_ Hd]]]]. cbn [rbind].
  fold (passed today bday). intros H.
  exists bday. split; [reflexivity|]. split; [exact Hd|].
  intros Hp. rewrite Hp in H.
  destruct (replace_year (with_year bday (year today)) (year today + 1))
    as [e|t] eqn:E2; [discriminate|].
  apply replace_year_inr in E2. destruct E2 as [_ [[_ Hy] [_ [_ Hd']]]].
  split; [exact Hy | exact Hd'].
Qed.

Lemma upcoming_loop_inr (records : list ContactRecord) :
  forall upcoming out,
    upcoming_loop today upcoming records = inr out ->
    Forall (year_replaceable today) records.
Proof.
  induction records as [|r records IH]; intros upcoming out H; [constructor|].
  simpl in H.
  destruct (upcoming_body today upcoming r) as [e|upcoming'] eqn:E; [discriminate|].
  constructor; [exact (upcoming_body_inr _ _ _ E) | exact (IH _ _ H)].
Qed.

(** The calculator returns exactly when every replacement of a year is
    defined. *)
Lemma get_upcoming_birthdays_returns_iff (records : list ContactRecord) :
  (exists out, get_upcoming_birthdays records today = inr out)
  <-> Forall (year_replaceable today) records.
Proof.
  split.
  - intros [out H]. exact (upcoming_loop_inr _ _ _ H).
  - intros H. eexists. apply get_upcoming_birthdays_ok. exact H.
Qed.

Lemma get_upcoming_birthdays_inr (records : list ContactRecord) (out : list Entry) :
  get_upcoming_birthdays records today = inr out ->
  Forall (year_replaceable today) records
  /\ out = map (entry_for today) (filter (included today) records).
Proof.
  intros H.
  assert (Forall (year_replaceable today) records) as Hall
    by exact (upcoming_loop_inr _ _ _ H).
  split; [exact Hall|].
  rewrite (get_upcoming_birthdays_ok records Hall) in H.
  inversion H. reflexivity.
Qed.

End Calculator.

(** ** A date-only [today] *)

Lemma date_only_ltb (a b : datetime) :
  date_only a -> date_only b ->
  datetime_ltb a b = date_ltb (date_of a) (date_of b).
Proof.
  intros [Ha1 [Ha2 [Ha3 Ha4]]] [Hb1 [Hb2 [Hb3 Hb4]]].
  unfold datetime_ltb, datetime_fields, date_ltb, date_of.
  rewrite Ha1, Ha2, Ha3, Ha4, Hb1, Hb2, Hb3, Hb4. cbn [tuple_ltb].
  change (0 <? 0) with false. change (0 =? 0) with true.
  cbn [orb andb]. rewrite andb_false_r, orb_false_r. reflexivity.
Qed.

Lemma date_only_sub_days (a b : datetime) :
  date_only a -> date_only b ->
  sub_days a b = days_between (date_of a) (date_of b).
Proof.
  intros [Ha1 [Ha2 [Ha3 Ha4]]] [Hb1 [Hb2 [Hb3 Hb4]]].
  unfold sub_days, days_between, date_of, toordinal.
  rewrite Ha1, Ha2, Ha3, Ha4, Hb1, Hb2, Hb3, Hb4.
  change ((0 + 0 * 60 + 0 * 3600 - (0 + 0 * 60 + 0 * 3600) + (0 - 0) / 1000000) / 86400)
    with 0.
  lia.
Qed.

Lemma date_only_with_year (d : datetime) (y : Z) :
  date_only d -> date_only (with_year d y).
Proof. intros H. exact H. Qed.

Lemma date_only_this_year (today bday : datetime) :
  date_only today -> date_only bday ->
  date_only (this_year today bday)
  /\ date_of (this_year today bday) = spec_bday_this_year today bday.
Proof.
  intros Ht Hb. unfold this_year, spec_bday_this_year, passed.
  rewrite (date_only_ltb _ _ (date_only_with_year bday (year today) Hb) Ht).
  change (date_of (with_year bday (year today)))
    with (year today, month bday, day bday).
  destruct (date_ltb _ _); split; first [exact Hb | reflexivity].
Qed.

Lemma bday_of_date_only (r : ContactRecord) (bday : datetime) :
  bday_of r = Some bday -> valid_datetime bday /\ date_only bday.
Proof.
  unfold bday_of. destruct (birthday (birthday_manager r)) as [b|]; [|discriminate].
  destruct (strptime (value b)) as [e|d] eqn:E; [discriminate|].
  intros H. inversion H. subst d. exact (strptime_inr _ _ E).
Qed.

Lemma date_only_included (today : datetime) (r : ContactRecord) :
  date_only today -> included today r = spec_included today r.
Proof.
  intros Ht. unfold included, spec_included.
  destruct (bday_of r) as [bday|] eqn:E; [|reflexivity].
  destruct (bday_of_date_only _ _ E) as [_ Hb].
  destruct (date_only_this_year today bday Ht Hb) as [Hd Heq].
  unfold in_window, spec_delta.
  rewrite (date_only_sub_days _ _ Hd Ht), Heq. reflexivity.
Qed.

Lemma filter_ext_all {A : Type} (f g : A -> bool) (l : list A) :
  (forall x, f x = g x) -> filter f l = filter g l.
Proof.
  intros H. induction l as [|x l IH]; simpl; [reflexivity|].
  rewrite H, IH. reflexivity.
Qed.

Lemma date_ltb_irrefl (a : Z * Z * Z) : date_ltb a a = false.
Proof.
  destruct a as [[y m] d]. unfold date_ltb.
  rewrite !Z.ltb_irrefl, !Z.eqb_refl. reflexivity.
Qed.

(** ** BirthdayCalculator.get_upcoming_birthdays *)

(** X24.  For a date-only [today], the calculator returns exactly when the
    year of every set birthday can be replaced: the day exists in that month
    of the year of [today] and, for a birthday that has passed, of the next
    year, which is not after 9999.  When it returns, its list holds, in the
    order of the records, exactly the records with a set birthday whose date
    in this year, or in the next year when it is strictly before [today], is
    0 to 7 days after [today]; a birthday on the day and month of [today]
    has delta 0 and is included. *)
Theorem upcoming_birthdays_window (records : list ContactRecord) (today : datetime) :
  date_only today -> valid_datetime today ->
  ((exists out, get_upcoming_birthdays records today = inr out)
   <-> Forall (year_replaceable today) records)
  /\ (forall out,
        get_upcoming_birthdays records today = inr out ->
        map entry_name out
        = map (fun r => value (name r)) (filter (spec_included today) records))
  /\ (forall r bday, bday_of r = Some bday ->
        month bday = month today -> day bday = day today ->
        spec_delta today bday = 0 /\ spec_included today r = true).
Proof.
  intros Hd Hv.
  split; [apply get_upcoming_birthdays_returns_iff; exact Hv|]. split.
  - intros out H. apply (get_upcoming_birthdays_inr today Hv records out) in H.
    destruct H as [_ ->]. rewrite map_map.
    rewrite (filter_ext_all _ _ records (fun r => date_only_included today r Hd)).
    reflexivity.
  - intros r bday Hb Hm Hday.
    assert (spec_delta today bday = 0) as H0.
    { unfold spec_delta, spec_bday_this_year. rewrite Hm, Hday.
      fold (date_of today). rewrite date_ltb_irrefl.
      unfold days_between, date_of. lia. }
    split; [exact H0|]. unfold spec_included. rewrite Hb, H0. reflexivity.
Qed.

Lemma upcoming_birthdays_window_witness :
  map entry_name
      [mkEntry "ann" "12.06.2024"; mkEntry "eve" "10.06.2024"]
  = map (fun r => value (name r))
        (filter (spec_included (mkDatetime 2024 6 10 0 0 0 0))
                [record_with_birthday "ann" "12.06.1990";
                 record_with_birthday "bob" "20.06.1990";
                 record_with_birthday "eve" "10.06.1990"]).
Proof.
  refine (proj1 (proj2 (upcoming_birthdays_window
            [record_with_birthday "ann" "12.06.1990";
             record_with_birthday "bob" "20.06.1990";
             record_with_birthday "eve" "10.06.1990"]
            (mkDatetime 2024 6 10 0 0 0 0) _ _)) _ _).
  - repeat split.
  - repeat split; vm_compute; discriminate.
  - vm_compute. reflexivity.
Defined.

(** C1, at its failing input.  Two birthdays that [Birthday] accepts,
    12.06.1990 and 29.02.2000, and the date-only [today] = 10.06.2023.  The
    first record is two days ahead, inside the window, and alone it is
    returned.  With the second record after it the calculator returns no
    list: [bday.replace(year=2023)] raises for 29 February, and the
    [ValueError] leaves [get_upcoming_birthdays]. *)
Theorem upcoming_birthdays_feb29_no_list :
  (date_only (mkDatetime 2023 6 10 0 0 0 0)
   /\ valid_datetime (mkDatetime 2023 6 10 0 0 0 0))
  /\ (Birthday_init "12.06.1990" = inr (mkField "12.06.1990")
      /\ Birthday_init "29.02.2000" = inr (mkField "29.02.2000"))
  /\ (bday_of (record_with_birthday "ann" "12.06.1990")
      = Some (mkDatetime 1990 6 12 0 0 0 0)
      /\ spec_delta (mkDatetime 2023 6 10 0 0 0 0) (mkDatetime 1990 6 12 0 0 0 0) = 2
      /\ spec_included (mkDatetime 2023 6 10 0 0 0 0)
                       (record_with_birthday "ann" "12.06.1990") = true)
  /\ get_upcoming_birthdays [record_with_birthday "ann" "12.06.1990"]
                            (mkDatetime 2023 6 10 0 0 0 0)
     = inr [mkEntry "ann" "12.06.2023"]
  /\ replace_year (mkDatetime 2000 2 29 0 0 0 0) 2023
     = inl (ValueError "day is out of range for month")
  /\ get_upcoming_birthdays
       [record_with_birthday "ann" "12.06.1990"; record_with_birthday "bob" "29.02.2000"]
       (mkDatetime 2023 6 10 0 0 0 0)
     = inl (ValueError "day is out of range for month").
Proof.
  split; [split|].
  - repeat split.
  - repeat split; vm_compute; discriminate.
  - split; [split; vm_compute; reflexivity|].
    split; [split; [|split]; vm_compute; reflexivity|].
    split; [vm_compute; reflexivity|].
    split; vm_compute; reflexivity.
Qed.

Lemma weekday_range (d : datetime) : 0 <= weekday d < 7.
Proof. unfold weekday. apply Z.mod_pos_bound. lia. Qed.

Lemma move_off_weekend_cases (D : datetime) :
  valid_datetime D ->
  (weekday D = 5
   /\ toordinal (move_off_weekend D) = toordinal D + 2
   /\ weekday (move_off_weekend D) = 0)
  \/ (weekday D = 6
      /\ toordinal (move_off_weekend D) = toordinal D + 1
      /\ weekday (move_off_weekend D) = 0)
  \/ (0 <= weekday D < 5 /\ move_off_weekend D = D).
Proof.
  intros Hv. pose proof (ymd2ord_bounds _ _ _ Hv) as Hb. fold (toordinal D) in Hb.
  pose proof (weekday_range D) as Hw.
  unfold move_off_weekend.
  destruct (Z.eqb_spec (weekday D) 5) as [E5|E5];
    [|destruct (Z.eqb_spec (weekday D) 6) as [E6|E6]].
  - left. split; [exact E5|].
    rewrite (toordinal_plus_days D 2) by lia.
    split; [reflexivity|]. unfold weekday in *.
    rewrite (toordinal_plus_days D 2) by lia.
    Z.to_euclidean_division_equations. lia.
  - right. left. split; [exact E6|].
    rewrite (toordinal_plus_days D 1) by lia.
    split; [reflexivity|]. unfold weekday in *.
    rewrite (toordinal_plus_days D 1) by lia.
    Z.to_euclidean_division_equations. lia.
  - right. right. split; [lia | reflexivity].
Qed.

Lemma plus_days_valid (d : datetime) (n : Z) :
  1 <= toordinal d + n <= _MAXORDINAL -> valid_datetime (plus_days d n).
Proof.
  intros H. unfold valid_datetime, plus_days. cbn [year month day].
  apply ord2ymd_valid. exact H.
Qed.

(** The last day of the calendar is a Friday, so the move off a weekend stays
    inside the calendar. *)
Lemma move_off_weekend_valid (D : datetime) :
  valid_datetime D -> valid_datetime (move_off_weekend D).
Proof.
  intros Hv. pose proof (ymd2ord_bounds _ _ _ Hv) as Hb. fold (toordinal D) in Hb.
  unfold move_off_weekend, weekday, _MAXORDINAL in *.
  destruct (Z.eqb_spec ((toordinal D + 6) mod 7) 5) as [E5|E5];
    [|destruct (Z.eqb_spec ((toordinal D + 6) mod 7) 6) as [E6|E6]].
  - apply plus_days_valid. unfold _MAXORDINAL.
    Z.to_euclidean_division_equations. lia.
  - apply plus_days_valid. unfold _MAXORDINAL.
    Z.to_euclidean_division_equations. lia.
  - exact Hv.
Qed.

Lemma move_off_weekend_date_only (D : datetime) :
  date_only D -> date_only (move_off_weekend D).
Proof.
  intros H. unfold move_off_weekend.
  destruct (weekday D =? 5); [exact H|]. destruct (weekday D =? 6); exact H.
Qed.

Lemma this_year_date_only (today bday : datetime) :
  date_only bday -> date_only (this_year today bday).
Proof. intros H. unfold this_year. destruct (passed today bday); exact H. Qed.

(** The text of a date depends on its year, month and day only. *)
Lemma strftime_date_of (a b : datetime) :
  date_of a = date_of b -> strftime a = strftime b.
Proof.
  unfold date_of, strftime. intros H. inversion H as [[Hy Hm Hd]].
  rewrite Hy, Hm, Hd. reflexivity.
Qed.

(** C2.  Every entry of the result carries the in-window birthday date of its
    record, moved two days on when that date is a Saturday and one day on
    when it is a Sunday, which makes it a Monday, and left as it is on the
    other days.  The congratulation date is a date of the calendar, so the
    day count fixes its day, month and year: any date of the calendar with
    that ordinal prints as the same text.  With [today] = 10.06.2024 the
    birthday 15.06.1990 gives ["17.06.2024"] and the birthday 12.06.1990
    gives ["12.06.2024"]. *)
Theorem congratulation_date_off_weekend (records : list ContactRecord) (today : datetime) :
  valid_datetime today ->
  (forall out,
     get_upcoming_birthdays records today = inr out ->
     Forall2
       (fun r e =>
          entry_name e = value (name r)
          /\ exists bday C,
               bday_of r = Some bday
               /\ in_window today bday = true
               /\ valid_datetime (this_year today bday)
               /\ valid_datetime C /\ date_only C
               /\ entry_congratulation_date e = strftime C
               /\ (forall C', valid_datetime C' -> toordinal C' = toordinal C ->
                     entry_congratulation_date e = strftime C')
               /\ ((weekday (this_year today bday) = 5
                    /\ toordinal C = toordinal (this_year today bday) + 2
                    /\ weekday C = 0)
                   \/ (weekday (this_year today bday) = 6
                       /\ toordinal C = toordinal (this_year today bday) + 1
                       /\ weekday C = 0)
                   \/ (0 <= weekday (this_year today bday) < 5
                       /\ C = this_year today bday)))
       (filter (included today) records) out)
  /\ (Forall (year_replaceable today) records ->
      exists out, get_upcoming_birthdays records today = inr out)
  /\ (forall n, get_upcoming_birthdays [record_with_birthday n "15.06.1990"]
                  (mkDatetime 2024 6 10 0 0 0 0)
                = inr [mkEntry n "17.06.2024"])
  /\ (forall n, get_upcoming_birthdays [record_with_birthday n "12.06.1990"]
                  (mkDatetime 2024 6 10 0 0 0 0)
                = inr [mkEntry n "12.06.2024"]).
Proof.
  intros Hv.
  split; [|split; [apply get_upcoming_birthdays_returns_iff; exact Hv
                  |split; intros n; reflexivity]].
  intros out H. apply (get_upcoming_birthdays_inr today Hv records out) in H.
  destruct H as [Hall ->].
  induction Hall as [|r records Hr _ IH]; simpl; [constructor|].
  destruct (included today r) eqn:Hin; [|exact IH].
  simpl. constructor; [|exact IH].
  split; [reflexivity|].
  unfold included in Hin. unfold entry_for.
  destruct (bday_of r) as [bday|] eqn:Hb; [|discriminate].
  (* the birthday in this year, or the next, is a date of the calendar *)
  assert (valid_datetime (this_year today bday) /\ date_only bday) as [HvD Hdo].
  { unfold year_replaceable, bday_of in *.
    destruct (birthday (birthday_manager r)) as [b|]; [|discriminate].
    destruct Hr as [bday' [Hs [Hthis Hnext]]]. rewrite Hs in Hb.
    inversion Hb. subst bday'.
    destruct (strptime_inr _ _ Hs) as [Hvb Hdo].
    split; [|exact Hdo].
    exact (proj2 (this_year_valid today Hv bday Hvb Hthis Hnext)). }
  pose proof (move_off_weekend_valid _ HvD) as HvC.
  exists bday, (move_off_weekend (this_year today bday)).
  split; [reflexivity|]. split; [exact Hin|]. split; [exact HvD|].
  split; [exact HvC|].
  split; [apply move_off_weekend_date_only, this_year_date_only; exact Hdo|].
  split; [reflexivity|].
  split; [|apply move_off_weekend_cases; exact HvD].
  intros C' HvC' Hord. cbn [entry_congratulation_date].
  apply strftime_date_of. symmetry. apply toordinal_inj; assumption.
Qed.

Lemma congratulation_date_off_weekend_witness :
  Forall2
    (fun r e => entry_name e = value (name r))
    [record_with_birthday "ann" "15.06.1990"; record_with_birthday "bob" "16.06.1990"]
    [mkEntry "ann" "17.06.2024"; mkEntry "bob" "17.06.2024"].
Proof.
  pose proof (proj1 (congratulation_date_off_weekend
                [record_with_birthday "ann" "15.06.1990";
                 record_with_birthday "bob" "16.06.1990"]
                (mkDatetime 2024 6 10 9 30 0 0)
                ltac:(repeat split; vm_compute; discriminate))
              [mkEntry "ann" "17.06.2024"; mkEntry "bob" "17.06.2024"]
              ltac:(vm_compute; reflexivity)) as H.
  change (filter (included (mkDatetime 2024 6 10 9 30 0 0))
            [record_with_birthday "ann" "15.06.1990";
             record_with_birthday "bob" "16.06.1990"])
    with [record_with_birthday "ann" "15.06.1990"; record_with_birthday "bob" "16.06.1990"]
    in H.
  inversion H as [|r e l l' [H1 _] H2]; subst.
  inversion H2 as [|r' e' l2 l2' [H3 _] H4]; subst.
  repeat constructor; assumption.
Defined.

(** C10.  A record whose birthday is a 29 February makes the calculator
    raise when the year of [today] is not a leap year: alone or first in the
    list it raises the [ValueError] of the date construction, and anywhere in
    the list it keeps the calculator from returning. *)
Theorem feb29_birthday_raises (before after : list ContactRecord) (r : ContactRecord)
    (b : Birthday) (bday today : datetime) :
  birthday (birthday_manager r) = Some b ->
  strptime (value b) = inr bday ->
  month bday = 2 -> day bday = 29 ->
  _is_leap (year today) = false ->
  _is_leap (year bday) = true
  /\ (exists e, get_upcoming_birthdays (before ++ r :: after) today = inl e)
  /\ (MINYEAR <= year today <= MAXYEAR ->
      get_upcoming_birthdays (r :: after) today
      = inl (ValueError "day is out of range for month")).
Proof.
  intros Hb Hs Hm Hd Hleap.
  assert (forall upcoming, exists e, upcoming_body today upcoming r = inl e
            /\ (MINYEAR <= year today <= MAXYEAR ->
                e = ValueError "day is out of range for month")) as Hbody.
  { intros upcoming. unfold upcoming_body. rewrite Hb, Hs. cbn [rbind].
    unfold replace_year, datetime_new, _check_date_fields. rewrite Hm, Hd.
    destruct (negb ((MINYEAR <=? year today) && (year today <=? MAXYEAR))) eqn:Hy.
    - eexists. split; [reflexivity|]. intros [H1 H2].
      apply Z.leb_le in H1, H2. rewrite H1, H2 in Hy. discriminate Hy.
    - unfold _days_in_month. rewrite Hleap. simpl.
      eexists. split; [reflexivity|]. reflexivity. }
  split; [|split].
  - destruct (strptime_inr _ _ Hs) as [[_ [_ [_ Hdim]]] _].
    rewrite Hm, Hd in Hdim. unfold _days_in_month in Hdim.
    destruct (_is_leap (year bday)); [reflexivity|]. simpl in Hdim.
    change (zindex _DAYS_IN_MONTH 2) with 28 in Hdim. lia.
  - unfold get_upcoming_birthdays. generalize (@nil Entry) as upcoming.
    induction before as [|x before IH]; intros upcoming; simpl.
    + destruct (Hbody upcoming) as [e [He _]]. rewrite He. exists e. reflexivity.
    + destruct (upcoming_body today upcoming x) as [e|upcoming'].
      * exists e. reflexivity.
      * apply IH.
  - intros Hy. unfold get_upcoming_birthdays. simpl.
    destruct (Hbody []) as [e [He He']]. rewrite He, (He' Hy). reflexivity.
Qed.

Lemma feb29_birthday_raises_witness :
  get_upcoming_birthdays
    [record_with_birthday "bob" "29.02.2000"; record_with_birthday "ann" "12.06.1990"]
    (mkDatetime 2023 6 10 0 0 0 0)
  = inl (ValueError "day is out of range for month").
Proof.
  refine (proj2 (proj2 (feb29_birthday_raises []
            [record_with_birthday "ann" "12.06.1990"]
            (record_with_birthday "bob" "29.02.2000")
            (mkField "29.02.2000") (mkDatetime 2000 2 29 0 0 0 0)
            (mkDatetime 2023 6 10 0 0 0 0) _ _ _ _ _)) _).
  - reflexivity.
  - vm_compute. reflexivity.
  - reflexivity.
  - reflexivity.
  - vm_compute. reflexivity.
  - vm_compute. split; discriminate.
Defined.

(** ** The regular expression of [strptime] *)

Lemma rx_class_In (p : ascii -> bool) (s t r : string) :
  In (t, r) (rx_class p s) <->
  exists a, s = String a r /\ t = String a "" /\ p a = true.
Proof.
  unfold rx_class. destruct s as [|a s']; simpl.
  - split; [intros [] | intros [a [H _]]; discriminate H].
  - destruct (p a) eqn:Hp; simpl.
    + split.
      * intros [H|[]]. inversion H. subst. exists a. repeat split. exact Hp.
      * intros [a' [H1 [H2 _]]]. inversion H1. subst. left. reflexivity.
    + split; [intros [] | intros [a' [H1 [_ H3]]]]. inversion H1. subst. congruence.
Qed.

Lemma rx_seq_In (A B : rx) (s t r : string) :
  In (t, r) (rx_seq A B s) <->
  exists t1 r1 t2, In (t1, r1) (A s) /\ In (t2, r) (B r1) /\ t = t1 ++ t2.
Proof.
  unfold rx_seq. rewrite in_flat_map. split.
  - intros [[t1 r1] [H1 H2]]. apply in_map_iff in H2.
    destruct H2 as [[t2 r2] [E H2]]. simpl in E. inversion E. subst.
    exists t1, r1, t2. repeat split; assumption.
  - intros [t1 [r1 [t2 [H1 [H2 ->]]]]]. exists (t1, r1). split; [exact H1|].
    apply in_map_iff. exists (t2, r). split; [reflexivity | exact H2].
Qed.

Lemma rx_two_In (p q : ascii -> bool) (s t r : string) :
  In (t, r) (rx_seq (rx_class p) (rx_class q) s) <->
  exists a b, s = String a (String b r) /\ t = String a (String b "")
              /\ p a = true /\ q b = true.
Proof.
  rewrite rx_seq_In. split.
  - intros [t1 [r1 [t2 [H1 [H2 ->]]]]].
    apply rx_class_In in H1. destruct H1 as [a [-> [-> Ha]]].
    apply rx_class_In in H2. destruct H2 as [b [-> [-> Hb]]].
    exists a, b. repeat split; assumption.
  - intros [a [b [-> [-> [Ha Hb]]]]].
    exists (String a ""), (String b r), (String b "").
    repeat split; apply rx_class_In; eexists; repeat split; assumption.
Qed.

Ltac char_codes :=
  repeat match goal with
         | |- context [code (Ascii ?b0 ?b1 ?b2 ?b3 ?b4 ?b5 ?b6 ?b7)] =>
             let v := eval vm_compute in (code (Ascii b0 b1 b2 b3 b4 b5 b6 b7)) in
             change (code (Ascii b0 b1 b2 b3 b4 b5 b6 b7)) with v
         end.

Ltac bool_to_Z :=
  unfold is_dec, in_range, is_char, two_digits, digit_value; char_codes;
  rewrite ?orb_true_iff, ?andb_true_iff, ?Z.leb_le, ?Z.eqb_eq.

(** The two-character alternatives of the day group, read as a number. *)
Lemma day_two_chars (a b : ascii) :
  (is_char "3" a = true /\ in_range "0" "1" b = true)
  \/ (in_range "1" "2" a = true /\ in_range "0" "9" b = true)
  \/ (is_char "0" a = true /\ in_range "1" "9" b = true)
  \/ (is_char " " a = true /\ in_range "1" "9" b = true)
  <-> day_token (String a (String b "")) = true.
Proof. unfold day_token. bool_to_Z. lia. Qed.

Lemma month_two_chars (a b : ascii) :
  (is_char "1" a = true /\ in_range "0" "2" b = true)
  \/ (is_char "0" a = true /\ in_range "1" "9" b = true)
  <-> month_token (String a (String b "")) = true.
Proof. unfold month_token. bool_to_Z. lia. Qed.

Lemma re_d_In (s t r : string) :
  In (t, r) (re_d s) <-> s = t ++ r /\ day_token t = true.
Proof.
  unfold re_d, rx_alt, re_digit. rewrite !in_app_iff, !rx_two_In, rx_class_In. split.
  - intros H.
    assert ((exists a b, s = String a (String b r) /\ t = String a (String b "")
                         /\ day_token t = true)
            \/ (exists a, s = String a r /\ t = String a ""
                          /\ in_range "1" "9" a = true)) as H'.
    { destruct H as [H|[H|[H|[H|H]]]];
        try (destruct H as [a [b [Hs [Ht [Ha Hb]]]]]; left; exists a, b;
             split; [exact Hs|]; split; [exact Ht|]; subst t;
             apply day_two_chars; tauto).
      right. exact H. }
    destruct H' as [[a [b [-> [-> Hd]]]]|[a [-> [-> Hd]]]].
    + split; [reflexivity | exact Hd].
    + split; [reflexivity | exact Hd].
  - intros [-> Hd].
    destruct t as [|a [|b [|c t]]]; try discriminate Hd.
    + right. right. right. left. exists a. repeat split. exact Hd.
    + apply day_two_chars in Hd.
      destruct Hd as [[Ha Hb]|[[Ha Hb]|[[Ha Hb]|[Ha Hb]]]].
      * left. exists a, b. repeat split; assumption.
      * right. left. exists a, b. repeat split; assumption.
      * right. right. left. exists a, b. repeat split; assumption.
      * right. right. right. right. exists a, b. repeat split; assumption.
Qed.

Lemma re_m_In (s t r : string) :
  In (t, r) (re_m s) <-> s = t ++ r /\ month_token t = true.
Proof.
  unfold re_m, rx_alt. rewrite !in_app_iff, !rx_two_In, rx_class_In. split.
  - intros H.
    assert ((exists a b, s = String a (String b r) /\ t = String a (String b "")
                         /\ month_token t = true)
            \/ (exists a, s = String a r /\ t = String a ""
                          /\ in_range "1" "9" a = true)) as H'.
    { destruct H as [H|[H|H]];
        try (destruct H as [a [b [Hs [Ht [Ha Hb]]]]]; left; exists a, b;
             split; [exact Hs|]; split; [exact Ht|]; subst t;
             apply month_two_chars; tauto).
      right. exact H. }
    destruct H' as [[a [b [-> [-> Hd]]]]|[a [-> [-> Hd]]]].
    + split; [reflexivity | exact Hd].
    + split; [reflexivity | exact Hd].
  - intros [-> Hd].
    destruct t as [|a [|b [|c t]]]; try discriminate Hd.
    + right. right. exists a. repeat split. exact Hd.
    + apply month_two_chars in Hd.
      destruct Hd as [[Ha Hb]|[Ha Hb]].
      * left. exists a, b. repeat split; assumption.
      * right. left. exists a, b. repeat split; assumption.
Qed.

Lemma re_digit_In (s t r : string) :
  In (t, r) (re_digit s) <->
  exists a, s = String a r /\ t = String a "" /\ is_dec a = true.
Proof. apply rx_class_In. Qed.

Lemma re_Y_In (s t r : string) :
  In (t, r) (re_Y s) <-> s = t ++ r /\ year_token t = true.
Proof.
  unfold re_Y. split.
  - intros H.
    apply rx_seq_In in H. destruct H as [t1 [r1 [u1 [H1 [H ->]]]]].
    apply rx_seq_In in H. destruct H as [t2 [r2 [u2 [H2 [H ->]]]]].
    apply rx_seq_In in H. destruct H as [t3 [r3 [t4 [H3 [H4 ->]]]]].
    apply re_digit_In in H1, H2, H3, H4.
    destruct H1 as [a [-> [-> Ha]]]. destruct H2 as [b [-> [-> Hb]]].
    destruct H3 as [c [-> [-> Hc]]]. destruct H4 as [d [-> [-> Hd]]].
    split; [reflexivity|]. simpl. rewrite Ha, Hb, Hc, Hd. reflexivity.
  - intros [-> Hy].
    destruct t as [|a [|b [|c [|d [|e t]]]]]; try discriminate Hy.
    simpl in Hy. apply andb_true_iff in Hy. destruct Hy as [Hy Hd].
    apply andb_true_iff in Hy. destruct Hy as [Hy Hc].
    apply andb_true_iff in Hy. destruct Hy as [Ha Hb].
    apply rx_seq_In. exists (String a ""), (String b (String c (String d r))),
      (String b (String c (String d ""))).
    split; [apply re_digit_In; eexists; repeat split; assumption|].
    split; [|reflexivity].
    apply rx_seq_In. exists (String b ""), (String c (String d r)), (String c (String d "")).
    split; [apply re_digit_In; eexists; repeat split; assumption|].
    split; [|reflexivity].
    apply rx_seq_In. exists (String c ""), (String d r), (String d "").
    split; [apply re_digit_In; eexists; repeat split; assumption|].
    split; [|reflexivity].
    apply re_digit_In. eexists. repeat split. assumption.
Qed.

Lemma re_dot_In (s t r : string) :
  In (t, r) (re_dot s) <-> s = "." ++ r /\ t = ".".
Proof.
  unfold re_dot. rewrite rx_class_In. split.
  - intros [a [-> [-> Ha]]]. unfold is_char in Ha. apply Z.eqb_eq in Ha.
    assert (a = "."%char) as ->.
    { unfold code in Ha. apply N2Z.inj in Ha.
      rewrite <- (ascii_N_embedding a), Ha. reflexivity. }
    split; reflexivity.
  - intros [-> ->]. exists "."%char. repeat split.
Qed.

Lemma format_regex_matches_In (s d m y rest : string) :
  In (d, m, y, rest) (format_regex_matches s) <->
  s = d ++ "." ++ m ++ "." ++ y ++ rest
  /\ day_token d = true /\ month_token m = true /\ year_token y = true.
Proof.
  unfold format_regex_matches. split.
  - intros H.
    apply in_flat_map in H. destruct H as [[d' r1] [Hd H]].
    apply in_flat_map in H. destruct H as [[p1 r2] [Hp1 H]].
    apply in_flat_map in H. destruct H as [[m' r3] [Hm H]].
    apply in_flat_map in H. destruct H as [[p2 r4] [Hp2 H]].
    apply in_map_iff in H. destruct H as [[y' r5] [E Hy]].
    simpl in *. inversion E. subst d' m' y' r5.
    apply re_d_In in Hd. apply re_dot_In in Hp1. apply re_m_In in Hm.
    apply re_dot_In in Hp2. apply re_Y_In in Hy.
    destruct Hd as [-> Hd]. destruct Hp1 as [-> _]. destruct Hm as [-> Hm].
    destruct Hp2 as [-> _]. destruct Hy as [-> Hy].
    repeat split; assumption.
  - intros [-> [Hd [Hm Hy]]].
    apply in_flat_map. exists (d, "." ++ m ++ "." ++ y ++ rest).
    split; [apply re_d_In; split; [reflexivity | exact Hd]|].
    apply in_flat_map. exists (".", m ++ "." ++ y ++ rest).
    split; [apply re_dot_In; split; reflexivity|].
    apply in_flat_map. exists (m, "." ++ y ++ rest).
    split; [apply re_m_In; split; [reflexivity | exact Hm]|].
    apply in_flat_map. exists (".", y ++ rest).
    split; [apply re_dot_In; split; reflexivity|].
    apply in_map_iff. exists (y, rest).
    split; [reflexivity|]. apply re_Y_In. split; [reflexivity | exact Hy].
Qed.

Lemma day_token_short (t : string) : day_token t = true -> short_token t.
Proof.
  destruct t as [|a [|b [|c t]]]; try discriminate.
  - intros _. left. exists a. reflexivity.
  - intros H. right. exists a, b. split; [reflexivity|].
    revert H. unfold day_token. bool_to_Z. lia.
Qed.

Lemma month_token_short (t : string) : month_token t = true -> short_token t.
Proof.
  destruct t as [|a [|b [|c t]]]; try discriminate.
  - intros _. left. exists a. reflexivity.
  - intros H. right. exists a, b. split; [reflexivity|].
    revert H. unfold month_token. bool_to_Z. lia.
Qed.

Lemma short_token_unique (t t' x x' : string) :
  short_token t -> short_token t' ->
  t ++ "." ++ x = t' ++ "." ++ x' -> t = t' /\ x = x'.
Proof.
  intros [[a ->]|[a [b [-> Hb]]]] [[a' ->]|[a' [b' [-> Hb']]]] H;
    simpl in H; inversion H; subst; try discriminate; split; reflexivity.
Qed.

Lemma year_token_unique (y y' r r' : string) :
  year_token y = true -> year_token y' = true ->
  y ++ r = y' ++ r' -> y = y' /\ r = r'.
Proof.
  destruct y as [|a [|b [|c [|d [|e y]]]]]; try discriminate.
  destruct y' as [|a' [|b' [|c' [|d' [|e' y']]]]]; try discriminate.
  intros _ _ H. simpl in H. inversion H. split; reflexivity.
Qed.

Lemma str_append_nil_r (s : string) : s ++ "" = s.
Proof. induction s as [|c s IH]; simpl; [|rewrite IH]; reflexivity. Qed.

Lemma hd_error_In {A : Type} (l : list A) (x : A) : hd_error l = Some x -> In x l.
Proof. destruct l; simpl; [discriminate|]. intros H. inversion H. left. reflexivity. Qed.

Lemma format_regex_match_tokens (d m y : string) :
  day_token d = true -> month_token m = true -> year_token y = true ->
  format_regex_match (d ++ "." ++ m ++ "." ++ y) = Some (d, m, y, "").
Proof.
  intros Hd Hm Hy. unfold format_regex_match.
  assert (In (d, m, y, "") (format_regex_matches (d ++ "." ++ m ++ "." ++ y))) as Hin.
  { apply format_regex_matches_In. rewrite str_append_nil_r. repeat split; assumption. }
  destruct (format_regex_matches (d ++ "." ++ m ++ "." ++ y))
    as [|[[[d' m'] y'] rest'] l] eqn:E; [destruct Hin|].
  assert (In (d', m', y', rest') (format_regex_matches (d ++ "." ++ m ++ "." ++ y))) as H
    by (rewrite E; left; reflexivity).
  apply format_regex_matches_In in H. destruct H as [Heq [Hd' [Hm' Hy']]].
  apply short_token_unique in Heq;
    [|apply day_token_short; assumption | apply day_token_short; assumption].
  destruct Heq as [<- Heq].
  apply short_token_unique in Heq;
    [|apply month_token_short; assumption | apply month_token_short; assumption].
  destruct Heq as [<- Heq].
  rewrite <- (str_append_nil_r y) in Heq at 1.
  apply year_token_unique in Heq; [|assumption|assumption].
  destruct Heq as [<- <-]. reflexivity.
Qed.

Lemma strptime_tokens (d m y : string) :
  day_token d = true -> month_token m = true -> year_token y = true ->
  valid_date (py_int y) (py_int m) (py_int d) ->
  strptime (d ++ "." ++ m ++ "." ++ y)
  = inr (mkDatetime (py_int y) (py_int m) (py_int d) 0 0 0 0).
Proof.
  intros Hd Hm Hy Hv. unfold strptime.
  rewrite (format_regex_match_tokens d m y Hd Hm Hy). simpl.
  apply datetime_new_valid. exact Hv.
Qed.

Lemma strptime_inr_tokens (s : string) (t : datetime) :
  strptime s = inr t ->
  exists d m y,
    s = d ++ "." ++ m ++ "." ++ y
    /\ day_token d = true /\ month_token m = true /\ year_token y = true
    /\ valid_date (py_int y) (py_int m) (py_int d).
Proof.
  unfold strptime.
  destruct (format_regex_match s) as [[[[d m] y] rest]|] eqn:E; [|discriminate].
  destruct (String.eqb_spec rest "") as [->|Hr]; simpl; [|discriminate].
  intros H. apply datetime_new_inr in H. destruct H as [_ Hv].
  apply hd_error_In, format_regex_matches_In in E.
  destruct E as [Hs [Hd [Hm Hy]]]. rewrite str_append_nil_r in Hs.
  exists d, m, y. repeat split; try assumption; apply Hv.
Qed.

Lemma strptime_inl (s : string) (e : exn) :
  strptime s = inl e -> exists msg, e = ValueError msg.
Proof.
  unfold strptime.
  destruct (format_regex_match s) as [[[[d m] y] rest]|].
  - destruct (negb _).
    + intros H. inversion H. eexists. reflexivity.
    + unfold datetime_new, _check_date_fields, rbind.
      repeat match goal with
             | |- context [if ?c then _ else _] => destruct c
             end; intros H; inversion H; eexists; reflexivity.
  - intros H. inversion H. eexists. reflexivity.
Qed.

(** ** Birthday *)

Lemma days_in_month_le_31 (y m : Z) : 1 <= m <= 12 -> _days_in_month y m <= 31.
Proof.
  intros Hm. unfold _days_in_month.
  destruct ((m =? 2) && _is_leap y); [lia|].
  apply Z.leb_le.
  apply (forallb_below (fun k => zindex _DAYS_IN_MONTH k <=? 31) 13); [reflexivity | lia].
Qed.

Lemma py_int_two (a b : ascii) :
  is_dec a = true -> is_dec b = true ->
  py_int (String a (String b "")) = two_digits a b.
Proof.
  intros Ha Hb. unfold py_int, int_digits.
  assert (is_char " " a = false) as ->
    by (revert Ha; unfold is_dec, in_range, is_char; char_codes;
        rewrite andb_true_iff, !Z.leb_le, Z.eqb_neq; lia).
  assert (is_char " " b = false) as ->
    by (revert Hb; unfold is_dec, in_range, is_char; char_codes;
        rewrite andb_true_iff, !Z.leb_le, Z.eqb_neq; lia).
  unfold two_digits, digit_value. lia.
Qed.

Lemma py_int_four (a b c d : ascii) :
  is_dec a = true -> is_dec b = true -> is_dec c = true -> is_dec d = true ->
  py_int (String a (String b (String c (String d ""))))
  = two_digits a b * 100 + two_digits c d.
Proof.
  intros Ha Hb Hc Hd. unfold py_int, int_digits.
  assert (forall x, is_dec x = true -> is_char " " x = false) as Hsp.
  { intros x. unfold is_dec, in_range, is_char. char_codes.
    rewrite andb_true_iff, !Z.leb_le, Z.eqb_neq. lia. }
  rewrite (Hsp a Ha), (Hsp b Hb), (Hsp c Hc), (Hsp d Hd).
  unfold two_digits, digit_value. lia.
Qed.

(** Up to U+00FF the alternatives of each group are the number ranges of
    the tokens. *)
Lemma day_group_token (t : string) : day_group t = day_token t.
Proof.
  destruct t as [|a [|b [|c t]]]; try reflexivity.
  apply Bool.eq_iff_eq_true. rewrite <- day_two_chars.
  cbn [day_group]. unfold char_isdecimal.
  rewrite !orb_true_iff, !andb_true_iff. tauto.
Qed.

Lemma month_group_token (t : string) : month_group t = month_token t.
Proof.
  destruct t as [|a [|b [|c t]]]; try reflexivity.
  apply Bool.eq_iff_eq_true. rewrite <- month_two_chars.
  cbn [month_group]. rewrite !orb_true_iff, !andb_true_iff. tauto.
Qed.

Lemma year_group_token (t : string) : year_group t = year_token t.
Proof. reflexivity. Qed.

(** C6, as the code has it.  [Birthday.__init__] accepts exactly the strings
    day.month.year whose three parts are matched by the groups of the
    expression that [strptime] builds for ["%d.%m.%Y"] and whose numbers,
    read by [int], are a real calendar date.  The day is [3] and one of
    [0-1], or one of [1-2] and a character of the class [\d], or [0] and one
    of [1-9], or one of [1-9] alone or after a blank; the month is [1] and
    one of [0-2], or [0] and one of [1-9], or one of [1-9] alone; the year is
    four characters of the class [\d].  Every other string fails with
    [InvalidDate].  The strings in the strict form DD.MM.YYYY, written with
    the digits [0-9], that name a real date are accepted. *)
Theorem Birthday_init_accepts_iff (raw : string) :
  ((exists b, Birthday_init raw = inr b) <->
     exists d m y,
       raw = d ++ "." ++ m ++ "." ++ y
       /\ day_group d = true /\ month_group m = true /\ year_group y = true
       /\ valid_date (py_int y) (py_int m) (py_int d))
  /\ (Birthday_init raw = inr (mkField raw) \/ Birthday_init raw = inl InvalidDate)
  /\ (strict_DDMMYYYY raw = true -> Birthday_init raw = inr (mkField raw)).
Proof.
  assert (forall d m y,
            day_group d = true -> month_group m = true -> year_group y = true ->
            valid_date (py_int y) (py_int m) (py_int d) ->
            Birthday_init (d ++ "." ++ m ++ "." ++ y)
            = inr (mkField (d ++ "." ++ m ++ "." ++ y))) as Hacc.
  { intros d m y Hd Hm Hy Hv. unfold Birthday_init.
    rewrite day_group_token in Hd. rewrite month_group_token in Hm.
    rewrite year_group_token in Hy.
    rewrite (strptime_tokens d m y Hd Hm Hy Hv). reflexivity. }
  split; [split | split].
  - intros [b Hb]. unfold Birthday_init in Hb.
    destruct (strptime raw) as [[msg|msg]|t] eqn:E; try discriminate Hb.
    destruct (strptime_inr_tokens raw t E) as [d [m [y [Hraw [Hd [Hm [Hy Hv]]]]]]].
    exists d, m, y.
    rewrite day_group_token, month_group_token, year_group_token.
    repeat split; try assumption; apply Hv.
  - intros [d [m [y [-> [Hd [Hm [Hy Hv]]]]]]]. eexists. apply Hacc; assumption.
  - unfold Birthday_init. destruct (strptime raw) as [e|t] eqn:E.
    + right. destruct (strptime_inl _ _ E) as [msg ->]. reflexivity.
    + left. reflexivity.
  - unfold strict_DDMMYYYY. intros H.
    rewrite <- (string_of_list_ascii_of_string raw).
    destruct (list_ascii_of_string raw)
      as [|d1 [|d2 [|p1 [|m1 [|m2 [|p2 [|y1 [|y2 [|y3 [|y4 [|z l]]]]]]]]]]];
      try discriminate H.
    rewrite !andb_true_iff in H.
    destruct H as [[[[[[[[[[Hd1 Hd2] Hp1] Hm1] Hm2] Hp2] Hy1] Hy2] Hy3] Hy4] Hv].
    assert (forall p, is_char "." p = true -> p = "."%char) as Hdot.
    { intros p Hp. unfold is_char in Hp. apply Z.eqb_eq in Hp. unfold code in Hp.
      apply N2Z.inj in Hp. rewrite <- (ascii_N_embedding p), Hp. reflexivity. }
    apply Hdot in Hp1, Hp2. subst p1 p2.
    unfold valid_dateb in Hv. rewrite !andb_true_iff, !Z.leb_le in Hv.
    destruct Hv as [[[[[Hv1 Hv2] Hv3] Hv4] Hv5] Hv6].
    assert (1 <= two_digits m1 m2 <= 12) as Hm by (split; assumption).
    pose proof (days_in_month_le_31 (two_digits y1 y2 * 100 + two_digits y3 y4)
                  (two_digits m1 m2) Hm) as H31.
    assert (two_digits d1 d2 <= 31) as Hd31 by (eapply Z.le_trans; eassumption).
    apply (Hacc (String d1 (String d2 "")) (String m1 (String m2 ""))
                (String y1 (String y2 (String y3 (String y4 ""))))).
    + rewrite day_group_token. simpl. apply orb_true_iff. left.
      rewrite !andb_true_iff, !Z.leb_le. repeat split; assumption.
    + rewrite month_group_token. simpl.
      rewrite !andb_true_iff, !Z.leb_le. repeat split; assumption.
    + rewrite year_group_token. simpl. rewrite !andb_true_iff. repeat split; assumption.
    + rewrite py_int_four, !py_int_two by assumption.
      unfold valid_date. repeat split; assumption.
Qed.

Lemma Birthday_init_accepts_iff_witness :
  strict_DDMMYYYY "29.02.2024" = true
  /\ Birthday_init "29.02.2024" = inr (mkField "29.02.2024").
Proof.
  split; [vm_compute; reflexivity|].
  apply (proj2 (proj2 (Birthday_init_accepts_iff "29.02.2024"))).
  vm_compute. reflexivity.
Defined.

(** C6, as stated, fails: a day and a month of one digit each are not in the
    form DD.MM.YYYY, and [Birthday.__init__] accepts them. *)
Lemma Birthday_init_one_digit_counterexample :
  strict_DDMMYYYY "1.6.1990" = false
  /\ Birthday_init "1.6.1990" = inr (mkField "1.6.1990").
Proof. split; vm_compute; reflexivity. Qed.

(** * Further properties *)

(** ** PhoneManager: find, add, remove *)

Lemma find_phone_None (ps : list Phone) (x : string) :
  find_phone ps x = None <-> (forall q, In q ps -> value q <> x).
Proof.
  induction ps as [|p ps IH]; simpl.
  - split; [intros _ q [] | reflexivity].
  - destruct (String.eqb_spec (value p) x) as [E|E].
    + split; [discriminate|]. intros H. exfalso. exact (H p (or_introl eq_refl) E).
    + rewrite IH. split.
      * intros H q [<-|Hq]; [exact E | exact (H q Hq)].
      * intros H q Hq. apply H. right. exact Hq.
Qed.

Lemma find_phone_Some (ps : list Phone) (x : string) (p : Phone) :
  find_phone ps x = Some p ->
  value p = x
  /\ exists before after,
       ps = (before ++ p :: after)%list /\ (forall q, In q before -> value q <> x).
Proof.
  induction ps as [|q ps IH]; simpl; [discriminate|].
  destruct (String.eqb_spec (value q) x) as [E|E].
  - intros H. inversion H. subst q. split; [exact E|].
    exists [], ps. split; [reflexivity | intros q []].
  - intros H. destruct (IH H) as [Hv [before [after [-> Hno]]]].
    split; [exact Hv|]. exists (q :: before), after. split; [reflexivity|].
    intros y [<-|Hy]; [exact E | exact (Hno y Hy)].
Qed.

Lemma find_phone_app (ps qs : list Phone) (x : string) :
  find_phone (ps ++ qs) x
  = match find_phone ps x with
    | Some p => Some p
    | None => find_phone qs x
    end.
Proof.
  induction ps as [|p ps IH]; simpl; [reflexivity|].
  destruct (value p =? x)%string; [reflexivity | exact IH].
Qed.

Lemma find_phone_filter_other (ps : list Phone) (x y : string) :
  y <> x ->
  find_phone (filter (fun p => negb (value p =? x)%string) ps) y = find_phone ps y.
Proof.
  intros Hxy. induction ps as [|p ps IH]; simpl; [reflexivity|].
  destruct (String.eqb_spec (value p) x) as [E|E]; simpl.
  - destruct (String.eqb_spec (value p) y) as [E'|E']; [congruence | exact IH].
  - destruct (value p =? y)%string; [reflexivity | exact IH].
Qed.

(** X1.  [find_phone] returns the first phone whose value is the number asked
    for, and [None] exactly when no phone has that value. *)
Theorem find_phone_first_match (ps : list Phone) (x : string) :
  (find_phone ps x = None <-> (forall q, In q ps -> value q <> x))
  /\ (forall p, find_phone ps x = Some p ->
        value p = x
        /\ exists before after,
             ps = (before ++ p :: after)%list
             /\ (forall q, In q before -> value q <> x)).
Proof.
  split; [apply find_phone_None | intros p; apply find_phone_Some].
Qed.

(** X2.  [add_phone] with a valid number appends it after the phones already
    there, whether or not the number is already present; the number is then
    found, and the search for any other number gives what it gave before.
    With an invalid number it raises and the phones are unchanged. *)
Theorem add_phone_then_find (self : PhoneManager) (x : string) :
  (forall p, Phone_init x = inr p ->
     add_phone x self = (inr tt, mkPhoneManager (phones self ++ [mkField x]))
     /\ (exists q, find_phone (phones self ++ [mkField x]) x = Some q /\ value q = x)
     /\ (forall y, y <> x ->
           find_phone (phones self ++ [mkField x]) y = find_phone (phones self) y))
  /\ (forall e, Phone_init x = inl e -> add_phone x self = (inl InvalidPhone, self)).
Proof.
  split.
  - intros p Hp. pose proof (Phone_init_inr _ _ Hp) as [-> _].
    split; [unfold add_phone, mbind, mlift, mget, mput; rewrite Hp; reflexivity|].
    split.
    + rewrite find_phone_app.
      destruct (find_phone (phones self) x) as [q|] eqn:E.
      * exists q. split; [reflexivity|]. apply (find_phone_Some _ _ _ E).
      * exists (mkField x). simpl. rewrite String.eqb_refl. split; reflexivity.
    + intros y Hy. rewrite find_phone_app.
      destruct (find_phone (phones self) y); [reflexivity|].
      simpl. destruct (String.eqb_spec x y) as [E|E]; [congruence | reflexivity].
  - intros e He. unfold add_phone, mbind, mlift. rewrite He.
    apply Phone_init_inl in He. subst e. reflexivity.
Qed.

Lemma add_phone_then_find_witness :
  add_phone "1111111111" (mkPhoneManager [mkField "1111111111"])
  = (inr tt, mkPhoneManager [mkField "1111111111"; mkField "1111111111"]).
Proof.
  exact (proj1 (proj1 (add_phone_then_find (mkPhoneManager [mkField "1111111111"])
                         "1111111111") (mkField "1111111111") eq_refl)).
Defined.

(** X3.  [remove_phone] never raises.  Afterwards the number is not found, the
    search for any other number gives what it gave before, the phones kept
    are in their old order, and a number that was not there leaves the phones
    as they were. *)
Theorem remove_phone_then_find (self : PhoneManager) (x : string) :
  exists ps,
    remove_phone x self = (inr tt, mkPhoneManager ps)
    /\ find_phone ps x = None
    /\ (forall y, y <> x -> find_phone ps y = find_phone (phones self) y)
    /\ ps = filter (fun p => negb (value p =? x)%string) (phones self)
    /\ (find_phone (phones self) x = None -> ps = phones self).
Proof.
  exists (filter (fun p => negb (value p =? x)%string) (phones self)).
  split; [reflexivity|]. split; [|split; [|split]].
  - apply find_phone_None. intros q Hq. apply filter_In in Hq. destruct Hq as [_ Hq].
    destruct (String.eqb_spec (value q) x); [discriminate Hq | assumption].
  - intros y Hy. apply find_phone_filter_other. exact Hy.
  - reflexivity.
  - intros H. rewrite find_phone_None in H.
    induction (phones self) as [|p ps IH]; simpl; [reflexivity|].
    destruct (String.eqb_spec (value p) x) as [E|E]; simpl.
    + exfalso. exact (H p (or_introl eq_refl) E).
    + rewrite IH; [reflexivity|]. intros q Hq. apply H. right. exact Hq.
Qed.

(** ** AddressBook: add_record, find, delete *)

Lemma dict_get_set_other (k k' : string) (v : ContactRecord) (d : dict) :
  k' <> k -> dict_get k' (dict_set k v d) = dict_get k' d.
Proof.
  intros Hk. induction d as [|[k0 v0] d IH]; simpl.
  - destruct (String.eqb_spec k k'); [congruence | reflexivity].
  - destruct (String.eqb_spec k0 k) as [E|E]; simpl.
    + subst k0. destruct (String.eqb_spec k k'); [congruence | reflexivity].
    + destruct (k0 =? k')%string; [reflexivity | exact IH].
Qed.

Lemma dict_get_In_keys (k : string) (d : dict) :
  dict_get k d = None <-> ~ In k (map fst d).
Proof.
  induction d as [|[k0 v0] d IH]; simpl.
  - split; [intros _ [] | reflexivity].
  - destruct (String.eqb_spec k0 k) as [E|E].
    + split; [discriminate | intros H; exfalso; apply H; left; exact E].
    + rewrite IH. split; [intros H [H'|H']; [exact (E H') | exact (H H')]|].
      intros H H'. apply H. right. exact H'.
Qed.

Lemma dict_set_keys_present (k : string) (v r : ContactRecord) (d : dict) :
  dict_get k d = Some r -> map fst (dict_set k v d) = map fst d.
Proof.
  induction d as [|[k0 v0] d IH]; simpl; [discriminate|].
  destruct (String.eqb_spec k0 k) as [E|E]; simpl.
  - intros _. subst k0. reflexivity.
  - intros H. rewrite (IH H). reflexivity.
Qed.

Lemma dict_set_NoDup (k : string) (v : ContactRecord) (d : dict) :
  NoDup (map fst d) -> NoDup (map fst (dict_set k v d)).
Proof.
  intros H. destruct (dict_get k d) as [r|] eqn:E.
  - rewrite (dict_set_keys_present k v r d E). exact H.
  - rewrite (dict_set_absent k v d E), map_app. simpl.
    apply NoDup_app.
    + exact H.
    + constructor; [intros [] | constructor].
    + intros x Hx [<-|[]]. apply dict_get_In_keys in E. exact (E Hx).
Qed.

Lemma dict_set_same (k : string) (r : ContactRecord) (d : dict) :
  dict_get k d = Some r -> dict_set k r d = d.
Proof.
  induction d as [|[k0 v0] d IH]; simpl; [discriminate|].
  destruct (String.eqb_spec k0 k) as [E|E].
  - intros H. inversion H. subst. reflexivity.
  - intros H. rewrite (IH H). reflexivity.
Qed.

Lemma dict_del_get_other (k k' : string) (d : dict) :
  k' <> k -> dict_get k' (dict_del k d) = dict_get k' d.
Proof.
  intros Hk. induction d as [|[k0 v0] d IH]; simpl; [reflexivity|].
  destruct (String.eqb_spec k0 k) as [E|E]; simpl.
  - subst k0. destruct (String.eqb_spec k k'); [congruence | reflexivity].
  - destruct (k0 =? k')%string; [reflexivity | exact IH].
Qed.

Lemma dict_del_keys (k : string) (d : dict) :
  forall x, In x (map fst (dict_del k d)) -> In x (map fst d).
Proof.
  induction d as [|[k0 v0] d IH]; simpl; [intros x []|].
  destruct (k0 =? k)%string; simpl.
  - intros x Hx. right. exact Hx.
  - intros x [Hx|Hx]; [left; exact Hx | right; exact (IH x Hx)].
Qed.

Lemma dict_del_NoDup (k : string) (d : dict) :
  NoDup (map fst d) -> NoDup (map fst (dict_del k d)) /\ dict_get k (dict_del k d) = None.
Proof.
  induction d as [|[k0 v0] d IH]; simpl; [intros _; split; [constructor | reflexivity]|].
  intros H. inversion H as [|x l Hnot Hnd]. subst.
  destruct (String.eqb_spec k0 k) as [E|E]; simpl.
  - subst k0. split; [exact Hnd|]. apply dict_get_In_keys. exact Hnot.
  - destruct (IH Hnd) as [H1 H2]. split.
    + constructor; [|exact H1]. intros Hin. apply Hnot. exact (dict_del_keys _ _ _ Hin).
    + destruct (String.eqb_spec k0 k); [contradiction | exact H2].
Qed.

(** X4.  After [add_record] the record is found under its name and every
    other name finds what it found before; the keys stay distinct; a name
    already in the book keeps its place, a new name goes to the end. *)
Theorem add_record_then_find (record : ContactRecord) (book : AddressBook) :
  exists book',
    add_record record book = (inr tt, book')
    /\ find (value (name record)) book' = (inr (Some record), book')
    /\ (forall k, k <> value (name record) -> find k book' = (fst (find k book), book'))
    /\ (NoDup (map fst (data book)) -> NoDup (map fst (data book')))
    /\ (forall old, dict_get (value (name record)) (data book) = Some old ->
          map fst (data book') = map fst (data book))
    /\ (dict_get (value (name record)) (data book) = None ->
          data book' = (data book ++ [(value (name record), record)])%list).
Proof.
  exists (mkAddressBook (dict_set (value (name record)) record (data book))).
  split; [reflexivity|]. split; [|split; [|split; [|split]]].
  - unfold find, mbind, mget, mret. simpl. rewrite dict_get_set_same. reflexivity.
  - intros k Hk. unfold find, mbind, mget, mret. simpl.
    rewrite dict_get_set_other by exact Hk. reflexivity.
  - apply dict_set_NoDup.
  - intros old H. simpl. exact (dict_set_keys_present _ _ _ _ H).
  - intros H. simpl. exact (dict_set_absent _ _ _ H).
Qed.

(** X5.  In a book with distinct keys, after [delete] the name finds nothing
    and every other name finds what it found before; the keys stay
    distinct; deleting a name that is not in the book changes nothing and
    does not raise. *)
Theorem delete_then_find (n : string) (book : AddressBook) :
  NoDup (map fst (data book)) ->
  exists book',
    delete n book = (inr tt, book')
    /\ find n book' = (inr None, book')
    /\ (forall k, k <> n -> find k book' = (fst (find k book), book'))
    /\ NoDup (map fst (data book'))
    /\ (dict_get n (data book) = None -> book' = book).
Proof.
  intros Hnd. unfold delete, find, mbind, mget, mret, mput.
  destruct (dict_get n (data book)) as [r|] eqn:E.
  - exists (mkAddressBook (dict_del n (data book))).
    destruct (dict_del_NoDup n (data book) Hnd) as [H1 H2].
    split; [reflexivity|]. split; [simpl; rewrite H2; reflexivity|].
    split; [|split; [exact H1 | discriminate]].
    intros k Hk. simpl. rewrite dict_del_get_other by exact Hk. reflexivity.
  - exists book. split; [reflexivity|]. split; [simpl; rewrite E; reflexivity|].
    split; [intros k _; reflexivity|]. split; [exact Hnd | reflexivity].
Qed.

Lemma delete_then_find_witness :
  exists book',
    delete "ann" (mkAddressBook [("ann", Record_init "ann"); ("bob", Record_init "bob")])
    = (inr tt, book')
    /\ find "ann" book' = (inr None, book').
Proof.
  destruct (delete_then_find "ann"
              (mkAddressBook [("ann", Record_init "ann"); ("bob", Record_init "bob")]))
    as [book' [H1 [H2 _]]].
  - simpl. repeat constructor; simpl; intuition discriminate.
  - exists book'. split; assumption.
Defined.

(** ** Commands: what a call leaves in the book *)

Lemma dict_get_In (k : string) (v : ContactRecord) (d : dict) :
  dict_get k d = Some v -> In (k, v) d.
Proof.
  induction d as [|[k0 v0] d IH]; simpl; [discriminate|].
  destruct (String.eqb_spec k0 k) as [E|E].
  - intros H. inversion H. subst. left. reflexivity.
  - intros H. right. exact (IH H).
Qed.

Lemma edit_phone_loop_outcome (todo : list Phone) (old_phone new_phone : string) :
  forall i self r self',
    edit_phone_loop todo i old_phone new_phone self = (r, self') ->
    (r = inr false /\ self' = self)
    \/ (r = inr true
        /\ exists j, self' = mkPhoneManager (set_value_at j new_phone (phones self))).
Proof.
  induction todo as [|p todo IH]; intros i self r self' H; simpl in H.
  - inversion H. left. split; reflexivity.
  - destruct (value p =? old_phone)%string.
    + inversion H. right. split; [reflexivity|]. exists i. reflexivity.
    + exact (IH _ _ _ _ H).
Qed.

Lemma edit_phone_outcome (old_phone new_phone : string) (self : PhoneManager)
    (r : result unit) (self' : PhoneManager) :
  edit_phone old_phone new_phone self = (r, self') ->
  (exists e, r = inl e /\ self' = self
             /\ (e = InvalidPhone \/ e = PhoneNotFound old_phone))
  \/ (r = inr tt /\ Phone_init new_phone = inr (mkField new_phone)
      /\ exists j, self' = mkPhoneManager (set_value_at j new_phone (phones self))).
Proof.
  unfold edit_phone, mbind, mlift, mget, mret, mraise.
  destruct (Phone_init new_phone) as [e|p] eqn:Hp.
  - intros H. inversion H. left. exists e. apply Phone_init_inl in Hp.
    repeat split. left. exact Hp.
  - apply Phone_init_inr in Hp. destruct Hp as [-> [Hl Hd]].
    destruct (edit_phone_loop (phones self) 0 old_phone new_phone self)
      as [rl sl] eqn:El.
    destruct (edit_phone_loop_outcome _ _ _ _ _ _ _ El) as [[-> ->]|[-> [j ->]]].
    + intros H. inversion H. left. eexists. repeat split. right. reflexivity.
    + intros H. inversion H. right. split; [reflexivity|].
      split; [reflexivity|]. exists j. reflexivity.
Qed.

Lemma Birthday_init_inr (v : string) (b : Birthday) :
  Birthday_init v = inr b -> b = mkField v.
Proof.
  unfold Birthday_init. destruct (strptime v) as [[m|m]|t]; try discriminate.
  intros H. inversion H. reflexivity.
Qed.

Lemma Birthday_init_inl (v : string) (e : exn) :
  Birthday_init v = inl e -> e = InvalidDate.
Proof.
  unfold Birthday_init. destruct (strptime v) as [e'|t] eqn:E; [|discriminate].
  destruct (strptime_inl _ _ E) as [msg ->]. intros H. inversion H. reflexivity.
Qed.

(** X6.  [add] with a valid phone answers ["Contact added."]; the contact then
    has the phone after the phones it had (a new contact has just this
    phone and no birthday), its name and birthday are untouched, every other
    contact is as before, and a contact already in the book keeps its
    place. *)
Theorem add_contact_appends_phone (now : datetime) (book : AddressBook)
    (n phone : string) (p : Phone) :
  Phone_init phone = inr p ->
  exists book',
    execute now AddContactCommand [n; phone] book = (inr "Contact added.", book')
    /\ dict_get n (data book')
       = Some (match dict_get n (data book) with
               | Some r => mkRecord (name r)
                             (mkPhoneManager (phones (phone_manager r) ++ [mkField phone]))
                             (birthday_manager r)
               | None => mkRecord (mkField n) (mkPhoneManager [mkField phone])
                           (mkBirthdayManager None)
               end)
    /\ (forall k, k <> n -> dict_get k (data book') = dict_get k (data book))
    /\ (forall r, dict_get n (data book) = Some r ->
          map fst (data book') = map fst (data book))
    /\ (dict_get n (data book) = None ->
          map fst (data book') = (map fst (data book) ++ [n])%list).
Proof.
  intros Hp. pose proof (Phone_init_inr _ _ Hp) as [-> _].
  simpl. unfold AddContactCommand_execute. simpl.
  unfold mbind, find, mget, mret, add_record, mput, in_record, in_phone_manager,
    add_phone, mlift. simpl.
  destruct (dict_get n (data book)) as [r|] eqn:E; simpl; rewrite Hp; simpl.
  - rewrite (dict_replace_present _ _ _ _ E).
    eexists. split; [reflexivity|]. simpl.
    split; [apply dict_get_set_same|].
    split; [intros k Hk; apply dict_get_set_other; exact Hk|].
    split; [intros r' _; exact (dict_set_keys_present _ _ _ _ E) | discriminate].
  - rewrite dict_replace_after_set. eexists. split; [reflexivity|]. simpl.
    split; [apply dict_get_set_same|].
    split; [intros k Hk; apply dict_get_set_other; exact Hk|].
    split; [discriminate|].
    intros _. rewrite (dict_set_absent _ _ _ E), map_app. reflexivity.
Qed.

Lemma add_contact_appends_phone_witness :
  exists book',
    execute (mkDatetime 2024 6 10 0 0 0 0) AddContactCommand ["john"; "1234567890"]
            (mkAddressBook []) = (inr "Contact added.", book')
    /\ dict_get "john" (data book')
       = Some (mkRecord (mkField "john") (mkPhoneManager [mkField "1234567890"])
                        (mkBirthdayManager None)).
Proof.
  destruct (add_contact_appends_phone (mkDatetime 2024 6 10 0 0 0 0) (mkAddressBook [])
              "john" "1234567890" (mkField "1234567890") eq_refl)
    as [book' [H1 [H2 _]]].
  exists book'. split; [exact H1 | exact H2].
Defined.

(** X7.  After [add] of a valid phone for a name that was not in the book,
    [phone] for that name prints the name and exactly that phone. *)
Theorem add_then_show_phone (now now' : datetime) (book : AddressBook)
    (n phone : string) (p : Phone) :
  dict_get n (data book) = None ->
  Phone_init phone = inr p ->
  exists book',
    execute now AddContactCommand [n; phone] book = (inr "Contact added.", book')
    /\ execute now' ShowPhoneCommand [n] book'
       = (inr ("Contact name: " ++ n ++ ", phones: " ++ phone), book').
Proof.
  intros Habs Hp. pose proof (Phone_init_inr _ _ Hp) as [-> _].
  simpl. unfold AddContactCommand_execute, ShowPhoneCommand_execute. simpl.
  unfold mbind, find, mget, mret, add_record, mput, in_record, in_phone_manager,
    add_phone, mlift. simpl.
  rewrite Habs. simpl. rewrite Hp. simpl. rewrite dict_replace_after_set.
  eexists. split; [reflexivity|]. simpl.
  rewrite dict_get_set_same.
  unfold Record_str, get_phones_str, get_birthday_str, Field_str. simpl.
  rewrite str_append_nil_r. reflexivity.
Qed.

Lemma add_then_show_phone_witness :
  exists book',
    execute (mkDatetime 2024 6 10 0 0 0 0) AddContactCommand ["john"; "1234567890"]
            (mkAddressBook []) = (inr "Contact added.", book')
    /\ execute (mkDatetime 2024 6 11 0 0 0 0) ShowPhoneCommand ["john"] book'
       = (inr "Contact name: john, phones: 1234567890", book').
Proof.
  exact (add_then_show_phone (mkDatetime 2024 6 10 0 0 0 0) (mkDatetime 2024 6 11 0 0 0 0)
           (mkAddressBook []) "john" "1234567890" (mkField "1234567890")
           eq_refl eq_refl).
Defined.

(** X8.  [change] for a contact of the book: when [edit_phone] succeeds the
    answer is ["Phone number updated."], the contact has the edited phones
    and every other contact is as before; when [edit_phone] raises, which it
    does with [InvalidPhone] or [PhoneNotFound] only, the same exception
    leaves [change] and the book is as it was. *)
Theorem change_contact_outcome (now : datetime) (book : AddressBook)
    (n old_phone new_phone : string) (r : ContactRecord) :
  dict_get n (data book) = Some r ->
  (forall pm, edit_phone old_phone new_phone (phone_manager r) = (inr tt, pm) ->
     exists book',
       execute now ChangeContactCommand [n; old_phone; new_phone] book
       = (inr "Phone number updated.", book')
       /\ dict_get n (data book') = Some (mkRecord (name r) pm (birthday_manager r))
       /\ (forall k, k <> n -> dict_get k (data book') = dict_get k (data book))
       /\ map fst (data book') = map fst (data book))
  /\ (forall e pm, edit_phone old_phone new_phone (phone_manager r) = (inl e, pm) ->
        execute now ChangeContactCommand [n; old_phone; new_phone] book = (inl e, book)
        /\ (e = InvalidPhone \/ e = PhoneNotFound old_phone)).
Proof.
  intros Hr. split.
  - intros pm He. simpl. unfold ChangeContactCommand_execute. simpl.
    unfold mbind, find, mget, mret, in_record, in_phone_manager. simpl.
    rewrite Hr, He. simpl. rewrite (dict_replace_present _ _ _ _ Hr).
    eexists. split; [reflexivity|]. simpl.
    split; [apply dict_get_set_same|].
    split; [intros k Hk; apply dict_get_set_other; exact Hk|].
    exact (dict_set_keys_present _ _ _ _ Hr).
  - intros e pm He.
    destruct (edit_phone_outcome _ _ _ _ _ He) as [[e' [E [-> Hk]]]|[E _]];
      [|discriminate E].
    inversion E. subst e'. split; [|exact Hk].
    simpl. unfold ChangeContactCommand_execute. simpl.
    unfold mbind, find, mget, mret, in_record, in_phone_manager. simpl.
    rewrite Hr, He. simpl. rewrite (dict_replace_present _ _ _ _ Hr).
    destruct r as [nm pmr bm]. simpl. rewrite (dict_set_same _ _ _ Hr).
    destruct book. reflexivity.
Qed.

Lemma change_contact_outcome_witness :
  execute (mkDatetime 2024 6 10 0 0 0 0) ChangeContactCommand
          ["john"; "0000000000"; "2222222222"]
          (mkAddressBook [("john", mkRecord (mkField "john")
                                     (mkPhoneManager [mkField "1111111111"])
                                     (mkBirthdayManager None))])
  = (inl (PhoneNotFound "0000000000"),
     mkAddressBook [("john", mkRecord (mkField "john")
                               (mkPhoneManager [mkField "1111111111"])
                               (mkBirthdayManager None))]).
Proof.
  refine (proj1 (proj2 (change_contact_outcome (mkDatetime 2024 6 10 0 0 0 0)
            (mkAddressBook [("john", mkRecord (mkField "john")
                                       (mkPhoneManager [mkField "1111111111"])
                                       (mkBirthdayManager None))])
            "john" "0000000000" "2222222222"
            (mkRecord (mkField "john") (mkPhoneManager [mkField "1111111111"])
                      (mkBirthdayManager None)) eq_refl)
            (PhoneNotFound "0000000000") (mkPhoneManager [mkField "1111111111"]) _)).
  reflexivity.
Defined.

(** X9.  [add-birthday] for a contact of the book: a valid date is stored,
    replacing any earlier one, and [show-birthday] then prints the name and
    that very string; an invalid date fails with [InvalidDate] and the book
    is as it was.  For a contact without birthday [show-birthday] answers
    ["Birthday not set."]. *)
Theorem add_birthday_then_show (now now' : datetime) (book : AddressBook)
    (n b : string) (r : ContactRecord) :
  dict_get n (data book) = Some r ->
  (forall bd, Birthday_init b = inr bd ->
     exists book',
       execute now AddBirthdayCommand [n; b] book = (inr "Birthday added.", book')
       /\ dict_get n (data book')
          = Some (mkRecord (name r) (phone_manager r) (mkBirthdayManager (Some (mkField b))))
       /\ (forall k, k <> n -> dict_get k (data book') = dict_get k (data book))
       /\ execute now' ShowBirthdayCommand [n] book'
          = (inr (value (name r) ++ "'s birthday: " ++ b), book'))
  /\ (forall e, Birthday_init b = inl e ->
        execute now AddBirthdayCommand [n; b] book = (inl InvalidDate, book))
  /\ (birthday (birthday_manager r) = None ->
        execute now ShowBirthdayCommand [n] book = (inr "Birthday not set.", book)).
Proof.
  intros Hr. split; [|split].
  - intros bd Hb. pose proof (Birthday_init_inr _ _ Hb) as ->.
    simpl. unfold AddBirthdayCommand_execute, ShowBirthdayCommand_execute. simpl.
    unfold mbind, find, mget, mret, in_record, in_birthday_manager, add_birthday,
      mlift, mput. simpl.
    rewrite Hr. simpl. rewrite Hb. simpl. rewrite (dict_replace_present _ _ _ _ Hr).
    eexists. split; [reflexivity|]. simpl. rewrite dict_get_set_same. simpl.
    split; [reflexivity|].
    split; [intros k Hk; apply dict_get_set_other; exact Hk | reflexivity].
  - intros e Hb. pose proof (Birthday_init_inl _ _ Hb) as ->.
    simpl. unfold AddBirthdayCommand_execute. simpl.
    unfold mbind, find, mget, mret, in_record, in_birthday_manager, add_birthday,
      mlift, mput. simpl.
    rewrite Hr. simpl. rewrite Hb. simpl. rewrite (dict_replace_present _ _ _ _ Hr).
    destruct r as [nm pm bm]. simpl. rewrite (dict_set_same _ _ _ Hr).
    destruct book. reflexivity.
  - intros Hnone. simpl. unfold ShowBirthdayCommand_execute. simpl.
    unfold mbind, find, mget, mret. simpl. rewrite Hr, Hnone. reflexivity.
Qed.

Lemma add_birthday_then_show_witness :
  exists book',
    execute (mkDatetime 2024 6 10 0 0 0 0) AddBirthdayCommand ["john"; "15.06.1990"]
            (mkAddressBook [("john", Record_init "john")])
    = (inr "Birthday added.", book')
    /\ execute (mkDatetime 2024 6 10 0 0 0 0) ShowBirthdayCommand ["john"] book'
       = (inr "john's birthday: 15.06.1990", book').
Proof.
  destruct (proj1 (add_birthday_then_show (mkDatetime 2024 6 10 0 0 0 0)
              (mkDatetime 2024 6 10 0 0 0 0)
              (mkAddressBook [("john", Record_init "john")])
              "john" "15.06.1990" (Record_init "john") eq_refl)
              (mkField "15.06.1990") ltac:(vm_compute; reflexivity))
    as [book' [H1 [_ [_ H2]]]].
  exists book'. split; [exact H1 | exact H2].
Defined.

(** ** parse_input *)

Lemma char_lower_isspace (c : ascii) : char_isspace (char_lower c) = char_isspace c.
Proof. destruct c as [[|] [|] [|] [|] [|] [|] [|] [|]]; reflexivity. Qed.

Lemma char_lower_idem (c : ascii) : char_lower (char_lower c) = char_lower c.
Proof. destruct c as [[|] [|] [|] [|] [|] [|] [|] [|]]; reflexivity. Qed.

Lemma str_lower_app (a b : string) : str_lower (a ++ b) = str_lower a ++ str_lower b.
Proof. induction a as [|c a IH]; simpl; [|rewrite IH]; reflexivity. Qed.

Lemma str_lower_idem (s : string) : str_lower (str_lower s) = str_lower s.
Proof.
  induction s as [|c s IH]; simpl; [reflexivity|].
  rewrite char_lower_idem, IH. reflexivity.
Qed.

Lemma str_all_app (p : ascii -> bool) (a b : string) :
  str_all p (a ++ b) = str_all p a && str_all p b.
Proof.
  induction a as [|c a IH]; simpl; [reflexivity|].
  rewrite IH, andb_assoc. reflexivity.
Qed.

Lemma str_all_lower_isspace (s : string) :
  str_all char_isspace (str_lower s) = str_all char_isspace s.
Proof.
  induction s as [|c s IH]; simpl; [reflexivity|].
  rewrite char_lower_isspace, IH. reflexivity.
Qed.

Lemma str_lstrip_empty (s : string) :
  str_lstrip s = "" <-> str_all char_isspace s = true.
Proof.
  induction s as [|c s IH]; simpl; [tauto|].
  destruct (char_isspace c); simpl; [exact IH|]. split; discriminate.
Qed.

Lemma str_rstrip_empty (s : string) :
  str_rstrip s = "" <-> str_all char_isspace s = true.
Proof.
  induction s as [|c s IH]; simpl; [tauto|].
  destruct (str_rstrip s) as [|c' r'] eqn:E.
  - destruct (char_isspace c); simpl.
    + split; [intros _; apply IH; reflexivity | reflexivity].
    + split; discriminate.
  - split; [discriminate|]. intros H. apply andb_true_iff in H.
    destruct H as [_ H]. apply IH in H. discriminate H.
Qed.

Lemma str_lstrip_all_space (s : string) :
  str_all char_isspace (str_lstrip s) = true -> str_lstrip s = "".
Proof.
  induction s as [|c s IH]; simpl; [reflexivity|].
  destruct (char_isspace c) eqn:E; [exact IH|]. simpl. rewrite E. discriminate.
Qed.

Lemma str_strip_empty (s : string) :
  str_strip s = "" <-> str_all char_isspace s = true.
Proof.
  unfold str_strip. rewrite str_rstrip_empty. split.
  - intros H. apply str_lstrip_empty. apply str_lstrip_all_space. exact H.
  - intros H. apply str_lstrip_empty in H. rewrite H. reflexivity.
Qed.

Lemma split_from_empty_input (word : string) :
  split_from word "" = match word with EmptyString => [] | _ => [word] end.
Proof. reflexivity. Qed.

Lemma split_from_lstrip (s : string) : split_from "" (str_lstrip s) = split_from "" s.
Proof.
  induction s as [|c s IH]; simpl; [reflexivity|].
  destruct (char_isspace c) eqn:E; [exact IH|]. simpl. rewrite E. reflexivity.
Qed.

Lemma split_from_rstrip (s : string) :
  forall word, split_from word (str_rstrip s) = split_from word s.
Proof.
  induction s as [|c s IH]; intros word; [reflexivity|].
  cbn [str_rstrip]. destruct (str_rstrip s) as [|c' r'] eqn:E.
  - destruct (char_isspace c) eqn:Ec.
    + cbn [split_from]. rewrite Ec. rewrite <- IH. cbn [split_from].
      destruct word; reflexivity.
    + cbn [split_from]. rewrite Ec. rewrite <- IH. reflexivity.
  - cbn [split_from]. rewrite <- !IH. reflexivity.
Qed.

Lemma str_split_strip (s : string) : str_split (str_strip s) = str_split s.
Proof.
  unfold str_split, str_strip. rewrite split_from_rstrip. apply split_from_lstrip.
Qed.

Lemma str_lower_lstrip (s : string) : str_lower (str_lstrip s) = str_lstrip (str_lower s).
Proof.
  induction s as [|c s IH]; simpl; [reflexivity|].
  rewrite char_lower_isspace. destruct (char_isspace c); [exact IH | reflexivity].
Qed.

Lemma str_lower_rstrip (s : string) : str_lower (str_rstrip s) = str_rstrip (str_lower s).
Proof.
  induction s as [|c s IH]; simpl; [reflexivity|].
  rewrite <- IH, char_lower_isspace.
  destruct (str_rstrip s); simpl; [destruct (char_isspace c)|]; reflexivity.
Qed.

Lemma str_lower_strip (s : string) : str_lower (str_strip s) = str_strip (str_lower s).
Proof. unfold str_strip. rewrite str_lower_rstrip, str_lower_lstrip. reflexivity. Qed.

(** A word of [split]: not empty and without white space. *)
Lemma split_from_words (s : string) :
  forall word,
    no_space word = true ->
    Forall (fun w => w <> "" /\ no_space w = true) (split_from word s).
Proof.
  induction s as [|c s IH]; intros word Hw; cbn [split_from].
  - destruct word; [constructor|]. constructor; [|constructor].
    split; [discriminate | exact Hw].
  - destruct (char_isspace c) eqn:Ec.
    + destruct word; [apply IH; reflexivity|].
      constructor; [split; [discriminate | exact Hw] | apply IH; reflexivity].
    + apply IH. unfold no_space in *. rewrite str_all_app, Hw. simpl.
      rewrite Ec. reflexivity.
Qed.

Lemma split_from_lower (s : string) :
  forall word,
    is_lower word -> Forall is_lower (split_from word (str_lower s)).
Proof.
  induction s as [|c s IH]; intros word Hw; cbn [str_lower split_from].
  - destruct word; [constructor|]. constructor; [exact Hw | constructor].
  - destruct (char_isspace (char_lower c)).
    + destruct word; [apply IH; reflexivity|].
      constructor; [exact Hw | apply IH; reflexivity].
    + apply IH. unfold is_lower in *. rewrite str_lower_app, Hw. simpl.
      rewrite char_lower_idem. reflexivity.
Qed.

Lemma split_from_nil (s : string) :
  forall word, split_from word s = [] -> word = "" /\ str_all char_isspace s = true.
Proof.
  induction s as [|c s IH]; intros word; cbn [split_from].
  - destruct word; [intros _; split; reflexivity | discriminate].
  - destruct (char_isspace c) eqn:Ec.
    + destruct word; [|discriminate]. intros H. destruct (IH _ H) as [_ H'].
      split; [reflexivity|]. simpl. rewrite Ec. exact H'.
    + intros H. destruct (IH _ H) as [H' _]. destruct word; discriminate H'.
Qed.

Lemma parse_input_words (s : string) :
  str_all char_isspace s = false ->
  exists cmd args,
    str_split (str_lower s) = cmd :: args /\ parse_input s = inr (cmd, args).
Proof.
  intros Hs. unfold parse_input.
  assert (str_strip s <> "") as Hne
    by (intros H; apply str_strip_empty in H; congruence).
  rewrite str_lower_strip, str_split_strip.
  destruct (str_split (str_lower s)) as [|cmd args] eqn:E.
  - apply split_from_nil in E. destruct E as [_ E].
    rewrite str_all_lower_isspace in E. congruence.
  - exists cmd, args. split; [reflexivity|].
    destruct (str_strip s); [contradiction | reflexivity].
Qed.

Lemma str_append_assoc (a b c : string) : (a ++ b) ++ c = a ++ (b ++ c).
Proof. induction a as [|x a IH]; simpl; [|rewrite IH]; reflexivity. Qed.

(** What [split] returns are the words of its input: the input is white
    space and words in turn, the words in the order of the list, and white
    space between any two of them.  [gap] is the white space and [word] the
    word read so far. *)
Lemma split_from_pieces (s : string) :
  forall gap word,
    str_all char_isspace gap = true -> no_space word = true ->
    exists pieces trail,
      gap ++ word ++ s = spaced pieces ++ trail
      /\ map snd pieces = split_from word s
      /\ Forall piece_ok pieces
      /\ str_all char_isspace trail = true
      /\ Forall (fun p => fst p <> "") (tl pieces)
      /\ (gap <> "" -> Forall (fun p => fst p <> "") pieces).
Proof.
  induction s as [|c s IH]; intros gap word Hgap Hword.
  - destruct word as [|w0 word'] eqn:Ew.
    + exists [], gap.
      split; [simpl; apply str_append_nil_r|]. split; [reflexivity|].
      split; [constructor|]. split; [exact Hgap|].
      split; [constructor|]. intros _. constructor.
    + exists [(gap, word)], "". subst word. cbn [spaced split_from map snd tl].
      rewrite !str_append_nil_r.
      split; [reflexivity|]. split; [reflexivity|].
      split; [constructor; [|constructor]; repeat split;
              [exact Hgap | discriminate | exact Hword]|].
      split; [reflexivity|]. split; [constructor|].
      intros Hne. constructor; [exact Hne | constructor].
  - cbn [split_from]. destruct (char_isspace c) eqn:Ec.
    + destruct word as [|w0 word'] eqn:Ew.
      * (* white space before the next word *)
        destruct (IH (gap ++ String c "") "") as [ps [trail [H1 [H2 [H3 [H4 [H5 H6]]]]]]].
        { rewrite str_all_app, Hgap. simpl. rewrite Ec. reflexivity. }
        { reflexivity. }
        exists ps, trail.
        split; [rewrite <- H1, str_append_assoc; reflexivity|].
        split; [exact H2|]. split; [exact H3|]. split; [exact H4|].
        split; [exact H5|]. intros _. apply H6. destruct gap; discriminate.
      * (* the white space that ends a word *)
        destruct (IH (String c "") "") as [ps [trail [H1 [H2 [H3 [H4 [H5 H6]]]]]]].
        { simpl. rewrite Ec. reflexivity. }
        { reflexivity. }
        exists ((gap, word) :: ps), trail. subst word.
        cbn [spaced map snd tl].
        split; [rewrite !str_append_assoc, <- H1; reflexivity|].
        split; [rewrite H2; reflexivity|].
        split; [constructor; [repeat split; [exact Hgap | discriminate | exact Hword]
                             | exact H3]|].
        split; [exact H4|].
        assert (Forall (fun p : string * string => fst p <> "") ps) as Hps
          by (apply H6; discriminate).
        split; [exact Hps|]. intros Hne. constructor; [exact Hne | exact Hps].
    + (* one more character of the word *)
      destruct (IH gap (word ++ String c "")) as [ps [trail [H1 [H2 [H3 [H4 [H5 H6]]]]]]].
      { exact Hgap. }
      { unfold no_space in *. rewrite str_all_app, Hword. simpl. rewrite Ec.
        reflexivity. }
      exists ps, trail.
      split; [rewrite <- H1, str_append_assoc; reflexivity|].
      split; [exact H2|]. split; [exact H3|]. split; [exact H4|].
      split; [exact H5 | exact H6].
Qed.

(** X10.  [parse_input] never raises.  It answers the empty command with no
    arguments exactly for an input of white space only.  Otherwise the
    command and the arguments are the words of the input in lower case, in
    their order: the lower-cased input is white space and these words in
    turn, with white space between any two of them and nothing but white
    space after the last; none of the words is empty, none holds white
    space, and [lower] leaves each as it is. *)
Theorem parse_input_words_lower (user_input : string) :
  exists cmd args,
    parse_input user_input = inr (cmd, args)
    /\ (cmd = "" <-> str_all char_isspace user_input = true)
    /\ (cmd = "" -> args = [])
    /\ Forall (fun w => w <> "" /\ no_space w = true /\ is_lower w) args
    /\ no_space cmd = true /\ is_lower cmd
    /\ exists pieces trail,
         str_lower user_input = spaced pieces ++ trail
         /\ map snd pieces = (if str_all char_isspace user_input then []
                              else cmd :: args)
         /\ Forall piece_ok pieces
         /\ Forall (fun p => fst p <> "") (tl pieces)
         /\ str_all char_isspace trail = true.
Proof.
  destruct (split_from_pieces (str_lower user_input) "" "" eq_refl eq_refl)
    as [pieces [trail [H1 [H2 [H3 [H4 [H5 _]]]]]]].
  fold (str_split (str_lower user_input)) in H2. simpl in H1.
  destruct (str_all char_isspace user_input) eqn:Hs.
  - exists "", []. unfold parse_input.
    assert (str_split (str_lower user_input) = []) as Hnil.
    { rewrite <- str_all_lower_isspace in Hs. unfold str_split.
      generalize (str_lower user_input) Hs. clear.
      intros s. induction s as [|c s IH]; simpl; [reflexivity|].
      intros H. apply andb_true_iff in H. destruct H as [-> H]. exact (IH H). }
    apply str_strip_empty in Hs. rewrite Hs.
    split; [reflexivity|]. split; [split; reflexivity|]. split; [reflexivity|].
    split; [constructor|]. split; [reflexivity|]. split; [reflexivity|].
    exists pieces, trail. rewrite <- Hnil.
    split; [exact H1|]. split; [exact H2|]. split; [exact H3|].
    split; [exact H5 | exact H4].
  - destruct (parse_input_words user_input Hs) as [cmd [args [Hsplit Hp]]].
    exists cmd, args. split; [exact Hp|].
    pose proof (split_from_words (str_lower user_input) "" eq_refl) as Hw.
    pose proof (split_from_lower user_input "" eq_refl) as Hl.
    fold (str_split (str_lower user_input)) in Hw, Hl. rewrite Hsplit in Hw, Hl.
    inversion Hw as [|w ws [Hc1 Hc2] Hws]. inversion Hl as [|w' ws' Hc3 Hls]. subst.
    split; [split; [intros E; contradiction | discriminate]|].
    split; [intros E; contradiction|].
    split; [|split; [assumption|split; [assumption|]]].
    + clear - Hws Hls. induction Hws as [|w ws [H1 H2] _ IH]; [constructor|].
      inversion Hls. subst. constructor; [repeat split; assumption | apply IH; assumption].
    + exists pieces, trail. rewrite <- Hsplit.
      split; [exact H1|]. split; [exact H2|]. split; [exact H3|].
      split; [exact H5 | exact H4].
Qed.

Lemma split_from_word (w : string) :
  forall word rest,
    no_space w = true ->
    split_from word (w ++ rest) = split_from (word ++ w) rest.
Proof.
  induction w as [|c w IH]; intros word rest Hw; simpl.
  - rewrite str_append_nil_r. reflexivity.
  - simpl in Hw. apply andb_true_iff in Hw. destruct Hw as [Hc Hw].
    apply negb_true_iff in Hc. rewrite Hc.
    rewrite (IH _ _ Hw). f_equal.
    clear. induction word as [|d word IH]; simpl; [reflexivity|].
    rewrite IH. reflexivity.
Qed.

Lemma split_join_words (words : list string) :
  Forall (fun w => w <> "" /\ no_space w = true) words ->
  words <> [] ->
  str_split (str_join " " words) = words.
Proof.
  unfold str_split. intros H. induction H as [|w ws [Hne Hns] Hws IH]; [congruence|].
  intros _. destruct ws as [|w' ws'].
  - simpl. rewrite <- (str_append_nil_r w) at 1.
    rewrite (split_from_word w "" "" Hns). simpl. destruct w; [contradiction | reflexivity].
  - change (str_join " " (w :: w' :: ws'))
      with (w ++ " " ++ str_join " " (w' :: ws')).
    rewrite (split_from_word w "" _ Hns).
    change ("" ++ w) with w.
    change (" " ++ str_join " " (w' :: ws'))
      with (String " " (str_join " " (w' :: ws'))).
    cbn [split_from]. change (char_isspace " ") with true. cbn iota.
    rewrite IH by discriminate. destruct w; [contradiction | reflexivity].
Qed.

Lemma str_lower_join (words : list string) :
  Forall is_lower words -> str_lower (str_join " " words) = str_join " " words.
Proof.
  intros H. induction H as [|w ws Hw Hws IH]; [reflexivity|].
  destruct ws as [|w' ws']; [exact Hw|].
  change (str_join " " (w :: w' :: ws')) with (w ++ " " ++ str_join " " (w' :: ws')).
  rewrite !str_lower_app, Hw, IH. reflexivity.
Qed.

(** X11.  [parse_input] gives back a command and arguments that were joined
    with single blanks, provided each of them is a lower-case word without
    white space. *)
Theorem parse_input_join (cmd : string) (args : list string) :
  Forall (fun w => w <> "" /\ no_space w = true) (cmd :: args) ->
  Forall is_lower (cmd :: args) ->
  parse_input (str_join " " (cmd :: args)) = inr (cmd, args).
Proof.
  intros Hw Hl.
  assert (str_split (str_lower (str_join " " (cmd :: args))) = cmd :: args) as Hs.
  { rewrite (str_lower_join _ Hl). apply split_join_words; [exact Hw | discriminate]. }
  destruct (str_all char_isspace (str_join " " (cmd :: args))) eqn:E.
  - exfalso. rewrite <- str_all_lower_isspace in E.
    assert (split_from "" (str_lower (str_join " " (cmd :: args))) = []) as Hnil.
    { generalize (str_lower (str_join " " (cmd :: args))) E. clear.
      intros s. induction s as [|c s IH]; simpl; [reflexivity|].
      intros H. apply andb_true_iff in H. destruct H as [-> H]. exact (IH H). }
    unfold str_split in Hs. rewrite Hs in Hnil. discriminate Hnil.
  - destruct (parse_input_words _ E) as [c [a [Hs' Hp]]].
    rewrite Hs in Hs'. inversion Hs'. subst. exact Hp.
Qed.

Lemma parse_input_join_witness :
  parse_input "add john 1234567890" = inr ("add", ["john"; "1234567890"]).
Proof.
  apply (parse_input_join "add" ["john"; "1234567890"]).
  - repeat constructor; discriminate.
  - repeat constructor.
Defined.

(** ** Well-formed books are kept *)

Lemma Forall_dict_set (P : string * ContactRecord -> Prop) (k : string)
    (v : ContactRecord) (d : dict) :
  Forall P d -> P (k, v) -> Forall P (dict_set k v d).
Proof.
  intros H Hv. induction H as [|[k0 v0] d H0 H IH]; simpl.
  - constructor; [exact Hv | constructor].
  - destruct (k0 =? k)%string; constructor; assumption.
Qed.

Lemma book_ok_set (book : AddressBook) (n : string) (r : ContactRecord) :
  book_ok book -> value (name r) = n -> record_ok r ->
  book_ok (mkAddressBook (dict_set n r (data book))).
Proof.
  intros [Hnd Hall] Hn Hr. split; simpl.
  - apply dict_set_NoDup. exact Hnd.
  - apply Forall_dict_set; [exact Hall | split; assumption].
Qed.

Lemma book_ok_get (book : AddressBook) (n : string) (r : ContactRecord) :
  book_ok book -> dict_get n (data book) = Some r ->
  value (name r) = n /\ record_ok r.
Proof.
  intros [_ Hall] H. apply dict_get_In in H.
  rewrite Forall_forall in Hall. exact (Hall _ H).
Qed.

Lemma Forall_set_value_at (j : nat) (v : string) (ps : list Phone) :
  phone_ok (mkField v) -> Forall phone_ok ps -> Forall phone_ok (set_value_at j v ps).
Proof.
  intros Hv H. revert j. induction H as [|p ps Hp H IH]; intros j.
  - destruct j; constructor.
  - destruct j; simpl; constructor; auto.
Qed.

Lemma Record_init_ok (n : string) : record_ok (Record_init n).
Proof. split; simpl; [constructor | exact I]. Qed.

Lemma add_phone_keeps_ok (phone : string) (r : ContactRecord) (res : result unit)
    (r' : ContactRecord) :
  record_ok r -> in_phone_manager (add_phone phone) r = (res, r') ->
  record_ok r' /\ name r' = name r.
Proof.
  intros [Hp Hb]. unfold in_phone_manager, add_phone, mbind, mlift, mget, mput.
  destruct (Phone_init phone) as [e|p] eqn:E; intros H; inversion H; subst; simpl.
  - split; [split; assumption | reflexivity].
  - split; [|reflexivity]. split; [|exact Hb]. simpl.
    apply Forall_app. split; [exact Hp|]. constructor; [|constructor].
    pose proof (Phone_init_inr _ _ E) as [-> _]. exact E.
Qed.

Lemma edit_phone_keeps_ok (old_phone new_phone : string) (r : ContactRecord)
    (res : result unit) (r' : ContactRecord) :
  record_ok r -> in_phone_manager (edit_phone old_phone new_phone) r = (res, r') ->
  record_ok r' /\ name r' = name r.
Proof.
  intros [Hp Hb]. unfold in_phone_manager.
  destruct (edit_phone old_phone new_phone (phone_manager r)) as [res0 pm] eqn:E.
  intros H. inversion H. subst. simpl. split; [|reflexivity].
  split; [|exact Hb]. simpl.
  destruct (edit_phone_outcome _ _ _ _ _ E) as [[e [_ [-> _]]]|[_ [Hv [j ->]]]].
  - exact Hp.
  - simpl. apply Forall_set_value_at; [exact Hv | exact Hp].
Qed.

Lemma add_birthday_keeps_ok (b : string) (r : ContactRecord) (res : result unit)
    (r' : ContactRecord) :
  record_ok r -> in_birthday_manager (add_birthday b) r = (res, r') ->
  record_ok r' /\ name r' = name r.
Proof.
  intros [Hp Hb]. unfold in_birthday_manager, add_birthday, mbind, mlift, mput.
  destruct (Birthday_init b) as [e|bd] eqn:E; intros H; inversion H; subst; simpl.
  - split; [split; assumption | reflexivity].
  - split; [|reflexivity]. split; [exact Hp|]. simpl.
    pose proof (Birthday_init_inr _ _ E) as ->. exact E.
Qed.

Lemma in_record_keeps_ok {A : Type} (book : AddressBook) (n : string)
    (r : ContactRecord) (m : M ContactRecord A) :
  book_ok book -> value (name r) = n -> record_ok r ->
  (forall res r', m r = (res, r') -> record_ok r' /\ name r' = name r) ->
  book_ok (snd (in_record n r m book)).
Proof.
  intros Hb Hn Hr Hm. unfold in_record.
  destruct (m r) as [res r'] eqn:E. simpl.
  destruct (Hm _ _ eq_refl) as [Hr' Hn']. rewrite dict_replace_cases.
  destruct (dict_get n (data book)); [|destruct book; exact Hb].
  apply book_ok_set; [exact Hb | | exact Hr'].
  rewrite Hn'. exact Hn.
Qed.

Ltac args_shape args :=
  match goal with
  | |- context [negb (len args =? ?k)] =>
      destruct (negb (len args =? k)); [assumption|]
  end.

(** ** Which turns change the book *)

Lemma query_keeps_book (now : datetime) (cmd : Command) (args : list string)
    (book : AddressBook) :
  cmd = ShowPhoneCommand \/ cmd = ShowAllCommand \/ cmd = ShowBirthdayCommand
  \/ cmd = BirthdaysCommand ->
  snd (execute now cmd args book) = book.
Proof.
  intros [-> | [-> | [-> | ->]]]; simpl.
  - unfold ShowPhoneCommand_execute. destruct (negb (len args =? 1)); [reflexivity|].
    destruct args as [|n [|x rest]]; try reflexivity.
    unfold mbind, find, mget, mret. simpl. destruct (dict_get n (data book)); reflexivity.
  - unfold ShowAllCommand_execute, mbind, mget, mret. simpl.
    destruct (data book); reflexivity.
  - unfold ShowBirthdayCommand_execute. destruct (negb (len args =? 1)); [reflexivity|].
    destruct args as [|n [|x rest]]; try reflexivity.
    unfold mbind, find, mget, mret. simpl.
    destruct (dict_get n (data book)) as [r|]; [|reflexivity].
    destruct (birthday (birthday_manager r)); reflexivity.
  - unfold BirthdaysCommand_execute, mbind, mget, mret, mlift. simpl.
    destruct (get_upcoming_birthdays (get_all_records book) now) as [e|[|x l]];
      reflexivity.
Qed.

Lemma add_contact_keeps_ok (args : list string) (book : AddressBook) :
  book_ok book -> book_ok (snd (AddContactCommand_execute args book)).
Proof.
  intros Hb. unfold AddContactCommand_execute. args_shape args.
  destruct args as [|n [|phone [|x rest]]]; try assumption.
  unfold mbind, find, mget, mret. simpl.
  destruct (dict_get n (data book)) as [r|] eqn:E.
  - destruct (book_ok_get _ _ _ Hb E) as [Hn Hr].
    pose proof (in_record_keeps_ok book n r (in_phone_manager (add_phone phone))
                  Hb Hn Hr (fun res r' => add_phone_keeps_ok phone r res r' Hr)) as H.
    destruct (in_record n r (in_phone_manager (add_phone phone)) book) as [[e|[]] b'];
      exact H.
  - unfold add_record, mbind, mget, mput. simpl.
    assert (book_ok (mkAddressBook (dict_set n (Record_init n) (data book)))) as Hb'
      by (apply book_ok_set; [exact Hb | reflexivity | apply Record_init_ok]).
    pose proof (in_record_keeps_ok _ n (Record_init n)
                  (in_phone_manager (add_phone phone)) Hb' eq_refl (Record_init_ok n)
                  (fun res r' => add_phone_keeps_ok phone _ res r' (Record_init_ok n)))
      as H.
    destruct (in_record n (Record_init n) (in_phone_manager (add_phone phone)) _)
      as [[e|[]] b']; exact H.
Qed.

Lemma change_contact_keeps_ok (args : list string) (book : AddressBook) :
  book_ok book -> book_ok (snd (ChangeContactCommand_execute args book)).
Proof.
  intros Hb. unfold ChangeContactCommand_execute. args_shape args.
  destruct args as [|n [|old_phone [|new_phone [|x rest]]]]; try assumption.
  unfold mbind, find, mget, mret. simpl.
  destruct (dict_get n (data book)) as [r|] eqn:E; [|assumption].
  destruct (book_ok_get _ _ _ Hb E) as [Hn Hr].
  pose proof (in_record_keeps_ok book n r
                (in_phone_manager (edit_phone old_phone new_phone)) Hb Hn Hr
                (fun res r' => edit_phone_keeps_ok old_phone new_phone r res r' Hr)) as H.
  destruct (in_record n r (in_phone_manager (edit_phone old_phone new_phone)) book)
    as [[e|[]] b']; exact H.
Qed.

Lemma add_birthday_cmd_keeps_ok (args : list string) (book : AddressBook) :
  book_ok book -> book_ok (snd (AddBirthdayCommand_execute args book)).
Proof.
  intros Hb. unfold AddBirthdayCommand_execute. args_shape args.
  destruct args as [|n [|b [|x rest]]]; try assumption.
  unfold mbind, find, mget, mret. simpl.
  destruct (dict_get n (data book)) as [r|] eqn:E; [|assumption].
  destruct (book_ok_get _ _ _ Hb E) as [Hn Hr].
  pose proof (in_record_keeps_ok book n r (in_birthday_manager (add_birthday b))
                Hb Hn Hr (fun res r' => add_birthday_keeps_ok b r res r' Hr)) as H.
  destruct (in_record n r (in_birthday_manager (add_birthday b)) book)
    as [[e|[]] b']; exact H.
Qed.

Lemma execute_keeps_book_ok_aux (now : datetime) (cmd : Command) (args : list string)
    (book : AddressBook) :
  book_ok book -> book_ok (snd (execute now cmd args book)).
Proof.
  intros Hb.
  destruct cmd;
    try (rewrite query_keeps_book by tauto; exact Hb).
  - apply add_contact_keeps_ok. exact Hb.
  - apply change_contact_keeps_ok. exact Hb.
  - apply add_birthday_cmd_keeps_ok. exact Hb.
Qed.

(** X12.  Every command keeps the book well formed, whether it returns or
    raises: the keys stay distinct, each key is the name of its record, every
    stored phone is one that [Phone] accepts and every stored birthday one
    that [Birthday] accepts. *)
Theorem execute_keeps_book_ok (now : datetime) (cmd : Command) (args : list string)
    (book : AddressBook) :
  book_ok book -> book_ok (snd (execute now cmd args book)).
Proof.
  intros Hb.
  destruct cmd;
    [ apply add_contact_keeps_ok
    | apply change_contact_keeps_ok
    | rewrite query_keeps_book by tauto
    | rewrite query_keeps_book by tauto
    | apply add_birthday_cmd_keeps_ok
    | rewrite query_keeps_book by tauto
    | rewrite query_keeps_book by tauto ];
    exact Hb.
Qed.

Lemma execute_keeps_book_ok_witness :
  book_ok (snd (execute (mkDatetime 2024 6 10 0 0 0 0) AddContactCommand ["john"; "12"]
                        (mkAddressBook []))).
Proof.
  apply execute_keeps_book_ok. split; simpl; constructor.
Defined.

(** ** Turns of the loop *)

Lemma save_on_change_book (func : M AddressBook string) (book : AddressBook)
    (disk : Storage) :
  fst (snd (save_on_change func (book, disk))) = snd (func book).
Proof.
  unfold save_on_change. simpl. destruct (func book) as [[e|s] b]; reflexivity.
Qed.

Lemma input_error_book {S : Type} (func : M S string) (s : S) :
  snd (input_error func s) = snd (func s).
Proof.
  unfold input_error. destruct (func s) as [[[m|m]|x] s']; reflexivity.
Qed.

(** X13.  Only [add], [change] and [add-birthday] change the book: a turn of
    the loop with any other command word, in the table or not, leaves the
    book in memory as it was. *)
Theorem only_three_commands_change_book (now : datetime) (token : string)
    (args : list string) (book : AddressBook) (disk : Storage) :
  token <> "add" -> token <> "change" -> token <> "add-birthday" ->
  fst (snd (main_turn now token args (book, disk))) = book.
Proof.
  intros H1 H2 H3. unfold main_turn.
  destruct ((token =? "close") || (token =? "exit"))%string; [reflexivity|].
  destruct (token =? "")%string; [reflexivity|].
  destruct (token =? "hello")%string; [reflexivity|].
  destruct (command_map token) as [cmd|] eqn:E; [|reflexivity].
  assert (snd (execute now cmd args book) = book) as Hq.
  { apply query_keeps_book. unfold command_map in E.
    destruct (String.eqb_spec token "add"); [contradiction|].
    destruct (String.eqb_spec token "change"); [contradiction|].
    destruct (token =? "phone")%string; [inversion E; tauto|].
    destruct (token =? "all")%string; [inversion E; tauto|].
    destruct (String.eqb_spec token "add-birthday"); [contradiction|].
    destruct (token =? "show-birthday")%string; [inversion E; tauto|].
    destruct (token =? "birthdays")%string; [inversion E; tauto | discriminate]. }
  unfold mbind, decorated_cmd.
  pose proof (save_on_change_book (input_error (execute now cmd args)) book disk) as Hs.
  rewrite input_error_book, Hq in Hs.
  destruct (save_on_change (input_error (execute now cmd args)) (book, disk))
    as [[e|s] st]; simpl in *; exact Hs.
Qed.

Lemma only_three_commands_change_book_witness :
  fst (snd (main_turn (mkDatetime 2024 6 10 0 0 0 0) "all" ["x"]
                      (mkAddressBook [("john", Record_init "john")], None)))
  = mkAddressBook [("john", Record_init "john")].
Proof.
  apply only_three_commands_change_book; discriminate.
Defined.

(** ** No exception leaves the dispatcher *)

Lemma check_date_fields_inl (y m d : Z) (e : exn) :
  _check_date_fields y m d = inl e -> exists msg, e = ValueError msg.
Proof.
  unfold _check_date_fields.
  repeat match goal with
         | |- context [if ?c then _ else _] => destruct c
         end; intros H; inversion H; eexists; reflexivity.
Qed.

Lemma replace_year_inl (self : datetime) (y : Z) (e : exn) :
  replace_year self y = inl e -> exists msg, e = ValueError msg.
Proof.
  unfold replace_year, datetime_new, rbind.
  destruct (_check_date_fields y (month self) (day self)) as [e'|[]] eqn:E;
    [|discriminate].
  intros H. inversion H. subst. exact (check_date_fields_inl _ _ _ _ E).
Qed.

Lemma upcoming_body_inl (today : datetime) (upcoming : list Entry)
    (record : ContactRecord) (e : exn) :
  upcoming_body today upcoming record = inl e -> exists msg, e = ValueError msg.
Proof.
  unfold upcoming_body.
  destruct (birthday (birthday_manager record)) as [b|]; [|discriminate].
  destruct (strptime (value b)) as [e'|bday] eqn:Hs; cbn [rbind].
  { intros H. inversion H. subst. exact (strptime_inl _ _ Hs). }
  destruct (replace_year bday (year today)) as [e'|t] eqn:E1; cbn [rbind].
  { intros H. inversion H. subst. exact (replace_year_inl _ _ _ E1). }
  assert (valid_datetime t) as Ht.
  { apply replace_year_inr in E1. destruct E1 as [-> Hv]. exact Hv. }
  destruct (datetime_ltb t today).
  - destruct (replace_year t (year today + 1)) as [e'|t'] eqn:E2; cbn [rbind].
    { intros H. inversion H. subst. exact (replace_year_inl _ _ _ E2). }
    assert (valid_datetime t') as Ht'.
    { apply replace_year_inr in E2. destruct E2 as [-> Hv]. exact Hv. }
    destruct ((0 <=? sub_days t' today) && (sub_days t' today <=? 7)); [|discriminate].
    rewrite (weekend_shift_ok t' upcoming (value (name record)) Ht'). discriminate.
  - cbn [rbind].
    destruct ((0 <=? sub_days t today) && (sub_days t today <=? 7)); [|discriminate].
    rewrite (weekend_shift_ok t upcoming (value (name record)) Ht). discriminate.
Qed.

Lemma get_upcoming_birthdays_inl (today : datetime) (records : list ContactRecord)
    (e : exn) :
  get_upcoming_birthdays records today = inl e -> exists msg, e = ValueError msg.
Proof.
  unfold get_upcoming_birthdays. generalize (@nil Entry) as upcoming.
  induction records as [|r records IH]; intros upcoming; simpl; [discriminate|].
  destruct (upcoming_body today upcoming r) as [e'|upcoming'] eqn:E; cbn [rbind].
  - intros H. inversion H. subst. exact (upcoming_body_inl _ _ _ _ E).
  - apply IH.
Qed.

Lemma execute_inl (now : datetime) (cmd : Command) (args : list string)
    (book book' : AddressBook) (e : exn) :
  execute now cmd args book = (inl e, book') -> exists msg, e = ValueError msg.
Proof.
  destruct cmd; simpl.
  - unfold AddContactCommand_execute.
    destruct (negb (len args =? 2));
      [intros H; inversion H; eexists; reflexivity|].
    destruct args as [|n [|phone [|x rest]]];
      try (intros H; inversion H; eexists; reflexivity).
    unfold mbind, find, mget, mret, add_record, mput, in_record, in_phone_manager,
      add_phone, mlift. simpl.
    destruct (dict_get n (data book)); simpl;
      destruct (Phone_init phone) as [e'|p] eqn:E; simpl;
      intros H; inversion H; subst; apply Phone_init_inl in E; subst;
      eexists; reflexivity.
  - unfold ChangeContactCommand_execute.
    destruct (negb (len args =? 3));
      [intros H; inversion H; eexists; reflexivity|].
    destruct args as [|n [|old_phone [|new_phone [|x rest]]]];
      try (intros H; inversion H; eexists; reflexivity).
    unfold mbind, find, mget, mret, in_record, in_phone_manager. simpl.
    destruct (dict_get n (data book)) as [r|]; [|discriminate].
    destruct (edit_phone old_phone new_phone (phone_manager r)) as [res pm] eqn:E.
    destruct (edit_phone_outcome _ _ _ _ _ E) as [[e' [-> [_ Hk]]]|[-> _]];
      simpl; [|discriminate].
    intros H. inversion H. subst. destruct Hk as [-> | ->]; eexists; reflexivity.
  - unfold ShowPhoneCommand_execute.
    destruct (negb (len args =? 1));
      [intros H; inversion H; eexists; reflexivity|].
    destruct args as [|n [|x rest]];
      try (intros H; inversion H; eexists; reflexivity).
    unfold mbind, find, mget, mret. simpl.
    destruct (dict_get n (data book)); discriminate.
  - unfold ShowAllCommand_execute, mbind, mget, mret. simpl.
    destruct (data book); discriminate.
  - unfold AddBirthdayCommand_execute.
    destruct (negb (len args =? 2));
      [intros H; inversion H; eexists; reflexivity|].
    destruct args as [|n [|b [|x rest]]];
      try (intros H; inversion H; eexists; reflexivity).
    unfold mbind, find, mget, mret, in_record, in_birthday_manager, add_birthday,
      mlift, mput. simpl.
    destruct (dict_get n (data book)) as [r|]; [|discriminate]. simpl.
    destruct (Birthday_init b) as [e'|bd] eqn:E; simpl; [|discriminate].
    intros H. inversion H. subst. apply Birthday_init_inl in E. subst.
    eexists. reflexivity.
  - unfold ShowBirthdayCommand_execute.
    destruct (negb (len args =? 1));
      [intros H; inversion H; eexists; reflexivity|].
    destruct args as [|n [|x rest]];
      try (intros H; inversion H; eexists; reflexivity).
    unfold mbind, find, mget, mret. simpl.
    destruct (dict_get n (data book)) as [r|]; [|discriminate].
    destruct (birthday (birthday_manager r)); discriminate.
  - unfold BirthdaysCommand_execute, mbind, mget, mret, mlift. simpl.
    destruct (get_upcoming_birthdays (get_all_records book) now) as [e'|[|x l]] eqn:E;
      try discriminate.
    intros H. inversion H. subst. exact (get_upcoming_birthdays_inl _ _ _ E).
Qed.

Lemma decorated_cmd_returns (now : datetime) (cmd : Command) (args : list string)
    (book : AddressBook) (disk : Storage) :
  exists text,
    decorated_cmd now cmd args (book, disk)
    = (inr text, (snd (execute now cmd args book), Some (snd (execute now cmd args book)))).
Proof.
  unfold decorated_cmd, save_on_change, input_error. simpl.
  destruct (execute now cmd args book) as [[e|s] b] eqn:E.
  - destruct (execute_inl _ _ _ _ _ _ E) as [msg ->]. simpl. eexists. reflexivity.
  - simpl. eexists. reflexivity.
Qed.

(** X14.  No exception leaves a decorated command: whatever the command, the
    arguments, the book and the clock, the call returns a text, and the book
    as the command left it is the book saved to the file. *)
Theorem decorated_cmd_never_raises (now : datetime) (cmd : Command)
    (args : list string) (book : AddressBook) (disk : Storage) :
  exists text book',
    decorated_cmd now cmd args (book, disk) = (inr text, (book', Some book'))
    /\ book' = snd (execute now cmd args book)
    /\ (forall e, fst (execute now cmd args book) = inl e ->
          text = "Error: " ++ exn_str e).
Proof.
  unfold decorated_cmd, save_on_change, input_error. simpl.
  destruct (execute now cmd args book) as [[e|s] b] eqn:E.
  - destruct (execute_inl _ _ _ _ _ _ E) as [msg ->]. simpl.
    eexists. eexists. split; [reflexivity|]. split; [reflexivity|].
    intros e H. inversion H. reflexivity.
  - simpl. eexists. eexists. split; [reflexivity|]. split; [reflexivity|].
    intros e H. discriminate H.
Qed.

(** ** Sessions *)

Lemma parse_input_returns (s : string) :
  exists cmd args, parse_input s = inr (cmd, args).
Proof.
  destruct (str_all char_isspace s) eqn:Hs.
  - exists "", []. unfold parse_input. apply str_strip_empty in Hs. rewrite Hs.
    reflexivity.
  - destruct (parse_input_words s Hs) as [cmd [args [_ H]]]. exists cmd, args. exact H.
Qed.

Lemma main_turn_step (now : datetime) (command : string) (args : list string)
    (book : AddressBook) (disk : Storage) :
  book_ok book -> PickleStorage_load disk = book ->
  exists text continue book' disk',
    main_turn now command args (book, disk) = (inr (text, continue), (book', disk'))
    /\ book_ok book' /\ PickleStorage_load disk' = book'
    /\ (continue = false -> disk' = Some book').
Proof.
  intros Hb Hl. unfold main_turn.
  destruct ((command =? "close") || (command =? "exit"))%string.
  { exists "Good bye!", false, book, (Some book).
    split; [reflexivity | split; [exact Hb | split; reflexivity]]. }
  destruct (command =? "")%string.
  { exists "Please enter a command.", true, book, disk.
    split; [reflexivity | split; [exact Hb | split; [exact Hl | discriminate]]]. }
  destruct (command =? "hello")%string.
  { exists "How can I help you?", true, book, disk.
    split; [reflexivity | split; [exact Hb | split; [exact Hl | discriminate]]]. }
  destruct (command_map command) as [cmd|].
  - destruct (decorated_cmd_returns now cmd args book disk) as [text H].
    unfold mbind. rewrite H.
    exists text, true, (snd (execute now cmd args book)),
      (Some (snd (execute now cmd args book))).
    split; [reflexivity|]. split; [apply execute_keeps_book_ok_aux; exact Hb|].
    split; [reflexivity | discriminate].
  - exists "Invalid command.", true, book, disk.
    split; [reflexivity | split; [exact Hb | split; [exact Hl | discriminate]]].
Qed.

(** X15.  A session never ends on an uncaught exception, whatever is typed.
    At its end the book is well formed if the loaded book was, the file holds
    exactly the book in memory, and the number of texts printed is one more
    than the number of lines read when the input runs out. *)
Theorem session_keeps_file_in_step (inputs : list (datetime * string)) (disk : Storage) :
  book_ok (PickleStorage_load disk) ->
  exists printed book disk' e,
    main inputs disk = (printed, (book, disk'), e)
    /\ (forall ex, e <> Uncaught ex)
    /\ book_ok book
    /\ PickleStorage_load disk' = book
    /\ (e = Closed -> disk' = Some book)
    /\ (e = EndOfInput -> List.length printed = S (List.length inputs)).
Proof.
  intros Hb. unfold main.
  assert (forall inputs book disk printed,
            book_ok book -> PickleStorage_load disk = book ->
            exists printed' book' disk' e,
              main_loop inputs (book, disk) printed = (printed', (book', disk'), e)
              /\ (forall ex, e <> Uncaught ex)
              /\ book_ok book'
              /\ PickleStorage_load disk' = book'
              /\ (e = Closed -> disk' = Some book')
              /\ (e = EndOfInput ->
                  List.length printed' = (List.length printed + List.length inputs)%nat))
    as Hloop.
  { clear. induction inputs as [|[now line] rest IH]; intros book disk printed Hb Hl.
    - exists printed, book, disk, EndOfInput. simpl.
      split; [reflexivity|]. split; [discriminate|]. split; [exact Hb|].
      split; [exact Hl|]. split; [discriminate | intros _; lia].
    - simpl. destruct (parse_input_returns line) as [cmd [args ->]].
      destruct (main_turn_step now cmd args book disk Hb Hl)
        as [text [continue [book' [disk' [-> [Hb' [Hl' Hc]]]]]]].
      destruct continue.
      + destruct (IH book' disk' (printed ++ [text])%list Hb' Hl')
          as [p' [b'' [d'' [e [-> [H1 [H2 [H3 [H4 H5]]]]]]]]].
        exists p', b'', d'', e.
        split; [reflexivity|]. split; [exact H1|]. split; [exact H2|].
        split; [exact H3|]. split; [exact H4|].
        intros He. rewrite (H5 He), length_app. simpl. lia.
      + exists (printed ++ [text])%list, book', disk', Closed.
        split; [reflexivity|]. split; [discriminate|]. split; [exact Hb'|].
        split; [exact Hl'|]. split; [intros _; exact (Hc eq_refl) | discriminate]. }
  destruct (Hloop inputs (PickleStorage_load disk) disk ["Welcome to the assistant bot!"]
              Hb eq_refl) as [p [b [d [e [H [H1 [H2 [H3 [H4 H5]]]]]]]]].
  exists p, b, d, e.
  split; [exact H|]. split; [exact H1|]. split; [exact H2|].
  split; [exact H3|]. split; [exact H4 | exact H5].
Qed.

Lemma session_keeps_file_in_step_witness :
  exists printed book disk' e,
    main [(mkDatetime 2024 6 10 9 30 0 0, "add John 1234567890");
          (mkDatetime 2024 6 10 9 31 0 0, "exit")] None
    = (printed, (book, disk'), e)
    /\ PickleStorage_load disk' = book.
Proof.
  destruct (session_keeps_file_in_step
              [(mkDatetime 2024 6 10 9 30 0 0, "add John 1234567890");
               (mkDatetime 2024 6 10 9 31 0 0, "exit")] None)
    as [p [b [d [e [H [_ [_ [H3 _]]]]]]]].
  - split; simpl; constructor.
  - exists p, b, d, e. split; [exact H | exact H3].
Defined.

(** ** Order of dates and of ordinals *)

Lemma ymd2ord_next_year (y m d : Z) :
  365 <= _ymd2ord (y + 1) m d - _ymd2ord y m d <= 366.
Proof.
  unfold _ymd2ord, _days_before_month.
  rewrite days_before_year_step.
  assert (_is_leap y = true -> _is_leap (y + 1) = false) as Hl.
  { unfold _is_leap.
    repeat match goal with
           | |- context [?x mod ?k =? 0] => destruct (Z.eqb_spec (x mod k) 0)
           end; simpl; try reflexivity; try discriminate;
    intros _; exfalso; Z.to_euclidean_division_equations; lia. }
  generalize (zindex _DAYS_BEFORE_MONTH m). intros dbm.
  destruct (_is_leap y); [rewrite (Hl eq_refl)|destruct (_is_leap (y + 1))];
    destruct (2 <? m); cbn [b2z andb]; lia.
Qed.

(** Whether the birthday has passed, by the dates and the time of day. *)
Lemma passed_by_date (today bday : datetime) :
  date_only bday -> valid_time today ->
  passed today bday
  = date_ltb (year today, month bday, day bday) (date_of today)
    || (((month bday =? month today) && (day bday =? day today))
        && negb (midnight today)).
Proof.
  intros [Hb1 [Hb2 [Hb3 Hb4]]] [Hh [Hm [Hs Hu]]].
  unfold passed, datetime_ltb, datetime_fields, with_year, date_ltb, date_of, midnight.
  cbn [tuple_ltb year month day hour minute second microsecond].
  rewrite Hb1, Hb2, Hb3, Hb4, andb_false_r, orb_false_r.
  apply Bool.eq_iff_eq_true.
  repeat first [ rewrite orb_true_iff | rewrite andb_true_iff | rewrite negb_true_iff
               | rewrite andb_false_iff | rewrite Z.ltb_lt | rewrite Z.eqb_eq
               | rewrite Z.eqb_neq ].
  lia.
Qed.

(** The day count of the difference of a midnight and a time of day. *)
Lemma sub_days_midnight (D today : datetime) :
  date_only D -> valid_time today ->
  sub_days D today
  = toordinal D - toordinal today - (if midnight today then 0 else 1).
Proof.
  intros [Hb1 [Hb2 [Hb3 Hb4]]] [Hh [Hm [Hs Hu]]].
  unfold sub_days, midnight. rewrite Hb1, Hb2, Hb3, Hb4.
  destruct (Z.eqb_spec (hour today) 0); destruct (Z.eqb_spec (minute today) 0);
  destruct (Z.eqb_spec (second today) 0); destruct (Z.eqb_spec (microsecond today) 0);
  simpl; Z.to_euclidean_division_equations; lia.
Qed.

(** ** More on the calculator *)

Lemma replaceable_dates (today : datetime) (record : ContactRecord) (bday : datetime) :
  valid_datetime today -> year_replaceable today record ->
  bday_of record = Some bday ->
  valid_datetime bday /\ date_only bday
  /\ valid_date (year today) (month bday) (day bday)
  /\ valid_datetime (this_year today bday)
  /\ (passed today bday = true -> valid_date (year today + 1) (month bday) (day bday)).
Proof.
  intros Hv Hr Hb. unfold year_replaceable, bday_of in *.
  destruct (birthday (birthday_manager record)) as [b|]; [|discriminate].
  destruct Hr as [bday' [Hs [Hthis Hnext]]]. rewrite Hs in Hb. inversion Hb. subst.
  destruct (strptime_inr _ _ Hs) as [Hvb Hdo].
  destruct (this_year_valid today Hv bday Hvb Hthis Hnext) as [H1 H2].
  split; [exact Hvb|]. split; [exact Hdo|]. split; [exact H1|]. split; [exact H2|].
  intros Hp. destruct (Hnext Hp) as [Hy Hd].
  destruct Hv as [[Hy1 _] _]. destruct Hvb as [_ [Hm [Hd1 _]]].
  unfold valid_date, MINYEAR in *. lia.
Qed.

Lemma delta_not_negative (today : datetime) (record : ContactRecord) (bday : datetime) :
  valid_datetime today -> valid_time today ->
  year_replaceable today record -> bday_of record = Some bday ->
  0 <= sub_days (this_year today bday) today.
Proof.
  intros Hv Ht Hr Hb.
  destruct (replaceable_dates today record bday Hv Hr Hb)
    as [Hvb [Hdo [Hthis [Hty Hnext]]]].
  rewrite (sub_days_midnight _ _ (this_year_date_only today bday Hdo) Ht).
  pose proof (passed_by_date today bday Hdo Ht) as Hp.
  unfold this_year. destruct (passed today bday) eqn:Epassed.
  - specialize (Hnext eq_refl).
    assert (_ymd2ord (year today) (month today) (day today)
            < _ymd2ord (year today + 1) (month bday) (day bday)) as Hlt.
    { apply ymd2ord_lt; try apply Hv; try apply Hnext.
      unfold date_ltb. assert ((year today <? year today + 1) = true) as ->
        by (apply Z.ltb_lt; lia). reflexivity. }
    unfold toordinal, with_year. simpl. destruct (midnight today); lia.
  - symmetry in Hp. apply orb_false_iff in Hp. destruct Hp as [Hp1 Hp2].
    destruct (date_ltb_total (year today, month bday, day bday) (date_of today))
      as [H|[H|H]].
    + congruence.
    + unfold date_of in H. inversion H as [[Hm Hd]].
      rewrite Hm, Hd, !Z.eqb_refl in Hp2. simpl in Hp2.
      apply negb_false_iff in Hp2. rewrite Hp2.
      unfold toordinal, with_year. simpl. rewrite Hm, Hd. lia.
    + assert (_ymd2ord (year today) (month today) (day today)
              < _ymd2ord (year today) (month bday) (day bday)) as Hlt
        by (apply ymd2ord_lt; try apply Hv; try apply Hthis; exact H).
      unfold toordinal, with_year. simpl. destruct (midnight today); lia.
Qed.

(** X16.  The day difference that the calculator computes is never negative:
    after the roll to the next year the birthday is not before [today], so of
    the test [0 <= delta <= 7] only the upper bound decides. *)
Theorem upcoming_delta_not_negative (today : datetime) (record : ContactRecord)
    (bday : datetime) :
  valid_datetime today -> valid_time today ->
  year_replaceable today record -> bday_of record = Some bday ->
  0 <= sub_days (this_year today bday) today
  /\ included today record = (sub_days (this_year today bday) today <=? 7).
Proof.
  intros Hv Ht Hr Hb.
  pose proof (delta_not_negative today record bday Hv Ht Hr Hb) as H.
  split; [exact H|]. unfold included, in_window. rewrite Hb.
  apply Z.leb_le in H. rewrite H. reflexivity.
Qed.

Lemma upcoming_delta_not_negative_witness :
  included (mkDatetime 2024 6 10 9 30 0 0) (record_with_birthday "ann" "01.06.1990")
  = (sub_days (this_year (mkDatetime 2024 6 10 9 30 0 0) (mkDatetime 1990 6 1 0 0 0 0))
              (mkDatetime 2024 6 10 9 30 0 0) <=? 7).
Proof.
  refine (proj2 (upcoming_delta_not_negative (mkDatetime 2024 6 10 9 30 0 0)
            (record_with_birthday "ann" "01.06.1990") (mkDatetime 1990 6 1 0 0 0 0)
            _ _ _ _)).
  - repeat split; vm_compute; discriminate.
  - repeat split; vm_compute; discriminate.
  - eexists. split; [vm_compute; reflexivity|].
    split; [vm_compute; discriminate|].
    intros _. split; vm_compute; discriminate.
  - vm_compute. reflexivity.
Defined.

(** X17.  With a clock reading that has a time of day, as [datetime.today()]
    gives to the [birthdays] command, a birthday on the very day of [today]
    counts as passed: it is rolled to the next year and left out of the list.
    (With a date-only [today] it is included.) *)
Theorem birthday_today_left_out (now : datetime) (record : ContactRecord)
    (bday : datetime) :
  valid_datetime now -> valid_time now -> midnight now = false ->
  bday_of record = Some bday ->
  month bday = month now -> day bday = day now ->
  passed now bday = true
  /\ included now record = false
  /\ (year now < MAXYEAR -> ~ (month now = 2 /\ day now = 29) ->
      get_upcoming_birthdays [record] now = inr []).
Proof.
  intros Hv Ht Hmid Hb Hm Hd.
  destruct (bday_of_date_only _ _ Hb) as [Hvb Hdo].
  assert (passed now bday = true) as Hp.
  { rewrite (passed_by_date now bday Hdo Ht), Hm, Hd, !Z.eqb_refl, Hmid.
    apply orb_true_r. }
  assert (included now record = false) as Hin.
  { unfold included, in_window. rewrite Hb.
    rewrite (sub_days_midnight _ _ (this_year_date_only now bday Hdo) Ht), Hmid.
    unfold this_year. rewrite Hp. unfold toordinal, with_year. simpl.
    rewrite Hm, Hd.
    pose proof (ymd2ord_next_year (year now) (month now) (day now)) as Hy.
    apply andb_false_iff. right. apply Z.leb_gt. lia. }
  split; [exact Hp|]. split; [exact Hin|].
  intros Hy Hfeb.
  assert (year_replaceable now record) as Hr.
  { unfold year_replaceable, bday_of in *.
    destruct (birthday (birthday_manager record)) as [b|]; [|discriminate].
    destruct (strptime (value b)) as [e|t] eqn:E; [discriminate|].
    inversion Hb. subst t. exists bday. split; [reflexivity|].
    rewrite Hm, Hd. destruct Hv as [_ [Hmr [_ Hdim]]].
    split; [exact Hdim|]. intros _. split; [lia|].
    unfold _days_in_month in *.
    destruct (Z.eqb_spec (month now) 2) as [E2|E2]; simpl in *; [|exact Hdim].
    destruct (_is_leap (year now)); destruct (_is_leap (year now + 1));
      rewrite ?E2 in *; change (zindex _DAYS_IN_MONTH 2) with 28 in *; lia. }
  rewrite (get_upcoming_birthdays_ok now Hv [record]
             (Forall_cons _ Hr (Forall_nil _))).
  simpl. rewrite Hin. reflexivity.
Qed.

Lemma birthday_today_left_out_witness :
  get_upcoming_birthdays [record_with_birthday "ann" "10.06.1990"]
                         (mkDatetime 2024 6 10 9 30 0 0) = inr [].
Proof.
  refine (proj2 (proj2 (birthday_today_left_out (mkDatetime 2024 6 10 9 30 0 0)
            (record_with_birthday "ann" "10.06.1990") (mkDatetime 1990 6 10 0 0 0 0)
            _ _ _ _ _ _)) _ _).
  - repeat split; vm_compute; discriminate.
  - repeat split; vm_compute; discriminate.
  - reflexivity.
  - vm_compute. reflexivity.
  - reflexivity.
  - reflexivity.
  - vm_compute. reflexivity.
  - intros [H _]. discriminate H.
Defined.

(** X18.  Every congratulation date that the calculator returns is a date of
    the calendar, at midnight, on a day from Monday to Friday, not before the
    day of [today] and at most ten days after it, nine when [today] has no
    time of day.  The day count fixes the date: any date of the calendar
    with that ordinal prints as the same text. *)
Theorem congratulation_date_range (records : list ContactRecord) (today : datetime)
    (out : list Entry) :
  valid_datetime today -> valid_time today ->
  get_upcoming_birthdays records today = inr out ->
  Forall (fun e =>
            exists C,
              entry_congratulation_date e = strftime C
              /\ valid_datetime C /\ date_only C
              /\ (forall C', valid_datetime C' -> toordinal C' = toordinal C ->
                    entry_congratulation_date e = strftime C')
              /\ 0 <= weekday C < 5
              /\ toordinal today <= toordinal C
                 <= toordinal today + (if midnight today then 9 else 10))
         out.
Proof.
  intros Hv Ht H.
  apply (get_upcoming_birthdays_inr today Hv records out) in H.
  destruct H as [Hall ->].
  induction Hall as [|r records Hr _ IH]; simpl; [constructor|].
  destruct (included today r) eqn:Hin; [|exact IH].
  simpl. constructor; [|exact IH].
  unfold included in Hin. unfold entry_for.
  destruct (bday_of r) as [bday|] eqn:Hb; [|discriminate]. simpl.
  exists (move_off_weekend (this_year today bday)). split; [reflexivity|].
  destruct (replaceable_dates today r bday Hv Hr Hb) as [_ [Hdo [_ [Hty _]]]].
  pose proof (move_off_weekend_valid _ Hty) as HvC.
  split; [exact HvC|].
  split; [apply move_off_weekend_date_only, this_year_date_only; exact Hdo|].
  split.
  { intros C' HvC' Hord. apply strftime_date_of. symmetry.
    apply toordinal_inj; assumption. }
  pose proof (delta_not_negative today r bday Hv Ht Hr Hb) as H0.
  unfold in_window in Hin. apply andb_true_iff in Hin. destruct Hin as [_ H7].
  apply Z.leb_le in H7.
  rewrite (sub_days_midnight _ _ (this_year_date_only today bday Hdo) Ht) in H0, H7.
  destruct (move_off_weekend_cases _ Hty) as [[Hw [Ho Hm]]|[[Hw [Ho Hm]]|[Hw ->]]].
  - rewrite Ho, Hm. destruct (midnight today); lia.
  - rewrite Ho, Hm. destruct (midnight today); lia.
  - destruct (midnight today); lia.
Qed.

Lemma congratulation_date_range_witness :
  Forall (fun e =>
            exists C,
              entry_congratulation_date e = strftime C
              /\ valid_datetime C /\ date_only C
              /\ (forall C', valid_datetime C' -> toordinal C' = toordinal C ->
                    entry_congratulation_date e = strftime C')
              /\ 0 <= weekday C < 5
              /\ toordinal (mkDatetime 2024 6 10 0 0 0 0) <= toordinal C
                 <= toordinal (mkDatetime 2024 6 10 0 0 0 0) + 9)
         [mkEntry "ann" "17.06.2024"].
Proof.
  exact (congratulation_date_range [record_with_birthday "ann" "15.06.1990"]
           (mkDatetime 2024 6 10 0 0 0 0) [mkEntry "ann" "17.06.2024"]
           ltac:(repeat split; vm_compute; discriminate)
           ltac:(repeat split; vm_compute; discriminate)
           ltac:(vm_compute; reflexivity)).
Defined.

(** ** strftime and strptime *)

Lemma digit_char_code (n : Z) : code (digit_char n) = 48 + n mod 10.
Proof.
  unfold code, digit_char.
  pose proof (Z.mod_pos_bound n 10 ltac:(lia)) as H.
  rewrite N_ascii_embedding by lia. lia.
Qed.

Lemma digit_char_is_dec (n : Z) : is_dec (digit_char n) = true.
Proof.
  unfold is_dec, in_range. rewrite digit_char_code. char_codes.
  pose proof (Z.mod_pos_bound n 10 ltac:(lia)) as H.
  apply andb_true_iff. split; apply Z.leb_le; lia.
Qed.

Lemma digit_char_value (n : Z) : digit_value (digit_char n) = n mod 10.
Proof. unfold digit_value. rewrite digit_char_code. lia. Qed.

Lemma digit_char_of (a : ascii) (n : Z) :
  is_dec a = true -> n mod 10 = digit_value a -> digit_char n = a.
Proof.
  unfold is_dec, in_range, digit_value, digit_char. char_codes. unfold code.
  intros Ha Hn. apply andb_true_iff in Ha. destruct Ha as [H1 H2].
  apply Z.leb_le in H1, H2. rewrite Hn.
  assert ((48 + Z.to_N (Z.of_N (N_of_ascii a) - 48))%N = N_of_ascii a) as ->.
  { apply N2Z.inj. rewrite N2Z.inj_add, Z2N.id by lia. lia. }
  apply ascii_N_embedding.
Qed.

Lemma zero_padded_2 (n : Z) :
  zero_padded 2 n = String (digit_char (n / 10)) (String (digit_char n) "").
Proof. reflexivity. Qed.

Lemma zero_padded_4 (n : Z) :
  zero_padded 4 n
  = String (digit_char (n / 10 / 10 / 10))
      (String (digit_char (n / 10 / 10))
         (String (digit_char (n / 10)) (String (digit_char n) ""))).
Proof. reflexivity. Qed.

Lemma zero_padded_2_int (n : Z) :
  0 <= n <= 99 ->
  py_int (zero_padded 2 n) = n /\ two_digits (digit_char (n / 10)) (digit_char n) = n.
Proof.
  intros Hn. rewrite zero_padded_2, py_int_two by apply digit_char_is_dec.
  assert (two_digits (digit_char (n / 10)) (digit_char n) = n) as H.
  { unfold two_digits. rewrite !digit_char_value.
    Z.to_euclidean_division_equations. lia. }
  split; exact H.
Qed.

Lemma zero_padded_4_int (n : Z) :
  0 <= n <= 9999 -> py_int (zero_padded 4 n) = n.
Proof.
  intros Hn. rewrite zero_padded_4, py_int_four by apply digit_char_is_dec.
  unfold two_digits. rewrite !digit_char_value.
  Z.to_euclidean_division_equations. lia.
Qed.

Lemma strftime_tokens (d : datetime) :
  valid_datetime d ->
  day_token (zero_padded 2 (day d)) = true
  /\ month_token (zero_padded 2 (month d)) = true
  /\ year_token (zero_padded 4 (year d)) = true
  /\ py_int (zero_padded 2 (day d)) = day d
  /\ py_int (zero_padded 2 (month d)) = month d
  /\ py_int (zero_padded 4 (year d)) = year d.
Proof.
  intros [[Hy1 Hy2] [Hm Hd]]. unfold MINYEAR, MAXYEAR in *.
  pose proof (days_in_month_le_31 (year d) (month d) Hm) as H31.
  destruct (zero_padded_2_int (day d) ltac:(lia)) as [Hd1 Hd2].
  destruct (zero_padded_2_int (month d) ltac:(lia)) as [Hm1 Hm2].
  split; [|split; [|split; [|split; [exact Hd1|split; [exact Hm1|]]]]].
  - rewrite zero_padded_2. cbn [day_token]. rewrite !digit_char_is_dec, Hd2.
    assert ((1 <=? day d) = true) as -> by (apply Z.leb_le; lia).
    assert ((day d <=? 31) = true) as -> by (apply Z.leb_le; lia).
    reflexivity.
  - rewrite zero_padded_2. cbn [month_token]. rewrite !digit_char_is_dec, Hm2.
    assert ((1 <=? month d) = true) as -> by (apply Z.leb_le; lia).
    assert ((month d <=? 12) = true) as -> by (apply Z.leb_le; lia).
    reflexivity.
  - rewrite zero_padded_4. cbn [year_token]. rewrite !digit_char_is_dec. reflexivity.
  - apply zero_padded_4_int. lia.
Qed.

(** From 1000 on the year is printed with its four digits. *)
Lemma int_str_four (y : Z) : 1000 <= y <= 9999 -> int_str y = zero_padded 4 y.
Proof.
  intros Hy.
  assert (year_digits_ok y = true) as H.
  { apply (forallb_below year_digits_ok (Z.to_nat 10000)); [vm_compute; reflexivity | lia]. }
  unfold year_digits_ok in H.
  destruct (Z.ltb_spec y 1000) as [Hlt|_]; [lia|].
  cbn [orb] in H. apply String.eqb_eq in H. exact H.
Qed.

Lemma this_year_year (today bday : datetime) :
  year today <= year (this_year today bday).
Proof. unfold this_year. destruct (passed today bday); simpl; lia. Qed.

Lemma move_off_weekend_year (D : datetime) :
  valid_datetime D -> year D <= year (move_off_weekend D).
Proof.
  intros Hv. apply toordinal_year_mono;
    [exact Hv | apply move_off_weekend_valid; exact Hv|].
  destruct (move_off_weekend_cases D Hv) as [[_ [Ho _]]|[[_ [Ho _]]|[_ ->]]]; lia.
Qed.

(** X19.  A valid date at midnight from the year 1000 on, printed with
    [strftime], is read back by [strptime] as the same date, and [Birthday]
    accepts the text.  So when the year of [today] is 1000 or later, every
    congratulation date that the calculator returns is a text that
    [strptime] reads back as the congratulation date and that [Birthday]
    accepts.  Below 1000 the year is printed with fewer than four digits and
    the text is refused. *)
Theorem strptime_strftime :
  (forall d, valid_datetime d -> date_only d -> 1000 <= year d ->
     strptime (strftime d) = inr d
     /\ Birthday_init (strftime d) = inr (mkField (strftime d)))
  /\ (forall records today out,
        valid_datetime today -> 1000 <= year today ->
        get_upcoming_birthdays records today = inr out ->
        Forall (fun e =>
                  exists C,
                    valid_datetime C /\ date_only C
                    /\ entry_congratulation_date e = strftime C
                    /\ strptime (entry_congratulation_date e) = inr C
                    /\ Birthday_init (entry_congratulation_date e)
                       = inr (mkField (entry_congratulation_date e)))
               out)
  /\ (strftime (mkDatetime 999 6 12 0 0 0 0) = "12.06.999"
      /\ Birthday_init "12.06.999" = inl InvalidDate).
Proof.
  assert (forall d, valid_datetime d -> date_only d -> 1000 <= year d ->
            strptime (strftime d) = inr d
            /\ Birthday_init (strftime d) = inr (mkField (strftime d))) as Hround.
  { intros d Hv [Hh [Hm [Hs Hu]]] Hy.
    destruct (strftime_tokens d Hv) as [T1 [T2 [T3 [I1 [I2 I3]]]]].
    assert (strptime (strftime d) = inr d) as H.
    { unfold strftime.
      rewrite int_str_four by (destruct Hv as [[_ Hmax] _]; unfold MAXYEAR in Hmax; lia).
      rewrite strptime_tokens; try assumption.
      - rewrite I1, I2, I3. destruct d. simpl in *. subst. reflexivity.
      - rewrite I1, I2, I3. exact Hv. }
    split; [exact H|]. unfold Birthday_init. rewrite H. reflexivity. }
  split; [exact Hround|]. split; [|split; vm_compute; reflexivity].
  intros records today out Hv Hy H.
  apply (get_upcoming_birthdays_inr today Hv records out) in H.
  destruct H as [Hall ->].
  induction Hall as [|r records Hr _ IH]; simpl; [constructor|].
  destruct (included today r) eqn:Hin; [|exact IH].
  simpl. constructor; [|exact IH].
  unfold included in Hin. unfold entry_for.
  destruct (bday_of r) as [bday|] eqn:Hb; [|discriminate]. simpl.
  destruct (replaceable_dates today r bday Hv Hr Hb) as [_ [Hdo [_ [Hty _]]]].
  pose proof (move_off_weekend_valid _ Hty) as HvC.
  assert (date_only (move_off_weekend (this_year today bday))) as HdC
    by (apply move_off_weekend_date_only, this_year_date_only; exact Hdo).
  assert (1000 <= year (move_off_weekend (this_year today bday))) as HyC.
  { pose proof (this_year_year today bday).
    pose proof (move_off_weekend_year _ Hty). lia. }
  destruct (Hround _ HvC HdC HyC) as [H1 H2].
  exists (move_off_weekend (this_year today bday)).
  repeat split; try assumption; apply HvC || apply HdC.
Qed.

Lemma strptime_strftime_witness :
  strptime (strftime (mkDatetime 2024 6 17 0 0 0 0)) = inr (mkDatetime 2024 6 17 0 0 0 0).
Proof.
  refine (proj1 (proj1 strptime_strftime (mkDatetime 2024 6 17 0 0 0 0) _ _ _)).
  - repeat split; vm_compute; discriminate.
  - repeat split.
  - vm_compute. discriminate.
Defined.

Lemma zero_padded_2_digits (a b : ascii) :
  is_dec a = true -> is_dec b = true ->
  zero_padded 2 (two_digits a b) = String a (String b "").
Proof.
  intros Ha Hb. rewrite zero_padded_2.
  assert (0 <= digit_value a <= 9 /\ 0 <= digit_value b <= 9) as [Ra Rb].
  { revert Ha Hb. unfold is_dec, in_range, digit_value. char_codes.
    rewrite !andb_true_iff, !Z.leb_le. lia. }
  rewrite (digit_char_of a), (digit_char_of b); try assumption; try reflexivity;
    unfold two_digits; Z.to_euclidean_division_equations; lia.
Qed.

Lemma zero_padded_4_digits (a b c d : ascii) :
  is_dec a = true -> is_dec b = true -> is_dec c = true -> is_dec d = true ->
  zero_padded 4 (two_digits a b * 100 + two_digits c d)
  = String a (String b (String c (String d ""))).
Proof.
  intros Ha Hb Hc Hd. rewrite zero_padded_4.
  assert (forall x, is_dec x = true -> 0 <= digit_value x <= 9) as R.
  { intros x. unfold is_dec, in_range, digit_value. char_codes.
    rewrite !andb_true_iff, !Z.leb_le. lia. }
  pose proof (R a Ha). pose proof (R b Hb). pose proof (R c Hc). pose proof (R d Hd).
  rewrite (digit_char_of a), (digit_char_of b), (digit_char_of c), (digit_char_of d);
    try assumption; try reflexivity;
    unfold two_digits; Z.to_euclidean_division_equations; lia.
Qed.

(** X20.  A birthday string in the strict form DD.MM.YYYY is what [strftime]
    prints for the date that [strptime] reads from it: the calculator parses a
    stored birthday without loss.  (Years from 1000 on.) *)
Theorem strftime_strptime (raw : string) :
  strict_DDMMYYYY raw = true ->
  exists d,
    strptime raw = inr d
    /\ valid_datetime d /\ date_only d
    /\ (1000 <= year d -> strftime d = raw).
Proof.
  unfold strict_DDMMYYYY. intros H.
  rewrite <- (string_of_list_ascii_of_string raw).
  destruct (list_ascii_of_string raw)
    as [|d1 [|d2 [|p1 [|m1 [|m2 [|p2 [|y1 [|y2 [|y3 [|y4 [|z l]]]]]]]]]]];
    try discriminate H.
  rewrite !andb_true_iff in H.
  destruct H as [[[[[[[[[[Hd1 Hd2] Hp1] Hm1] Hm2] Hp2] Hy1] Hy2] Hy3] Hy4] Hv].
  assert (forall p, is_char "." p = true -> p = "."%char) as Hdot.
  { intros p Hp. unfold is_char in Hp. apply Z.eqb_eq in Hp. unfold code in Hp.
    apply N2Z.inj in Hp. rewrite <- (ascii_N_embedding p), Hp. reflexivity. }
  apply Hdot in Hp1, Hp2. subst p1 p2.
  unfold valid_dateb in Hv. rewrite !andb_true_iff, !Z.leb_le in Hv.
  destruct Hv as [[[[[Hv1 Hv2] Hv3] Hv4] Hv5] Hv6].
  set (Y := two_digits y1 y2 * 100 + two_digits y3 y4) in *.
  set (Mo := two_digits m1 m2) in *. set (D := two_digits d1 d2) in *.
  assert (1 <= Mo <= 12) as Hm by (split; assumption).
  pose proof (days_in_month_le_31 Y Mo Hm) as H31.
  assert (D <= 31) as Hd31 by (eapply Z.le_trans; eassumption).
  assert (valid_date Y Mo D) as Hvalid by (unfold valid_date; repeat split; assumption).
  exists (mkDatetime Y Mo D 0 0 0 0).
  split; [|split; [exact Hvalid | split; [repeat split|]]].
  - pose proof (strptime_tokens (String d1 (String d2 "")) (String m1 (String m2 ""))
                  (String y1 (String y2 (String y3 (String y4 ""))))) as Hs.
    rewrite py_int_four, !py_int_two in Hs by assumption. apply Hs.
    + simpl. apply orb_true_iff. left.
      rewrite !andb_true_iff, !Z.leb_le. repeat split; assumption.
    + simpl. rewrite !andb_true_iff, !Z.leb_le. repeat split; assumption.
    + simpl. rewrite !andb_true_iff. repeat split; assumption.
    + exact Hvalid.
  - intros Hy. unfold strftime. cbn [day month year] in *.
    rewrite int_str_four by (unfold MAXYEAR in *; lia). subst Y Mo D.
    rewrite !zero_padded_2_digits, zero_padded_4_digits by assumption. reflexivity.
Qed.

Lemma strftime_strptime_witness :
  exists d, strptime "29.02.2024" = inr d /\ strftime d = "29.02.2024".
Proof.
  destruct (strftime_strptime "29.02.2024" ltac:(vm_compute; reflexivity))
    as [d [H1 [_ [_ H2]]]].
  exists d. split; [exact H1|].
  apply H2. rewrite (f_equal (fun r => match r with inr t => year t | inl _ => 0 end)
                       (eq_sym H1)).
  vm_compute. discriminate.
Defined.

(** ** Failing commands and the book *)

Lemma book_eta (book : AddressBook) : mkAddressBook (data book) = book.
Proof. destruct book. reflexivity. Qed.

Lemma record_eta (r : ContactRecord) :
  mkRecord (name r) (phone_manager r) (birthday_manager r) = r.
Proof. destruct r. reflexivity. Qed.

(** X21.  A command that raises leaves the book as it was, with one
    exception: [add] for a name that was not in the book, which has already
    inserted the empty record of that name when the phone is refused. *)
Theorem failed_command_and_book (now : datetime) (cmd : Command) (args : list string)
    (book book' : AddressBook) (e : exn) :
  execute now cmd args book = (inl e, book') ->
  book' = book
  \/ (cmd = AddContactCommand
      /\ exists n phone,
           args = [n; phone] /\ dict_get n (data book) = None
           /\ e = InvalidPhone
           /\ data book' = (data book ++ [(n, Record_init n)])%list).
Proof.
  destruct cmd; simpl.
  - unfold AddContactCommand_execute.
    destruct (negb (len args =? 2)); [intros H; inversion H; left; reflexivity|].
    destruct args as [|n [|phone [|x rest]]];
      try (intros H; inversion H; left; reflexivity).
    unfold mbind, find, mget, mret, add_record, mput, in_record, in_phone_manager,
      add_phone, mlift. simpl.
    destruct (dict_get n (data book)) as [r|] eqn:Hn; simpl;
      destruct (Phone_init phone) as [e'|p] eqn:E; simpl;
      intros H; inversion H; subst.
    + left. rewrite record_eta, (dict_replace_present _ _ _ _ Hn),
        (dict_set_same _ _ _ Hn). apply book_eta.
    + right. split; [reflexivity|]. exists n, phone.
      split; [reflexivity|]. split; [exact Hn|].
      split; [exact (Phone_init_inl _ _ E)|].
      simpl. rewrite dict_replace_after_set. exact (dict_set_absent _ _ _ Hn).
  - unfold ChangeContactCommand_execute.
    destruct (negb (len args =? 3)); [intros H; inversion H; left; reflexivity|].
    destruct args as [|n [|old_phone [|new_phone [|x rest]]]];
      try (intros H; inversion H; left; reflexivity).
    unfold mbind, find, mget, mret, in_record, in_phone_manager. simpl.
    destruct (dict_get n (data book)) as [r|] eqn:Hn; [|discriminate].
    destruct (edit_phone old_phone new_phone (phone_manager r)) as [res pm] eqn:E.
    destruct (edit_phone_outcome _ _ _ _ _ E) as [[e' [-> [-> _]]]|[-> _]];
      simpl; [|discriminate].
    intros H. inversion H. subst. left.
    rewrite record_eta, (dict_replace_present _ _ _ _ Hn), (dict_set_same _ _ _ Hn).
    apply book_eta.
  - unfold ShowPhoneCommand_execute.
    destruct (negb (len args =? 1)); [intros H; inversion H; left; reflexivity|].
    destruct args as [|n [|x rest]]; try (intros H; inversion H; left; reflexivity).
    unfold mbind, find, mget, mret. simpl.
    destruct (dict_get n (data book)); discriminate.
  - unfold ShowAllCommand_execute, mbind, mget, mret. simpl.
    destruct (data book); discriminate.
  - unfold AddBirthdayCommand_execute.
    destruct (negb (len args =? 2)); [intros H; inversion H; left; reflexivity|].
    destruct args as [|n [|b [|x rest]]]; try (intros H; inversion H; left; reflexivity).
    unfold mbind, find, mget, mret, in_record, in_birthday_manager, add_birthday,
      mlift, mput. simpl.
    destruct (dict_get n (data book)) as [r|] eqn:Hn; [|discriminate]. simpl.
    destruct (Birthday_init b) as [e'|bd] eqn:E; simpl; [|discriminate].
    intros H. inversion H. subst. left.
    rewrite record_eta, (dict_replace_present _ _ _ _ Hn), (dict_set_same _ _ _ Hn).
    apply book_eta.
  - unfold ShowBirthdayCommand_execute.
    destruct (negb (len args =? 1)); [intros H; inversion H; left; reflexivity|].
    destruct args as [|n [|x rest]]; try (intros H; inversion H; left; reflexivity).
    unfold mbind, find, mget, mret. simpl.
    destruct (dict_get n (data book)) as [r|]; [|discriminate].
    destruct (birthday (birthday_manager r)); discriminate.
  - unfold BirthdaysCommand_execute, mbind, mget, mret, mlift. simpl.
    destruct (get_upcoming_birthdays (get_all_records book) now) as [e'|[|x l]];
      try discriminate.
    intros H. inversion H. left. reflexivity.
Qed.

Lemma failed_command_and_book_witness :
  execute (mkDatetime 2024 6 10 0 0 0 0) AddBirthdayCommand ["john"; "31.02.2000"]
          (mkAddressBook [("john", Record_init "john")])
  = (inl InvalidDate, mkAddressBook [("john", Record_init "john")])
  /\ (mkAddressBook [("john", Record_init "john")]
      = mkAddressBook [("john", Record_init "john")]
      \/ AddBirthdayCommand = AddContactCommand).
Proof.
  split; [vm_compute; reflexivity|].
  destruct (failed_command_and_book (mkDatetime 2024 6 10 0 0 0 0) AddBirthdayCommand
              ["john"; "31.02.2000"] (mkAddressBook [("john", Record_init "john")])
              (mkAddressBook [("john", Record_init "john")]) InvalidDate
              ltac:(vm_compute; reflexivity)) as [H|[H _]].
  - left. exact H.
  - right. exact H.
Defined.

(** ** The names of a session *)

Lemma dict_set_keys_In (k : string) (v : ContactRecord) (d : dict) (x : string) :
  In x (map fst (dict_set k v d)) -> x = k \/ In x (map fst d).
Proof.
  destruct (dict_get k d) as [r|] eqn:E.
  - rewrite (dict_set_keys_present _ _ _ _ E). tauto.
  - rewrite (dict_set_absent _ _ _ E), map_app, in_app_iff. simpl. intuition.
Qed.

Lemma in_record_keys {A : Type} (n : string) (r : ContactRecord)
    (m : M ContactRecord A) (book : AddressBook) (x : string) :
  In x (map fst (data (snd (in_record n r m book)))) ->
  x = n \/ In x (map fst (data book)).
Proof.
  unfold in_record. destruct (m r) as [res r']. simpl. rewrite dict_replace_cases.
  destruct (dict_get n (data book)); [apply dict_set_keys_In | tauto].
Qed.

Lemma execute_keys (now : datetime) (cmd : Command) (args : list string)
    (book : AddressBook) (x : string) :
  In x (map fst (data (snd (execute now cmd args book)))) ->
  In x (map fst (data book)) \/ (exists rest, args = x :: rest).
Proof.
  destruct cmd.
  - simpl. unfold AddContactCommand_execute. destruct (negb (len args =? 2)); [tauto|].
    destruct args as [|n [|phone [|y rest]]]; try tauto.
    unfold mbind, find, mget, mret. simpl.
    destruct (dict_get n (data book)) as [r|] eqn:E.
    + intros H.
      assert (In x (map fst (data (snd (in_record n r
                 (in_phone_manager (add_phone phone)) book))))) as H'.
      { destruct (in_record n r (in_phone_manager (add_phone phone)) book)
          as [[e|[]] b']; exact H. }
      apply in_record_keys in H'. destruct H' as [->|H']; [|tauto].
      right. eexists. reflexivity.
    + unfold add_record, mbind, mget, mput. simpl. intros H.
      assert (In x (map fst (data (snd (in_record n (Record_init n)
                 (in_phone_manager (add_phone phone))
                 (mkAddressBook (dict_set n (Record_init n) (data book)))))))) as H'.
      { destruct (in_record n (Record_init n) (in_phone_manager (add_phone phone)) _)
          as [[e|[]] b']; exact H. }
      apply in_record_keys in H'. destruct H' as [->|H'].
      * right. eexists. reflexivity.
      * simpl in H'. apply dict_set_keys_In in H'. destruct H' as [->|H']; [|tauto].
        right. eexists. reflexivity.
  - simpl. unfold ChangeContactCommand_execute. destruct (negb (len args =? 3)); [tauto|].
    destruct args as [|n [|old_phone [|new_phone [|y rest]]]]; try tauto.
    unfold mbind, find, mget, mret. simpl.
    destruct (dict_get n (data book)) as [r|] eqn:E; [|tauto].
    intros H.
    assert (In x (map fst (data (snd (in_record n r
               (in_phone_manager (edit_phone old_phone new_phone)) book))))) as H'.
    { destruct (in_record n r (in_phone_manager (edit_phone old_phone new_phone)) book)
        as [[e|[]] b']; exact H. }
    apply in_record_keys in H'. destruct H' as [->|H']; [|tauto].
    right. eexists. reflexivity.
  - intros H. left.
    rewrite (query_keeps_book now ShowPhoneCommand args book) in H by tauto. exact H.
  - intros H. left.
    rewrite (query_keeps_book now ShowAllCommand args book) in H by tauto. exact H.
  - simpl. unfold AddBirthdayCommand_execute. destruct (negb (len args =? 2)); [tauto|].
    destruct args as [|n [|b [|y rest]]]; try tauto.
    unfold mbind, find, mget, mret. simpl.
    destruct (dict_get n (data book)) as [r|] eqn:E; [|tauto].
    intros H.
    assert (In x (map fst (data (snd (in_record n r
               (in_birthday_manager (add_birthday b)) book))))) as H'.
    { destruct (in_record n r (in_birthday_manager (add_birthday b)) book)
        as [[e|[]] b']; exact H. }
    apply in_record_keys in H'. destruct H' as [->|H']; [|tauto].
    right. eexists. reflexivity.
  - intros H. left.
    rewrite (query_keeps_book now ShowBirthdayCommand args book) in H by tauto. exact H.
  - intros H. left.
    rewrite (query_keeps_book now BirthdaysCommand args book) in H by tauto. exact H.
Qed.

Lemma parse_input_lower_words (s cmd : string) (args : list string) :
  parse_input s = inr (cmd, args) -> Forall lower_word args.
Proof.
  intros Hp. destruct (str_all char_isspace s) eqn:Hs.
  - unfold parse_input in Hp. apply str_strip_empty in Hs. rewrite Hs in Hp.
    inversion Hp. constructor.
  - destruct (parse_input_words s Hs) as [c [a [Hsplit Hp']]].
    rewrite Hp in Hp'. inversion Hp'. subst c a.
    pose proof (split_from_words (str_lower s) "" eq_refl) as Hw.
    pose proof (split_from_lower s "" eq_refl) as Hl.
    fold (str_split (str_lower s)) in Hw, Hl. rewrite Hsplit in Hw, Hl.
    inversion Hw as [|w ws _ Hws]. inversion Hl as [|w' ws' _ Hls]. subst.
    clear - Hws Hls. induction Hws as [|w ws [H1 H2] _ IH]; [constructor|].
    inversion Hls. subst. constructor; [repeat split; assumption | apply IH; assumption].
Qed.

Lemma main_turn_keys (now : datetime) (command : string) (args : list string)
    (book : AddressBook) (disk : Storage) (x : string) :
  In x (map fst (data (fst (snd (main_turn now command args (book, disk)))))) ->
  In x (map fst (data book)) \/ (exists rest, args = x :: rest).
Proof.
  unfold main_turn.
  destruct ((command =? "close") || (command =? "exit"))%string; [simpl; tauto|].
  destruct (command =? "")%string; [simpl; tauto|].
  destruct (command =? "hello")%string; [simpl; tauto|].
  destruct (command_map command) as [cmd|]; [|simpl; tauto].
  destruct (decorated_cmd_returns now cmd args book disk) as [text H].
  unfold mbind. rewrite H. simpl. apply execute_keys.
Qed.

(** X22.  Names typed in a session are stored in lower case: if every name of
    the loaded book is a lower-case word without white space, so is every
    name of the book at the end of the session, whatever is typed. *)
Theorem session_names_lower_case (inputs : list (datetime * string)) (disk : Storage) :
  Forall lower_word (map fst (data (PickleStorage_load disk))) ->
  Forall lower_word (map fst (data (fst (snd (fst (main inputs disk)))))).
Proof.
  unfold main.
  assert (forall inputs book d printed,
            Forall lower_word (map fst (data book)) ->
            Forall lower_word
              (map fst (data (fst (snd (fst (main_loop inputs (book, d) printed)))))))
    as Hloop; [|intros H; apply Hloop; exact H].
  clear. induction inputs as [|[now line] rest IH]; intros book d printed Hb; simpl.
  - exact Hb.
  - destruct (parse_input line) as [e|[cmd args]] eqn:Hp; [exact Hb|].
    pose proof (parse_input_lower_words _ _ _ Hp) as Hargs.
    assert (Forall lower_word
              (map fst (data (fst (snd (main_turn now cmd args (book, d))))))) as Hb'.
    { apply Forall_forall. intros x Hx. apply main_turn_keys in Hx.
      destruct Hx as [Hx|[r ->]].
      - rewrite Forall_forall in Hb. exact (Hb x Hx).
      - inversion Hargs. assumption. }
    destruct (main_turn now cmd args (book, d)) as [[e|[text [|]]] [book' d']];
      simpl in *.
    + exact Hb'.
    + apply IH. exact Hb'.
    + exact Hb'.
Qed.

Lemma session_names_lower_case_witness :
  Forall lower_word
    (map fst (data (fst (snd (fst (main [(mkDatetime 2024 6 10 9 30 0 0,
                                          "add John 1234567890")] None)))))).
Proof.
  apply session_names_lower_case. constructor.
Defined.

(** ** The birthdays command and 29 February *)

Lemma feb29_body_inl (today : datetime) (upcoming : list Entry) (r : ContactRecord)
    (bday : datetime) :
  bday_of r = Some bday -> month bday = 2 -> day bday = 29 ->
  _is_leap (year today) = false ->
  exists e, upcoming_body today upcoming r = inl e.
Proof.
  intros Hb Hm Hd Hleap. unfold bday_of in Hb. unfold upcoming_body.
  destruct (birthday (birthday_manager r)) as [b|]; [|discriminate].
  destruct (strptime (value b)) as [e|t]; [discriminate|].
  inversion Hb. subst t. cbn [rbind].
  unfold replace_year, datetime_new, _check_date_fields. rewrite Hm, Hd.
  destruct (negb ((MINYEAR <=? year today) && (year today <=? MAXYEAR))).
  - eexists. reflexivity.
  - unfold _days_in_month. rewrite Hleap. simpl. eexists. reflexivity.
Qed.

Lemma feb29_loop_inl (today : datetime) (records : list ContactRecord)
    (r : ContactRecord) (bday : datetime) :
  In r records ->
  bday_of r = Some bday -> month bday = 2 -> day bday = 29 ->
  _is_leap (year today) = false ->
  forall upcoming, exists e, upcoming_loop today upcoming records = inl e.
Proof.
  intros Hin Hb Hm Hd Hleap.
  induction records as [|x records IH]; [destruct Hin|].
  intros upcoming. simpl. destruct Hin as [->|Hin].
  - destruct (feb29_body_inl today upcoming r bday Hb Hm Hd Hleap) as [e ->].
    exists e. reflexivity.
  - destruct (upcoming_body today upcoming x) as [e|upcoming'].
    + exists e. reflexivity.
    + exact (IH Hin upcoming').
Qed.

(** X23.  One contact born on a 29 February disables the [birthdays] command
    in every year that is not a leap year: whatever else the book holds, the
    command prints an error text instead of the list, and the book is
    untouched. *)
Theorem birthdays_command_feb29 (now : datetime) (args : list string)
    (book : AddressBook) (disk : Storage) (k : string) (r : ContactRecord)
    (bday : datetime) :
  In (k, r) (data book) ->
  bday_of r = Some bday -> month bday = 2 -> day bday = 29 ->
  _is_leap (year now) = false ->
  exists msg,
    decorated_cmd now BirthdaysCommand args (book, disk)
    = (inr ("Error: " ++ msg), (book, Some book)).
Proof.
  intros Hin Hb Hm Hd Hleap.
  assert (In r (get_all_records book)) as Hr.
  { unfold get_all_records. apply in_map_iff. exists (k, r). split; [reflexivity | exact Hin]. }
  destruct (feb29_loop_inl now _ r bday Hr Hb Hm Hd Hleap []) as [e He].
  fold (get_upcoming_birthdays (get_all_records book) now) in He.
  destruct (get_upcoming_birthdays_inl _ _ _ He) as [msg ->].
  exists msg. unfold decorated_cmd, save_on_change, input_error. simpl.
  unfold BirthdaysCommand_execute, mbind, mget, mlift. simpl. rewrite He. reflexivity.
Qed.

Lemma birthdays_command_feb29_witness :
  exists msg,
    decorated_cmd (mkDatetime 2023 6 10 9 30 0 0) BirthdaysCommand []
      (mkAddressBook [("ann", record_with_birthday "ann" "12.06.1990");
                      ("bob", record_with_birthday "bob" "29.02.2000")], None)
    = (inr ("Error: " ++ msg),
       (mkAddressBook [("ann", record_with_birthday "ann" "12.06.1990");
                       ("bob", record_with_birthday "bob" "29.02.2000")],
        Some (mkAddressBook [("ann", record_with_birthday "ann" "12.06.1990");
                             ("bob", record_with_birthday "bob" "29.02.2000")]))).
Proof.
  apply (birthdays_command_feb29 (mkDatetime 2023 6 10 9 30 0 0) []
           (mkAddressBook [("ann", record_with_birthday "ann" "12.06.1990");
                           ("bob", record_with_birthday "bob" "29.02.2000")])
           None "bob" (record_with_birthday "bob" "29.02.2000")
           (mkDatetime 2000 2 29 0 0 0 0)).
  - right. left. reflexivity.
  - vm_compute. reflexivity.
  - reflexivity.
  - reflexivity.
  - vm_compute. reflexivity.
Defined.

(** ** The last year of the calendar *)

(** X25.  In the year 9999 a birthday that has passed cannot be rolled on to
    the next year: the calculator raises ["year 10000 is out of range"]
    when it comes to such a record, and returns no list whatever the other
    records are. *)
Theorem last_year_rollover_raises (before after : list ContactRecord)
    (r : ContactRecord) (bday today : datetime) :
  bday_of r = Some bday ->
  year today = MAXYEAR ->
  day bday <= _days_in_month MAXYEAR (month bday) ->
  passed today bday = true ->
  get_upcoming_birthdays (r :: after) today
  = inl (ValueError "year 10000 is out of range")
  /\ exists e, get_upcoming_birthdays (before ++ r :: after) today = inl e.
Proof.
  intros Hb Hy Hd Hp.
  assert (forall upcoming,
            upcoming_body today upcoming r
            = inl (ValueError "year 10000 is out of range")) as Hbody.
  { intros upcoming. unfold bday_of in Hb. unfold upcoming_body.
    destruct (birthday (birthday_manager r)) as [b|]; [|discriminate].
    destruct (strptime (value b)) as [e|t] eqn:Hs; [discriminate|].
    inversion Hb. subst t. cbn [rbind].
    destruct (strptime_inr _ _ Hs) as [[_ [Hm [Hd1 _]]] _].
    rewrite (replace_year_valid bday (year today))
      by (rewrite Hy; unfold valid_date, MINYEAR, MAXYEAR in *; lia).
    cbn [rbind]. fold (passed today bday). rewrite Hp.
    unfold replace_year, datetime_new, _check_date_fields. rewrite Hy.
    reflexivity. }
  split.
  - unfold get_upcoming_birthdays. simpl. rewrite Hbody. reflexivity.
  - unfold get_upcoming_birthdays. generalize (@nil Entry) as upcoming.
    induction before as [|x before IH]; intros upcoming; simpl.
    + rewrite Hbody. eexists. reflexivity.
    + destruct (upcoming_body today upcoming x) as [e|upcoming'].
      * exists e. reflexivity.
      * apply IH.
Qed.

Lemma last_year_rollover_raises_witness :
  get_upcoming_birthdays [record_with_birthday "ann" "01.01.1990"]
                         (mkDatetime 9999 12 31 0 0 0 0)
  = inl (ValueError "year 10000 is out of range").
Proof.
  refine (proj1 (last_year_rollover_raises [] []
            (record_with_birthday "ann" "01.01.1990") (mkDatetime 1990 1 1 0 0 0 0)
            (mkDatetime 9999 12 31 0 0 0 0) _ _ _ _)).
  - vm_compute. reflexivity.
  - reflexivity.
  - vm_compute. discriminate.
  - vm_compute. reflexivity.
Defined.
